(** * Event-stream API: ingestion and notification engine

    A shallow embedding of the rate limiter, the time-series planner, the
    webhook dispatcher and the batch ingestion path of the service, with the
    properties of the written specification stated and proved over it,
    followed by the in-memory rate-limit plugin, the date-range checks,
    webhook management, the performance decorator and the event controller,
    with further properties read off the code.

    Conventions.  A time is an integer number of milliseconds since the
    epoch ([Z]); where the code can meet an Invalid Date, a [Date] is an
    [option Z], and local-time arithmetic is taken in the host's time zone,
    a parameter.  A number that comes from a configuration object is a
    rational, NaN or an infinity.  A Prisma table with a unique key is a
    [gmap]; a table that is only appended to is a list.  An [async]
    function that may reject returns a [Result]; the effects of awaited
    calls are threaded through an explicit world, in the order in which
    the calls are started.  A method under [@MonitorPerformance] takes the
    circumstances of its call, and the table of timers, as arguments. *)

From Stdlib Require Import ZArith QArith Lia.
From stdpp Require Import gmap strings list pretty.

Local Open Scope string_scope.
Local Open Scope list_scope.
Local Open Scope Z_scope.

(** ** Errors (src/utils/error.utils.ts) *)

Inductive ErrorType :=
| VALIDATION | NOT_FOUND | UNAUTHORIZED | FORBIDDEN | RATE_LIMIT
| DATABASE | EXTERNAL_SERVICE | INTERNAL | CONFLICT | BAD_REQUEST.

(** The values the modelled code throws or catches. *)
Inductive Thrown :=
| AppError (type : ErrorType) (message : string) (statusCode : Z)
| ZodError (code : string)
| JsError (message : string)
| AxiosError (message : string) (responseStatus : option Z)
| PrismaError (code message : string)
| NonError.

Inductive Result (A : Type) :=
| Ok (a : A)
| Err (e : Thrown).
Arguments Ok {A} a.
Arguments Err {A} e.

(** [error instanceof Error ? error.message : ...] *)
Definition errorMessage (e : Thrown) : option string :=
  match e with
  | AppError _ m _ => Some m
  | ZodError c => Some c
  | JsError m => Some m
  | AxiosError m _ => Some m
  | PrismaError _ m => Some m
  | NonError => None
  end.

(** [handlePrismaError], on the code of a [PrismaClientKnownRequestError]. *)
Definition handlePrismaError (code : string) : Thrown :=
  if bool_decide (code = "P2002") then
    AppError VALIDATION "Unique constraint violation" 409
  else if bool_decide (code = "P2025") then
    AppError NOT_FOUND "Record not found" 404
  else if bool_decide (code = "P2003") then
    AppError VALIDATION "Foreign key constraint violation" 400
  else AppError DATABASE "Database operation failed" 500.

Definition isValidationError (e : Thrown) : bool :=
  match e with
  | AppError VALIDATION _ _ => true
  | _ => false
  end.

(** ** Rate limiter (src/services/rate-limit.service.ts) *)

Module RateLimit.

Record RateLimitConfig := {
  windowMs : Z;
  max : Z;
  message : string;
  statusCode : Z;
  headers : bool;
}.

Definition DEFAULT_CONFIG : RateLimitConfig := {|
  windowMs := 60000;
  max := 100;
  message := "Too many requests, please try again later.";
  statusCode := 429;
  headers := true;
|}.

(** A JavaScript number: a finite one is a rational (every double is
    one), or it is NaN or an infinity. *)
Inductive Number :=
| Finite (q : Q)
| NaN
| Infinity
| NegativeInfinity.

(** A key of an object literal: missing, or present with a value, which
    may be [undefined] ([None]). *)
Inductive Key (A : Type) :=
| Missing
| Present (value : option A).
Arguments Missing {A}.
Arguments Present {A} value.

(** [config.x]: a missing key reads as [undefined]. *)
Definition read {A : Type} (k : Key A) : option A :=
  match k with
  | Missing => None
  | Present value => value
  end.

(** [{ ...defaults, ...config }], one key at a time: a key that is present
    overrides the default, also when its value is [undefined]. *)
Definition spread {A : Type} (d : A) (k : Key A) : option A :=
  match k with
  | Missing => Some d
  | Present value => value
  end.

(** [Partial<RateLimitConfig>] *)
Record PartialConfig := {
  windowMs' : Key Number;
  max' : Key Number;
  message' : Key string;
  statusCode' : Key Number;
  headers' : Key bool;
}.

(** The object [validateAndMergeConfig] returns; it is typed
    [Required<RateLimitConfig>], but a field is whatever the spread has
    put there. *)
Record MergedConfig := {
  m_windowMs : option Number;
  m_max : option Number;
  m_message : option string;
  m_statusCode : option Number;
  m_headers : option bool;
}.

(** [x !== undefined && x <= 0]; a comparison with NaN is false. *)
Definition nonPositive (x : option Number) : bool :=
  match x with
  | Some (Finite q) => Qle_bool q 0
  | Some NegativeInfinity => true
  | Some NaN | Some Infinity | None => false
  end.

(** [validateAndMergeConfig]: once [windowMs] and [max] are checked, the
    keys that are present override the defaults. *)
Definition validateAndMergeConfig (config : PartialConfig)
    : Result MergedConfig :=
  if nonPositive (read (windowMs' config)) then
    Err (AppError VALIDATION "Window size must be greater than 0" 400)
  else if nonPositive (read (max' config)) then
    Err (AppError VALIDATION "Maximum requests must be greater than 0" 400)
  else
    Ok {| m_windowMs :=
            spread (Finite (inject_Z (windowMs DEFAULT_CONFIG)))
              (windowMs' config);
          m_max := spread (Finite (inject_Z (max DEFAULT_CONFIG))) (max' config);
          m_message := spread (message DEFAULT_CONFIG) (message' config);
          m_statusCode :=
            spread (Finite (inject_Z (statusCode DEFAULT_CONFIG)))
              (statusCode' config);
          m_headers := spread (headers DEFAULT_CONFIG) (headers' config) |}.

(** A row of the [RateLimit] table; the table is keyed by the unique pair
    (key, endpoint). *)
Record Row := {
  count : Z;
  resetAt : Z;
}.

Abbreviation Table := (gmap (string * string) Row).

Record RateLimitInfo := {
  limit : Z;
  remaining : Z;
  reset : Z;
}.

Record Verdict := {
  isLimited : bool;
  limitInfo : RateLimitInfo;
}.

(** [prisma.rateLimit.upsert]: the row becomes (count 1, resetAt) whether
    it existed or not. *)
Definition upsert (t : Table) (k : string * string) (r : Row) : Table * Row :=
  (<[k := r]> t, r).

(** [prisma.rateLimit.update] with [count: { increment: 1 }] on the row
    that was just read. *)
Definition update_increment (t : Table) (k : string * string) (r : Row)
    : Table * Row :=
  let r' := {| count := count r + 1; resetAt := resetAt r |} in
  (<[k := r']> t, r').

Definition getOrCreateRateLimit (t : Table) (key endpoint : string)
    (now resetAt' : Z) : Table * Row :=
  match t !! (key, endpoint) with
  | None => upsert t (key, endpoint) {| count := 1; resetAt := resetAt' |}
  | Some rateLimit =>
      if resetAt rateLimit <? now then
        upsert t (key, endpoint) {| count := 1; resetAt := resetAt' |}
      else
        let '(t', updatedRateLimit) :=
          update_increment t (key, endpoint) rateLimit in
        (t', {| count := count updatedRateLimit;
                resetAt := resetAt rateLimit |})
  end.

Definition calculateLimitInfo (cfg : RateLimitConfig) (rateLimit : Row)
    (resetAt' : Z) : Verdict :=
  let remaining := Z.max 0 (max cfg - count rateLimit) in
  let isLimited := max cfg <? count rateLimit in
  {| isLimited := isLimited;
     limitInfo := {| limit := max cfg;
                     remaining := remaining;
                     reset := resetAt' / 1000 |} |}.

(** The table operations are total here: a storage fault (which the
    [catch] turns into an [AppError] of type INTERNAL) is outside the
    model. *)
Definition checkRateLimit (cfg : RateLimitConfig) (t : Table)
    (key endpoint : string) (now : Z) : Table * Verdict :=
  let resetAt' := now + windowMs cfg in
  let '(t', rateLimit) := getOrCreateRateLimit t key endpoint now resetAt' in
  (t', calculateLimitInfo cfg rateLimit (resetAt rateLimit)).

(** The request is allowed when it is not limited. *)
Definition allowed (v : Verdict) : bool := negb (isLimited v).

(** Requests for one (key, endpoint) arriving at the given times, in order;
    the verdicts are returned in the same order. *)
Fixpoint requests (cfg : RateLimitConfig) (t : Table) (key endpoint : string)
    (times : list Z) : Table * list Verdict :=
  match times with
  | [] => (t, [])
  | now :: rest =>
      let '(t1, v) := checkRateLimit cfg t key endpoint now in
      let '(t2, vs) := requests cfg t1 key endpoint rest in
      (t2, v :: vs)
  end.

End RateLimit.

(** ** Aggregation planner (TimeSeriesAggregator, src/utils/time-series.utils.ts) *)

Module TimeSeries.

Inductive TimeInterval := I1m | I5m | I15m | I1h | I1d.

(** [interval.toString()] *)
Definition toString (i : TimeInterval) : string :=
  match i with
  | I1m => "1m" | I5m => "5m" | I15m => "15m" | I1h => "1h" | I1d => "1d"
  end.

Record TimeSeriesConfig := {
  viewName : string;
  pgInterval : string;
  maxTimeRange : Z;
}.

Definition INTERVAL_CONFIGS : gmap string TimeSeriesConfig :=
  list_to_map [
    ("1m", {| viewName := "events_1m"; pgInterval := "1 minute";
              maxTimeRange := 24 * 60 * 60 * 1000 |});
    ("5m", {| viewName := "events_5m"; pgInterval := "5 minutes";
              maxTimeRange := 7 * 24 * 60 * 60 * 1000 |});
    ("15m", {| viewName := "events_15m"; pgInterval := "15 minutes";
               maxTimeRange := 30 * 24 * 60 * 60 * 1000 |});
    ("1h", {| viewName := "events_1h"; pgInterval := "1 hour";
              maxTimeRange := 90 * 24 * 60 * 60 * 1000 |});
    ("1d", {| viewName := "events_1d"; pgInterval := "1 day";
              maxTimeRange := 365 * 24 * 60 * 60 * 1000 |})
  ].

Definition getConfig (interval : string) : Result TimeSeriesConfig :=
  match INTERVAL_CONFIGS !! interval with
  | Some config => Ok config
  | None => Err (JsError ("Invalid interval: " +:+ interval))
  end.

Definition validateTimeRangeForInterval (interval : TimeInterval)
    (startTime endTime : Z) : Result unit :=
  match getConfig (toString interval) with
  | Err e => Err e
  | Ok config =>
      let timeRange := endTime - startTime in
      if timeRange <=? 0 then
        Err (AppError VALIDATION "End time must be after start time" 400)
      else if maxTimeRange config <? timeRange then
        let maxDays := maxTimeRange config / (24 * 60 * 60 * 1000) in
        Err (AppError VALIDATION
               ("Time range too large for " +:+ toString interval +:+
                " interval. Maximum range is " +:+ pretty maxDays +:+
                " days.") 400)
      else Ok tt
  end.

(** The fields of an aggregation query that [aggregate] reads; the two
    times are the time values of [new Date(startTime)] and
    [new Date(endTime)]. *)
Record AggregationQuery := {
  startTime : Z;
  endTime : Z;
  interval : TimeInterval;
}.

Record Aggregation := {
  agg_interval : TimeInterval;
  agg_viewName : string;
  agg_data : list unit;
}.

Definition aggregate (query : AggregationQuery) : Result Aggregation :=
  match validateTimeRangeForInterval (interval query)
          (startTime query) (endTime query) with
  | Err e => Err e
  | Ok _ =>
      match getConfig (toString (interval query)) with
      | Err e => Err e
      | Ok config =>
          Ok {| agg_interval := interval query;
                agg_viewName := viewName config;
                agg_data := [] |}
      end
  end.

Definition getViewName (interval : TimeInterval) : Result string :=
  match getConfig (toString interval) with
  | Ok c => Ok (viewName c)
  | Err e => Err e
  end.

Definition getPostgresInterval (interval : TimeInterval) : Result string :=
  match getConfig (toString interval) with
  | Ok c => Ok (pgInterval c)
  | Err e => Err e
  end.

Definition HOUR : Z := 1000 * 60 * 60.
Definition DAY : Z := 24 * HOUR.

(** [diffInHours] is the quotient [|end - start| / HOUR]; comparing it with
    a number of hours [h] is comparing the difference with [h * HOUR]. *)
Definition suggestInterval (startTime endTime : Z) : TimeInterval :=
  let diff := Z.abs (endTime - startTime) in
  if diff <=? 24 * HOUR then I1h
  else if diff <=? 24 * 7 * HOUR then I1d
  else if diff <=? 24 * 30 * HOUR then I1d
  else I1d.

(** *** Dates

    A [Date] is its time value in milliseconds, or Invalid Date ([None]):
    a time value is valid within 8.64e15 ms of the epoch, and [TimeClip]
    turns anything beyond into Invalid Date. *)
Definition MAX_TIME : Z := 8640000000000000.

Definition TimeClip (time : Z) : option Z :=
  if Z.abs time <=? MAX_TIME then Some time else None.

(** The host's time zone, as the two readings of [LocalTZA] that the
    language defines: the offset in force at a UTC time value, and the
    offset chosen for a local time value (at a clock change a local time
    may occur twice, or not at all). *)
Record TimeZone := {
  LocalTZA_utc : Z → Z;
  LocalTZA_local : Z → Z;
}.

(** The zone of the deployed image, which sets none. *)
Definition utcZone : TimeZone :=
  {| LocalTZA_utc := λ _, 0; LocalTZA_local := λ _, 0 |}.

Definition LocalTime (zone : TimeZone) (t : Z) : Z := t + LocalTZA_utc zone t.
Definition UTC (zone : TimeZone) (t : Z) : Z := t - LocalTZA_local zone t.

(** [currentTime.setHours(currentTime.getHours() + 1)] and
    [currentTime.setDate(currentTime.getDate() + 1)] on a valid Date: the
    local time moves on by one hour, respectively one day, of wall-clock
    time ([MakeTime] and [MakeDay] carry an hour 24 or a day past the end
    of the month over), is read back as UTC and clipped.  The value is the
    new time value of [currentTime], [None] for NaN. *)
Definition setHours_next (zone : TimeZone) (t : Z) : option Z :=
  TimeClip (UTC zone (LocalTime zone t + HOUR)).
Definition setDate_next (zone : TimeZone) (t : Z) : option Z :=
  TimeClip (UTC zone (LocalTime zone t + DAY)).

(** The width of the interval the loop steps by; it depends on the whole
    range only. *)
Definition bucketWidth (startTime endTime : Z) : Z :=
  match suggestInterval startTime endTime with
  | I1h => HOUR
  | _ => DAY
  end.

(** [{ start: Date; end: Date }] *)
Record Bucket := {
  b_start : option Z;
  b_end : option Z;
}.

(** The [switch] of the loop body: the end of the bucket before it is
    compared with [endTime]. *)
Definition nextBoundary (zone : TimeZone) (startTime endTime currentTime : Z)
    : option Z :=
  match suggestInterval startTime endTime with
  | I1h => setHours_next zone currentTime
  | I1d => setDate_next zone currentTime
  | _ => setDate_next zone currentTime
  end.

(** The [while (currentTime < endTime)] loop on valid [startTime] and
    [endTime]; [None] when the fuel runs out before the loop exits.  An
    Invalid Date compares false with everything: it is not clipped to
    [endTime], and as [currentTime] it ends the loop. *)
Fixpoint generateBuckets_loop (zone : TimeZone) (fuel : nat)
    (startTime endTime : Z) (currentTime : option Z)
    (buckets : list Bucket) : option (list Bucket) :=
  match currentTime with
  | None => Some buckets
  | Some current =>
      if current <? endTime then
        match fuel with
        | O => None
        | S fuel' =>
            let bucketStart := Some current in
            let bucketEnd := nextBoundary zone startTime endTime current in
            let bucketEnd :=
              match bucketEnd with
              | Some e => if endTime <? e then Some endTime else Some e
              | None => None
              end in
            generateBuckets_loop zone fuel' startTime endTime bucketEnd
              (buckets ++ [{| b_start := bucketStart; b_end := bucketEnd |}])
        end
      else Some buckets
  end.

(** [generateBuckets].  With an Invalid Date for either argument the loop
    condition is false at once.  The fuel is one iteration per started hour
    of the range, which is enough wherever a step moves the time on by an
    hour or more. *)
Definition generateBuckets (zone : TimeZone) (startTime endTime : option Z)
    : option (list Bucket) :=
  match startTime, endTime with
  | Some startTime, Some endTime =>
      generateBuckets_loop zone
        (S (Z.to_nat ((endTime - startTime) / HOUR)))
        startTime endTime (Some startTime) []
  | _, _ => Some []
  end.

(** A bucket between two valid Dates. *)
Record Span := {
  s_start : Z;
  s_end : Z;
}.

Definition bucket (s : Span) : Bucket :=
  {| b_start := Some (s_start s); b_end := Some (s_end s) |}.

(** The spans tile [lo, hi): each starts where the previous one ended
    and none is empty. *)
Fixpoint tiles (bs : list Span) (lo hi : Z) : Prop :=
  match bs with
  | [] => lo = hi
  | b :: rest => s_start b = lo ∧ s_start b < s_end b ∧ tiles rest (s_end b) hi
  end.

Definition inBucket (t : Z) (b : Span) : Prop := s_start b <= t < s_end b.

(** Every boundary the loop computes from a time of the range is a valid
    Date, an hour or more later. *)
Definition advancing (zone : TimeZone) (startTime endTime : Z) : Prop :=
  ∀ t, startTime <= t < endTime →
    ∃ v, nextBoundary zone startTime endTime t = Some v ∧ t + HOUR <= v.

(** A zone without clock changes. *)
Definition fixedOffset (zone : TimeZone) : Prop :=
  ∃ offset, ∀ t, LocalTZA_utc zone t = offset ∧ LocalTZA_local zone t = offset.

End TimeSeries.

(** ** Platform services

    JavaScript values that travel as [unknown] (event data, webhook payloads,
    HTTP response bodies) are JSON values.  [JSON.stringify], the HMAC of
    node's [crypto] module and [randomUUID] are library code: the model is
    parametric in them. *)

Unset Elimination Schemes.
Inductive JsValue :=
| JsNull
| JsBool (b : bool)
| JsNum (n : Z)
| JsStr (s : string)
| JsArr (items : list JsValue)
| JsObj (fields : list (string * JsValue)).
Set Elimination Schemes.

Class Platform := {
  (** [JSON.stringify(v)] *)
  JSON_stringify : JsValue → string;
  (** [createHmac('sha256', secret).update(payload).digest('hex')] *)
  createHmac_sha256_hex : string → string → string;
  (** the identifier returned by the n-th call of [randomUUID()] *)
  randomUUID : nat → string;
}.

(** ** Webhook dispatcher (WebhookService, WebhookRepository) *)

(** ** Performance monitoring (src/utils/performance.utils.ts) *)

Module Performance.

(** [PerformanceMonitor.timers]: readings of [performance.now()], a
    number of milliseconds, by operation id.  [MonitorPerformance] makes
    one monitor for each method it decorates and uses it under one
    operation id, the name of the class and the method; the monitors of
    the decorated methods are kept here together, as one table keyed by
    operation id. *)
Abbreviation Timers := (gmap string Q).

Definition startTimer (operationId : string) (now : Q) (timers : Timers)
    : Timers :=
  <[operationId := now]> timers.

(** [endTimer]: [!startTime] holds of a missing timer and of the reading
    0.  The duration is logged; the timer is deleted. *)
Definition endTimer (operationId : string) (timers : Timers) : Result Timers :=
  let noTimer :=
    Err (JsError ("No timer found for operation: " +:+ operationId)) in
  match timers !! operationId with
  | Some startTime =>
      if Qeq_bool startTime 0 then noTimer
      else Ok (delete operationId timers)
  | None => noTimer
  end.

(** What another call of the same method does to the monitor: it starts,
    or it comes to its end ([endTimer], which may throw there too). *)
Inductive TimerOp :=
| Started (now : Q)
| Ended.

Definition others (operationId : string) (ops : list TimerOp)
    (timers : Timers) : Timers :=
  foldl (λ timers op,
           match op with
           | Started now => startTimer operationId now timers
           | Ended =>
               match endTimer operationId timers with
               | Ok timers' => timers'
               | Err _ => timers
               end
           end) timers ops.

(** The circumstances of one call of a decorated method: the reading of
    [performance.now()] when it starts, and what the other calls of the
    method that are in flight do to the monitor while this one awaits its
    original method. *)
Record Call := {
  startedAt : Q;
  overlap : list TimerOp;
}.

(** The method that [MonitorPerformance] puts in the place of
    [originalMethod].  When [endTimer] throws in the [try], the [catch]
    calls it again and it throws again; when the original method rejects,
    the [catch] calls it before rethrowing: either way a missing timer
    makes the call reject with the error of [endTimer]. *)
Definition MonitorPerformance {W A : Type} (operationId : string)
    (call : Call) (originalMethod : Timers → W → Timers * W * Result A)
    (timers : Timers) (w : W) : Timers * W * Result A :=
  let timers := startTimer operationId (startedAt call) timers in
  let '(timers, w, result) := originalMethod timers w in
  let timers := others operationId (overlap call) timers in
  match endTimer operationId timers with
  | Ok timers => (timers, w, result)
  | Err e => (timers, w, Err e)
  end.

(** A method that does not call a decorated method leaves the monitors
    alone. *)
Definition plain {W A : Type} (method : W → W * Result A)
    : Timers → W → Timers * W * Result A :=
  λ timers w, let '(w', result) := method w in (timers, w', result).

(** The call keeps its timer: it starts at a reading other than 0, and
    the calls that overlap it only start (at readings other than 0); none
    of them comes to its end while this one runs. *)
Definition keepsTimer (call : Call) : Prop :=
  ¬ (startedAt call == 0)%Q
  ∧ Forall (λ op, ∃ now, op = Started now ∧ ¬ (now == 0)%Q) (overlap call).

(** The call loses its timer: the last thing to happen to the monitor
    while it runs is that another call of the method comes to its end. *)
Definition losesTimer (call : Call) : Prop :=
  last (overlap call) = Some Ended.

End Performance.

Module Webhook.

Record WebhookDeliveryConfig := {
  maxRetries : Z;
  retryDelays : list Z;
  timeout : Z;
  signatureHeader : string;
  idHeader : string;
  deliveryIdHeader : string;
  eventTypeHeader : string;
}.

Definition deliveryConfig : WebhookDeliveryConfig := {|
  maxRetries := 3;
  retryDelays := [1000; 5000; 15000];
  timeout := 10000;
  signatureHeader := "x-webhook-signature";
  idHeader := "x-webhook-id";
  deliveryIdHeader := "x-delivery-id";
  eventTypeHeader := "x-event-type";
|}.

(** A row of the [Webhook] table, which is also the [WebhookResponse] the
    repository maps it to (the two bookkeeping dates are left out). *)
Record WebhookResponse := {
  id : string;
  name : string;
  url : string;
  secret : string;
  events : list string;
  headers : option (gmap string string);
  enabled : bool;
  retryCount : Z;
}.

(** A row of the [WebhookDelivery] table as [updateDeliveryStatus] creates
    it (the generated id and dates are left out). *)
Record WebhookDelivery := {
  d_webhookId : string;
  d_eventId : string;
  d_status : string;
  d_response : option string;
  d_error : option string;
  d_retryCount : Z;
}.

Record WebhookDeliveryResult := {
  success : bool;
  statusCode : Z;
  response : option JsValue;
  error : option string;
  deliveryId : string;
  attempt : Z;
}.

(** One [axios.post(url, payload, { timeout, headers })] call. *)
Record HttpRequest := {
  req_url : string;
  req_body : JsValue;
  req_timeout : Z;
  req_headers : gmap string string;
}.

(** What the call does: it resolves with a response, or it rejects
    (network error, timeout, or a status outside 2xx). *)
Inductive HttpOutcome :=
| HttpResponse (status : Z) (data : JsValue)
| HttpFailure (message : string) (status : option Z).

(** The subscribers' side: the outcome of a request sent as the n-th
    attempt of its delivery. *)
Definition Network := HttpRequest → Z → HttpOutcome.

Record World := {
  webhooks : gmap string WebhookResponse;
  deliveries : list WebhookDelivery;
  sent : list HttpRequest;
  slept : list Z;
  uuids : nat;
}.

Definition setEnabled (b : bool) (w : WebhookResponse) : WebhookResponse :=
  {| id := id w; name := name w; url := url w; secret := secret w;
     events := events w; headers := headers w; enabled := b;
     retryCount := retryCount w |}.

(** [result.error || null] *)
Definition orNull (o : option string) : option string :=
  match o with
  | Some s => if bool_decide (s = "") then None else Some s
  | None => None
  end.

Section WithPlatform.
Context {platform : Platform}.

(** The row [prisma.webhookDelivery.create] is given. *)
Definition deliveryRecord (webhookId : string) (result : WebhookDeliveryResult)
    : WebhookDelivery :=
  {| d_webhookId := webhookId;
     d_eventId := deliveryId result;
     d_status := if success result then "success" else "failed";
     d_response := JSON_stringify <$> response result;
     d_error := orNull (error result);
     d_retryCount := attempt result |}.

(** [WebhookRepository.updateDeliveryStatus]: [prisma.webhook.update]
    rejects when no row has the id; then nothing is written. *)
Definition updateDeliveryStatus (webhookId : string)
    (result : WebhookDeliveryResult) (w : World) : World * Result unit :=
  match webhooks w !! webhookId with
  | None => (w, Err (PrismaError "P2025" "Record to update not found."))
  | Some row =>
      ({| webhooks :=
            <[webhookId := setEnabled (success result) row]> (webhooks w);
          deliveries := deliveries w ++ [deliveryRecord webhookId result];
          sent := sent w; slept := slept w; uuids := uuids w |}, Ok tt)
  end.

(** [WebhookRepository.findByEventType] *)
Definition findByEventType (eventType : string) (activeOnly : bool)
    (w : World) : list WebhookResponse :=
  filter (λ wh, Is_true ((negb activeOnly || enabled wh)
                         && bool_decide (eventType ∈ events wh)))
         (snd <$> map_to_list (webhooks w)).

Definition generateSignature (secret payload : string) : string :=
  createHmac_sha256_hex secret payload.

Definition makeRequest (cfg : WebhookDeliveryConfig)
    (webhook : WebhookResponse) (eventType : string) (payload : JsValue)
    (deliveryId signature : string) : HttpRequest :=
  {| req_url := url webhook;
     req_body := payload;
     req_timeout := timeout cfg;
     req_headers :=
       <[eventTypeHeader cfg := eventType]>
         (<[deliveryIdHeader cfg := deliveryId]>
            (<[idHeader cfg := id webhook]>
               (<[signatureHeader cfg := signature]>
                  {[ "Content-Type" := "application/json" ]}))) |}.

(** The request that every attempt of one delivery sends. *)
Definition attemptRequest (cfg : WebhookDeliveryConfig)
    (webhook : WebhookResponse) (eventType : string) (payload : JsValue)
    (deliveryId : string) : HttpRequest :=
  makeRequest cfg webhook eventType payload deliveryId
    (generateSignature (secret webhook) (JSON_stringify payload)).

Definition post (req : HttpRequest) (w : World) : World :=
  {| webhooks := webhooks w; deliveries := deliveries w;
     sent := sent w ++ [req]; slept := slept w; uuids := uuids w |}.

(** [await sleep(ms)] *)
Definition sleep (ms : Z) (w : World) : World :=
  {| webhooks := webhooks w; deliveries := deliveries w;
     sent := sent w; slept := slept w ++ [ms]; uuids := uuids w |}.

Definition drawUUID (w : World) : World * string :=
  ({| webhooks := webhooks w; deliveries := deliveries w;
      sent := sent w; slept := slept w; uuids := S (uuids w) |},
   randomUUID (uuids w)).

(** [(lastError as AxiosError)?.response?.status || 0] *)
Definition responseStatusOr0 (lastError : option Thrown) : Z :=
  match lastError with
  | Some (AxiosError _ (Some s)) => s
  | _ => 0
  end.

(** The end of the [catch] block:
    [if (attempt < maxRetries) await sleep(retryDelays[attempt - 1])]. *)
Definition backoff (cfg : WebhookDeliveryConfig) (attempt : Z) (w : World)
    : World :=
  if attempt <? maxRetries cfg then
    sleep (default 0 (retryDelays cfg !! Z.to_nat (attempt - 1))) w
  else w.

(** The [while (attempt < maxRetries)] loop of [deliverWebhook] followed
    by the code after it.  [remaining] counts the iterations still to
    run, [maxRetries - attempt]. *)
Fixpoint deliverWebhook_loop (cfg : WebhookDeliveryConfig) (net : Network)
    (webhook : WebhookResponse) (eventType : string) (payload : JsValue)
    (deliveryId : string) (remaining : nat) (attempt : Z)
    (lastError : option Thrown) (w : World)
    : World * Result WebhookDeliveryResult :=
  match remaining with
  | S remaining' =>
      let attempt := attempt + 1 in
      let catch (error : Thrown) (w : World) :=
        deliverWebhook_loop cfg net webhook eventType payload deliveryId
          remaining' attempt (Some error) (backoff cfg attempt w) in
      let signature :=
        generateSignature (secret webhook) (JSON_stringify payload) in
      let req :=
        makeRequest cfg webhook eventType payload deliveryId signature in
      let w := post req w in
      match net req attempt with
      | HttpResponse status data =>
          let result :=
            {| success := true; statusCode := status;
               response := Some data; error := None;
               deliveryId := deliveryId; attempt := attempt |} in
          match updateDeliveryStatus (id webhook) result w with
          | (w, Ok _) => (w, Ok result)
          | (w, Err e) => catch e w
          end
      | HttpFailure message status => catch (AxiosError message status) w
      end
  | O =>
      let result :=
        {| success := false;
           statusCode := responseStatusOr0 lastError;
           response := None;
           error := lastError ≫= errorMessage;
           deliveryId := deliveryId; attempt := attempt |} in
      match updateDeliveryStatus (id webhook) result w with
      | (w, Ok _) => (w, Ok result)
      | (w, Err e) => (w, Err e)
      end
  end.

Definition deliverWebhook (cfg : WebhookDeliveryConfig) (net : Network)
    (webhook : WebhookResponse) (eventType : string) (payload : JsValue)
    (w : World) : World * Result WebhookDeliveryResult :=
  let '(w, deliveryId) := drawUUID w in
  deliverWebhook_loop cfg net webhook eventType payload deliveryId
    (Z.to_nat (maxRetries cfg)) 0 None w.

(** [Promise.all] over the deliveries: every delivery runs to its end;
    the promise rejects with a rejection if there is one.  The deliveries
    are independent of one another and are run here in list order. *)
Fixpoint deliverAll (cfg : WebhookDeliveryConfig) (net : Network)
    (hooks : list WebhookResponse) (eventType : string) (payload : JsValue)
    (w : World) : World * Result (list WebhookDeliveryResult) :=
  match hooks with
  | [] => (w, Ok [])
  | webhook :: rest =>
      let '(w, r) := deliverWebhook cfg net webhook eventType payload w in
      let '(w, rs) := deliverAll cfg net rest eventType payload w in
      (w, match r, rs with
          | Ok r, Ok rs => Ok (r :: rs)
          | Err e, _ => Err e
          | _, Err e => Err e
          end)
  end.

Definition triggerWebhooks (cfg : WebhookDeliveryConfig) (net : Network)
    (eventType : string) (payload : JsValue) (w : World)
    : World * Result (list WebhookDeliveryResult) :=
  let hooks := findByEventType eventType true w in
  deliverAll cfg net hooks eventType payload w.

End WithPlatform.

End Webhook.

(** ** Batch ingestion (EventService, validation.utils.ts) *)

Module Events.
Import Performance.

Record CreateEventInput := {
  timestamp : string;
  eventType : string;
  source : string;
  data : JsValue;
  userId : option string;
  sessionId : option string;
  duration : option Z;
  priority : Z;
  status : string;
  tags : list string;
  metadata : option JsValue;
}.

(** An [Event]: the fields it shares with the input, the identity and the
    dates, and the two fields only a failed batch item carries. *)
Record Event := {
  fields : CreateEventInput;
  id : string;
  createdAt : string;
  updatedAt : string;
  error : option string;
  severity : option string;
}.

Definition withTimestamp (ts : string) (e : CreateEventInput) : CreateEventInput :=
  {| timestamp := ts; eventType := eventType e; source := source e;
     data := data e; userId := userId e; sessionId := sessionId e;
     duration := duration e; priority := priority e; status := status e;
     tags := tags e; metadata := metadata e |}.

Definition withStatus (st : string) (e : CreateEventInput) : CreateEventInput :=
  {| timestamp := timestamp e; eventType := eventType e; source := source e;
     data := data e; userId := userId e; sessionId := sessionId e;
     duration := duration e; priority := priority e; status := st;
     tags := tags e; metadata := metadata e |}.

Definition optField {A} (k : string) (f : A → JsValue) (o : option A)
    : list (string * JsValue) :=
  match o with
  | Some a => [(k, f a)]
  | None => []
  end.

(** The event as the value handed to [triggerWebhooks]. *)
Definition eventValue (e : Event) : JsValue :=
  let i := fields e in
  JsObj ([("timestamp", JsStr (timestamp i));
          ("eventType", JsStr (eventType i));
          ("source", JsStr (source i));
          ("data", data i)]
         ++ optField "userId" JsStr (userId i)
         ++ optField "sessionId" JsStr (sessionId i)
         ++ optField "duration" JsNum (duration i)
         ++ [("priority", JsNum (priority i));
             ("status", JsStr (status i));
             ("tags", JsArr (JsStr <$> tags i))]
         ++ optField "metadata" (λ v, v) (metadata i)
         ++ [("id", JsStr (id e));
             ("createdAt", JsStr (createdAt e));
             ("updatedAt", JsStr (updatedAt e))]
         ++ optField "error" JsStr (error e)
         ++ optField "severity" JsStr (severity e)).

(** The collaborators of the service that are not its own code: the
    outcome of the n-th call of [eventRepository.create], and the readings
    of [new Date().toISOString()] taken while the n-th item is handled. *)
Record Env := {
  create : nat → CreateEventInput → Result Event;
  nowISO : nat → nat → string;
}.

Record World := {
  hooks : Webhook.World;
  stored : list Event;
  created : nat;
}.

Definition MAX_BATCH_SIZE : Z := 1000.

(** [CommonValidation.batchSize.parse(size)] with
    [batchSize = z.number().int().min(1).max(MAX_BATCH_SIZE)]. *)
Definition validateBatchSize (size : Z) : Result unit :=
  if size <? 1 then Err (ZodError "too_small")
  else if MAX_BATCH_SIZE <? size then Err (ZodError "too_big")
  else Ok tt.

(** [{ ...event, timestamp: event.timestamp || new Date().toISOString() }] *)
Definition createArgument (env : Env) (n : nat) (event : CreateEventInput)
    : CreateEventInput :=
  withTimestamp
    (if bool_decide (timestamp event = "") then nowISO env n 0
     else timestamp event) event.

(** The placeholder returned for an item whose create rejected. *)
Definition failedEvent (env : Env) (n : nat) (event : CreateEventInput)
    (thrown : Thrown) : Event :=
  {| fields := withStatus "failed" event;
     error := Some (default "Unknown error" (errorMessage thrown));
     id := "";
     createdAt := nowISO env n 1;
     updatedAt := nowISO env n 2;
     severity := Some "error" |}.

(** What the batch reports for the item handled by the n-th create call. *)
Definition itemResult (env : Env) (n : nat) (event : CreateEventInput) : Event :=
  match create env n (createArgument env n event) with
  | Ok ev => ev
  | Err thrown => failedEvent env n event thrown
  end.

(** The results of a run of consecutive create calls, the first of which is
    call number [n]. *)
Fixpoint resultsFrom (env : Env) (n : nat) (items : list CreateEventInput)
    : list Event :=
  match items with
  | [] => []
  | event :: rest => itemResult env n event :: resultsFrom env (S n) rest
  end.

(** The body of [chunk.map(async event => ...)]: a create that resolves
    has stored the event it returns. *)
Definition processItem (env : Env) (event : CreateEventInput) (w : World)
    : World * Event :=
  let n := created w in
  match create env n (createArgument env n event) with
  | Ok ev =>
      ({| hooks := hooks w; stored := stored w ++ [ev]; created := S n |}, ev)
  | Err thrown =>
      ({| hooks := hooks w; stored := stored w; created := S n |},
       failedEvent env n event thrown)
  end.

(** [Promise.all(xs.map(f))]: the calls are started in array order and the
    results are in array order. *)
Fixpoint promiseAllMap {S A B : Type} (f : A → S → S * B) (xs : list A) (s : S)
    : S * list B :=
  match xs with
  | [] => (s, [])
  | x :: rest =>
      let '(s, y) := f x s in
      let '(s, ys) := promiseAllMap f rest s in
      (s, y :: ys)
  end.

(** [xs.slice(i, j)] for [i <= j] *)
Definition slice {A : Type} (i j : nat) (xs : list A) : list A :=
  take (j - i) (drop i xs).

Section Loops.
Local Open Scope nat_scope.

(** [for (let i = 0; i < events.length; i += CHUNK_SIZE)
      chunks.push(events.slice(i, i + CHUNK_SIZE))];
    [None] when the fuel runs out before the loop exits. *)
Fixpoint chunk_loop {A : Type} (fuel : nat) (events : list A)
    (CHUNK_SIZE i : nat) (chunks : list (list A)) : option (list (list A)) :=
  if i <? length events then
    match fuel with
    | O => None
    | S fuel' =>
        chunk_loop fuel' events CHUNK_SIZE (i + CHUNK_SIZE)
          (chunks ++ [slice i (i + CHUNK_SIZE) events])
    end
  else Some chunks.

(** [for (let i = 0; i < chunks.length; i += MAX_CONCURRENT)]: one wave
    of chunks at a time, its results appended in order. *)
Fixpoint wave_loop (fuel : nat) (env : Env)
    (chunks : list (list CreateEventInput)) (MAX_CONCURRENT i : nat)
    (results : list Event) (w : World) : option (World * list Event) :=
  if i <? length chunks then
    match fuel with
    | O => None
    | S fuel' =>
        let '(w, chunkResults) :=
          promiseAllMap (promiseAllMap (processItem env))
            (slice i (i + MAX_CONCURRENT) chunks) w in
        wave_loop fuel' env chunks MAX_CONCURRENT (i + MAX_CONCURRENT)
          (results ++ concat chunkResults) w
    end
  else Some (w, results).
End Loops.

Definition notFailed (e : Event) : bool :=
  negb (bool_decide (status (fields e) = "failed")).

Section WithPlatform.
Context {platform : Platform}.

(** [Promise.all(successfulEvents.map(event =>
      triggerWebhooks('event.created', event).catch(...)))], awaited.
    Every trigger is started at once and reads the subscriber table
    before any delivery has finished; the deliveries then run to their
    end (here in array order) and a rejection is swallowed. *)
Definition triggerAllCaught (cfg : Webhook.WebhookDeliveryConfig)
    (net : Webhook.Network) (events : list Event) (w : World) : World :=
  let subscribers := Webhook.findByEventType "event.created" true (hooks w) in
  let '(h, _) :=
    promiseAllMap
      (λ event, Webhook.deliverAll cfg net subscribers "event.created"
                  (eventValue event))
      events (hooks w) in
  {| hooks := h; stored := stored w; created := created w |}.

(** [createBatchEvents] as it is written.  The size check is made before
    the [try]; nothing inside the [try] rejects, since each item and each
    trigger catches its own errors.  [None] stands for a call that does
    not return. *)
Definition createBatchEvents_body (env : Env)
    (cfg : Webhook.WebhookDeliveryConfig) (net : Webhook.Network)
    (CHUNK_SIZE MAX_CONCURRENT : nat) (events : list CreateEventInput)
    (w : World) : option (World * Result (list Event)) :=
  match validateBatchSize (Z.of_nat (length events)) with
  | Err e => Some (w, Err e)
  | Ok _ =>
      chunks ← chunk_loop (length events) events CHUNK_SIZE 0%nat [];
      '(w, results) ←
        wave_loop (length chunks) env chunks MAX_CONCURRENT 0%nat [] w;
      let successfulEvents := filter (λ e, Is_true (notFailed e)) results in
      let w := triggerAllCaught cfg net successfulEvents w in
      Some (w, Ok results)
  end.

(** A trigger that was started and not awaited. *)
Record Detached := {
  t_eventType : string;
  t_payload : JsValue;
}.

Definition runDetached (cfg : Webhook.WebhookDeliveryConfig)
    (net : Webhook.Network) (t : Detached) (w : World) : World :=
  let '(h, _) :=
    Webhook.triggerWebhooks cfg net (t_eventType t) (t_payload t) (hooks w) in
  {| hooks := h; stored := stored w; created := created w |}.

(** [createEvent] as it is written: the trigger is started and left
    running; the method returns the event without awaiting it. *)
Definition createEvent_body (env : Env) (input : CreateEventInput) (w : World)
    : World * Result Event * list Detached :=
  let n := created w in
  match create env n (createArgument env n input) with
  | Ok event =>
      ({| hooks := hooks w; stored := stored w ++ [event]; created := S n |},
       Ok event,
       if bool_decide (id event = "") then []
       else [{| t_eventType := "event.created";
                t_payload := eventValue event |}])
  | Err (PrismaError code _) =>
      ({| hooks := hooks w; stored := stored w; created := S n |},
       Err (handlePrismaError code), [])
  | Err e =>
      ({| hooks := hooks w; stored := stored w; created := S n |}, Err e, [])
  end.

(** [EventService.createEvent] as callers reach it, under
    [@MonitorPerformance()]: the timer is ended when the original method
    has returned, the trigger still running. *)
Definition createEvent (call : Call) (env : Env) (input : CreateEventInput)
    (timers : Timers) (w : World)
    : Timers * World * Result Event * list Detached :=
  let '(timers, (w, detached), result) :=
    MonitorPerformance "EventService.createEvent" call
      (λ timers '(w, _),
         let '(w, result, detached) := createEvent_body env input w in
         (timers, (w, detached), result))
      timers (w, []) in
  (timers, w, result, detached).

(** [EventService.createBatchEvents], under [@MonitorPerformance()].  The
    original method does not read the monitor; it is run first here, to
    see whether it returns. *)
Definition createBatchEvents (call : Call) (env : Env)
    (cfg : Webhook.WebhookDeliveryConfig) (net : Webhook.Network)
    (CHUNK_SIZE MAX_CONCURRENT : nat) (events : list CreateEventInput)
    (timers : Timers) (w : World)
    : option (Timers * World * Result (list Event)) :=
  match createBatchEvents_body env cfg net CHUNK_SIZE MAX_CONCURRENT
          events w with
  | None => None
  | Some (w', result) =>
      Some (MonitorPerformance "EventService.createBatchEvents" call
              (λ timers _, (timers, w', result)) timers w)
  end.

End WithPlatform.

(** The summary the controller sends with the results. *)
Record Summary := {
  total : nat;
  succeeded : nat;
  failed : nat;
}.

Definition summary (results : list Event) : Summary :=
  let successCount := length (filter (λ e, Is_true (notFailed e)) results) in
  {| total := length results;
     succeeded := successCount;
     failed := (length results - successCount)%nat |}.

(** The events that the creates of a run of items put into the store: the
    n-th call is the first of the run. *)
Fixpoint storedFrom (env : Env) (n : nat) (items : list CreateEventInput)
    : list Event :=
  match items with
  | [] => []
  | item :: rest =>
      match create env n (createArgument env n item) with
      | Ok ev => [ev]
      | Err _ => []
      end ++ storedFrom env (S n) rest
  end.

End Events.

(** ** Rate limiter: maintenance and the in-memory variant
    (rate-limit.service.ts, plugins/rate-limit.ts) *)

Module RateLimitService.
Import RateLimit.

(** [cleanup]: [prisma.rateLimit.deleteMany] with [resetAt: { lt: now }];
    the rows that stay are those with [now <= resetAt]. *)
Definition cleanup (t : Table) (now : Z) : Table :=
  filter (λ kr, now <= resetAt kr.2) t.

(** [getHeaders]; [toString] of an integer is its decimal numeral. *)
Definition getHeaders (cfg : RateLimitConfig) (info : RateLimitInfo)
    : gmap string string :=
  if negb (headers cfg) then ∅
  else
    <["X-RateLimit-Reset" := pretty (reset info)]>
      (<["X-RateLimit-Remaining" := pretty (remaining info)]>
         {[ "X-RateLimit-Limit" := pretty (limit info) ]}).

End RateLimitService.

Module RateLimitPlugin.

(** The plugin's options; a field that is not given is [None]. *)
Record Options := {
  statusCode : option Z;
  windowMs : option Z;
  max : option Z;
  message : option string;
}.

(** [config.x || d] on a number: both a missing value and 0 give [d]. *)
Definition orNumber (o : option Z) (d : Z) : Z :=
  match o with
  | Some v => if v =? 0 then d else v
  | None => d
  end.

(** [config.message || d] *)
Definition orString (o : option string) (d : string) : string :=
  match o with
  | Some v => if bool_decide (v = "") then d else v
  | None => d
  end.

Record Hit := {
  count : Z;
  resetTime : Z;
}.

(** What the hook sends when it blocks the request. *)
Record Rejection := {
  r_status : Z;
  r_error : string;
}.

(** The [onRequest] hook, on the [hits] map: [None] lets the request
    through. *)
Definition onRequest (config : Options) (hits : gmap string Hit)
    (ip : string) (now : Z) : gmap string Hit * option Rejection :=
  let windowMs := orNumber (windowMs config) (60 * 1000) in
  let max := orNumber (max config) 100 in
  let statusCode := orNumber (statusCode config) 429 in
  let message :=
    orString (message config) "Too many requests, please try again later." in
  match hits !! ip with
  | None => (<[ip := {| count := 1; resetTime := now + windowMs |}]> hits, None)
  | Some hit =>
      if resetTime hit <? now then
        (<[ip := {| count := 1; resetTime := now + windowMs |}]> hits, None)
      else
        let hit' := {| count := count hit + 1; resetTime := resetTime hit |} in
        (<[ip := hit']> hits,
         if max <? count hit' then
           Some {| r_status := statusCode; r_error := message |}
         else None)
  end.

End RateLimitPlugin.

(** The plugin's [hits] entry for an address mirrors the service's row for
    a (key, endpoint). *)
Definition mirrors (t : RateLimit.Table) (hits : gmap string RateLimitPlugin.Hit)
    (key endpoint ip : string) : Prop :=
  hits !! ip
  = (λ r, {| RateLimitPlugin.count := RateLimit.count r;
             RateLimitPlugin.resetTime := RateLimit.resetAt r |})
    <$> t !! (key, endpoint).

(** ** Date-range validation and the service entry points of the planner
    (validation.utils.ts, event.schema.ts, EventService, TimeSeriesAggregator) *)

Module Validation.

Definition MAX_DATE_RANGE_DAYS : Z := 90.

(** [validateDateRange] of validation.utils.ts, on two Dates ([None] is
    Invalid Date): [z.date()] rejects an Invalid Date with an issue of code
    "invalid_date"; on valid Dates the two refinements run, and a failed
    refinement is an issue of code "custom".  [diffInDays <= 90] on the
    quotient is [diff <= 90 days] on the difference. *)
Definition validateDateRange (startTime endTime : option Z) : Result unit :=
  match startTime, endTime with
  | Some startTime, Some endTime =>
      if negb (startTime <? endTime) then Err (ZodError "custom")
      else if negb (endTime - startTime
                    <=? MAX_DATE_RANGE_DAYS * TimeSeries.DAY)
      then Err (ZodError "custom")
      else Ok tt
  | _, _ => Err (ZodError "invalid_date")
  end.

(** [a < b] and [a > b] on numbers that may be NaN ([None]): false as soon
    as one of them is. *)
Definition lessThan (a b : option Z) : bool :=
  match a, b with
  | Some a, Some b => a <? b
  | _, _ => false
  end.

(** [endTime.getTime() - startTime.getTime()] *)
Definition difference (endTime startTime : option Z) : option Z :=
  match endTime, startTime with
  | Some e, Some s => Some (e - s)
  | _, _ => None
  end.

(** [validateDateRange] of event.schema.ts, on two Dates. *)
Definition schema_validateDateRange (startTime endTime : option Z)
    : Result unit :=
  if lessThan endTime startTime then
    Err (JsError "End time must be after start time")
  else if lessThan (Some (90 * 24 * 60 * 60 * 1000))
            (difference endTime startTime) then
    Err (JsError "Date range cannot exceed 90 days")
  else Ok tt.

(** [validateArrayLength] *)
Definition validateArrayLength {A : Type} (array : list A) (maxLength : Z)
    : Result unit :=
  if maxLength <? Z.of_nat (length array) then
    Err (AppError VALIDATION
           ("Array length cannot exceed " +:+ pretty maxLength +:+ " items") 400)
  else Ok tt.

End Validation.

Module Analytics.
Import TimeSeries.

(** [EventService.aggregateEvents]: [validateDateRange] runs before the
    [try]; inside it the aggregator's errors, which are no Prisma errors,
    are rethrown as they are.  The query carries the time values of two
    valid Dates.  The method stands under [@MonitorPerformance] as well;
    its body awaits the aggregator alone, which does no I/O, so no other
    call of the method runs between its [startTimer] and its [endTimer],
    and the wrapper, which then hands the body's outcome through
    ([Performance.MonitorPerformance_plain_keeps]), is left out here. *)
Definition aggregateEvents (query : AggregationQuery) : Result Aggregation :=
  match Validation.validateDateRange (Some (startTime query))
          (Some (endTime query)) with
  | Err e => Err e
  | Ok _ => aggregate query
  end.

(** The longest range the planner's table allows for an interval. *)
Definition maxSpan (i : TimeInterval) : Z :=
  match getConfig (toString i) with
  | Ok config => maxTimeRange config
  | Err _ => 0
  end.

(** The order of the intervals by granularity, finest first. *)
Definition rank (i : TimeInterval) : nat :=
  match i with
  | I1m => 0 | I5m => 1 | I15m => 2 | I1h => 3 | I1d => 4
  end.

End Analytics.

(** ** Webhook management (WebhookService, WebhookRepository) *)

Module WebhookManagement.
Import Webhook Performance.


(** [UpdateWebhookInput]: every field is optional. *)
Record UpdateWebhookInput := {
  u_name : option string;
  u_url : option string;
  u_secret : option string;
  u_events : option (list string);
  u_headers : option (gmap string string);
  u_enabled : option bool;
  u_retryCount : option Z;
}.

Definition setWebhooks (t : gmap string WebhookResponse) (w : World) : World :=
  {| webhooks := t; deliveries := deliveries w; sent := sent w;
     slept := slept w; uuids := uuids w |}.


(** [WebhookRepository.update]: a field that is not given keeps its value;
    [prisma.webhook.update] rejects when no row has the id. *)
Definition repository_update (id' : string) (data : UpdateWebhookInput)
    (w : World) : World * Result WebhookResponse :=
  match webhooks w !! id' with
  | None => (w, Err (PrismaError "P2025" "Record to update not found."))
  | Some row =>
      let row' :=
        {| id := id row;
           name := default (name row) (u_name data);
           url := default (url row) (u_url data);
           secret := default (secret row) (u_secret data);
           events := default (events row) (u_events data);
           headers := match u_headers data with
                      | Some h => Some h
                      | None => headers row
                      end;
           enabled := default (enabled row) (u_enabled data);
           retryCount := default (retryCount row) (u_retryCount data) |} in
      (setWebhooks (<[id' := row']> (webhooks w)) w, Ok row')
  end.

(** [WebhookRepository.delete] *)
Definition repository_delete (id' : string) (w : World) : World * Result unit :=
  match webhooks w !! id' with
  | None => (w, Err (PrismaError "P2025" "Record to delete does not exist."))
  | Some _ => (setWebhooks (delete id' (webhooks w)) w, Ok tt)
  end.

(** [WebhookRepository.findById] *)
Definition findById (id' : string) (w : World) : option WebhookResponse :=
  webhooks w !! id'.

(** The [catch] of the service methods: a Prisma error is mapped by
    [handlePrismaError], anything else is rethrown. *)
Definition rethrow (e : Thrown) : Thrown :=
  match e with
  | PrismaError code _ => handlePrismaError code
  | _ => e
  end.


Definition updateWebhook_body (id' : string) (input : UpdateWebhookInput)
    (w : World) : World * Result WebhookResponse :=
  match repository_update id' input w with
  | (w', Ok r) => (w', Ok r)
  | (w', Err e) => (w', Err (rethrow e))
  end.

(** [new WebhookNotFoundError(id)] *)
Definition WebhookNotFoundError (id' : string) : Thrown :=
  AppError NOT_FOUND ("Webhook with ID " +:+ id' +:+ " not found") 404.

Definition getWebhook_body (id' : string) (w : World)
    : Result WebhookResponse :=
  match findById id' w with
  | Some webhook => Ok webhook
  | None => Err (WebhookNotFoundError id')
  end.


Definition updateWebhook (call : Call) (id' : string)
    (input : UpdateWebhookInput) (timers : Timers) (w : World)
    : Timers * World * Result WebhookResponse :=
  MonitorPerformance "WebhookService.updateWebhook" call
    (plain (updateWebhook_body id' input)) timers w.

Definition getWebhook (call : Call) (id' : string) (timers : Timers)
    (w : World) : Timers * World * Result WebhookResponse :=
  MonitorPerformance "WebhookService.getWebhook" call
    (plain (λ w, (w, getWebhook_body id' w))) timers w.

(** [deleteWebhook(id, _userId)] as it is written: the lookup, a call of
    the decorated [getWebhook] made under [lookup], comes before the
    [try]. *)
Definition deleteWebhook_body (lookup : Call) (id' _userId : string)
    (timers : Timers) (w : World) : Timers * World * Result unit :=
  match getWebhook lookup id' timers w with
  | (timers, w, Err e) => (timers, w, Err e)
  | (timers, w, Ok _) =>
      match repository_delete id' w with
      | (w', Ok r) => (timers, w', Ok r)
      | (w', Err e) => (timers, w', Err (rethrow e))
      end
  end.

(** [WebhookService.deleteWebhook], under [@MonitorPerformance()]. *)
Definition deleteWebhook (call lookup : Call) (id' _userId : string)
    (timers : Timers) (w : World) : Timers * World * Result unit :=
  MonitorPerformance "WebhookService.deleteWebhook" call
    (deleteWebhook_body lookup id' _userId) timers w.

Record ListWebhooksQuery := {
  page : Z;
  pageSize : Z;
  q_enabled : option bool;
}.

Record Pagination := {
  p_total : Z;
  p_page : Z;
  p_pageSize : Z;
  p_totalPages : Z;
}.

(** The rows the [where] clause of [findMany] keeps. *)
Definition matching (query : ListWebhooksQuery) (rows : list WebhookResponse)
    : list WebhookResponse :=
  match q_enabled query with
  | Some b => filter (λ r, enabled r = b) rows
  | None => rows
  end.

(** [WebhookRepository.findMany]; [ordered] is the table in the order of
    the query, newest first. *)
Definition findMany (ordered : list WebhookResponse) (query : ListWebhooksQuery)
    : list WebhookResponse * Z :=
  let rows := matching query ordered in
  (take (Z.to_nat (pageSize query))
     (drop (Z.to_nat ((page query - 1) * pageSize query)) rows),
   Z.of_nat (length rows)).

(** [Math.ceil(a / b)] on integers, for [b > 0] *)
Definition Math_ceil_div (a b : Z) : Z := - ((- a) / b).

(** [WebhookService.listWebhooks] *)
Definition listWebhooks (ordered : list WebhookResponse)
    (query : ListWebhooksQuery) : list WebhookResponse * Pagination :=
  let '(data, total) := findMany ordered query in
  (data, {| p_total := total;
            p_page := page query;
            p_pageSize := pageSize query;
            p_totalPages := Math_ceil_div total (pageSize query) |}).

(** The update that turns a subscription back on. *)
Definition enableOnly : UpdateWebhookInput :=
  {| u_name := None; u_url := None; u_secret := None; u_events := None;
     u_headers := None; u_enabled := Some true; u_retryCount := None |}.

End WebhookManagement.

(** ** Event controller and error responses
    (event.controller.ts, error.utils.ts) *)

Module EventController.
Import Events Performance.

(** The value of an [ErrorType] member. *)
Definition errorTypeValue (t : ErrorType) : string :=
  match t with
  | VALIDATION => "VALIDATION_ERROR"
  | NOT_FOUND => "NOT_FOUND"
  | UNAUTHORIZED => "UNAUTHORIZED"
  | FORBIDDEN => "FORBIDDEN"
  | RATE_LIMIT => "RATE_LIMIT"
  | DATABASE => "DATABASE_ERROR"
  | EXTERNAL_SERVICE => "EXTERNAL_SERVICE_ERROR"
  | INTERNAL => "INTERNAL_ERROR"
  | CONFLICT => "CONFLICT_ERROR"
  | BAD_REQUEST => "BAD_REQUEST_ERROR"
  end.

Record ErrorResponse := {
  er_statusCode : Z;
  er_error : string;
  er_message : string;
}.

(** [formatErrorResponse] on the errors of the model, none of which has a
    [statusCode] property of its own.  A thrown value that is no [Error]
    is outside the function's parameter type and is not modelled ([None]). *)
Definition formatErrorResponse (error : Thrown) : option ErrorResponse :=
  match error with
  | AppError type message statusCode =>
      Some {| er_statusCode := statusCode;
              er_error := errorTypeValue type;
              er_message := message |}
  | NonError => None
  | _ =>
      Some {| er_statusCode := 500;
              er_error := errorTypeValue INTERNAL;
              er_message := "An unexpected error occurred" |}
  end.

Inductive Body :=
| EventBody (event : Event)
| BatchBody (results : list Event) (summary : Summary)
| ErrorBody (response : ErrorResponse).

Record Reply := {
  status : Z;
  body : Body;
}.

(** The [catch] of the handlers:
    [reply.status(err instanceof AppError ? err.statusCode : 500)
          .send(formatErrorResponse(err))]. *)
Definition errorReply (err : Thrown) : option Reply :=
  response ← formatErrorResponse err;
  Some {| status := match err with
                    | AppError _ _ statusCode => statusCode
                    | _ => 500
                    end;
          body := ErrorBody response |}.

Section WithPlatform.
Context {platform : Platform}.

(** [EventController.createSingleEvent]; the two zod parsers of [EventDto]
    are parameters, and [call] is the call it makes of
    [EventService.createEvent]. *)
Definition createSingleEvent
    (parseCreate : JsValue → Result CreateEventInput)
    (parseResponse : Event → Result Event) (call : Call)
    (env : Env) (requestBody : JsValue) (timers : Timers) (w : World)
    : Timers * World * option Reply * list Detached :=
  match parseCreate requestBody with
  | Err e => (timers, w, errorReply e, [])
  | Ok dto =>
      match createEvent call env dto timers w with
      | (timers', w', Ok event, detached) =>
          match parseResponse event with
          | Ok response =>
              (timers', w',
               Some {| status := 201; body := EventBody response |},
               detached)
          | Err e => (timers', w', errorReply e, detached)
          end
      | (timers', w', Err e, detached) => (timers', w', errorReply e, detached)
      end
  end.

(** [EventController.createBatchEvents]; [call] is the call it makes of
    [EventService.createBatchEvents]. *)
Definition createBatchEvents
    (parseBatch : JsValue → Result (list CreateEventInput)) (call : Call)
    (env : Env) (cfg : Webhook.WebhookDeliveryConfig) (net : Webhook.Network)
    (CHUNK_SIZE MAX_CONCURRENT : nat) (requestBody : JsValue)
    (timers : Timers) (w : World)
    : option (Timers * World * option Reply) :=
  match parseBatch requestBody with
  | Err e => Some (timers, w, errorReply e)
  | Ok dto =>
      match Events.createBatchEvents call env cfg net CHUNK_SIZE
              MAX_CONCURRENT dto timers w with
      | None => None
      | Some (timers', w', Ok results) =>
          Some (timers', w',
                Some {| status := 201;
                        body := BatchBody results (summary results) |})
      | Some (timers', w', Err e) => Some (timers', w', errorReply e)
      end
  end.

End WithPlatform.

End EventController.

(** ** Scenarios

    Concrete platforms, subscribers and repositories on which the model is
    run. *)

(** A platform to run scenarios on: the serialisation and the digest are
    stand-ins, the identifiers are numbered. *)
Definition scenarioPlatform : Platform := {|
  JSON_stringify := λ _, "{}";
  createHmac_sha256_hex := λ secret payload, secret +:+ ":" +:+ payload;
  randomUUID := λ n, "delivery-" +:+ pretty n;
|}.

Definition scenarioWebhook : Webhook.WebhookResponse := {|
  Webhook.id := "123";
  Webhook.name := "Test Webhook";
  Webhook.url := "https://example.com/webhook";
  Webhook.secret := "webhook-secret-123456";
  Webhook.events := ["event.created"];
  Webhook.headers := None;
  Webhook.enabled := true;
  Webhook.retryCount := 3;
|}.

Definition scenarioHooks : Webhook.World := {|
  Webhook.webhooks := {[ "123" := scenarioWebhook ]};
  Webhook.deliveries := [];
  Webhook.sent := [];
  Webhook.slept := [];
  Webhook.uuids := 0;
|}.

(** A subscriber that fails the first two attempts and answers the third. *)
Definition netThirdTime : Webhook.Network :=
  λ _ attempt,
    if attempt <? 3 then Webhook.HttpFailure "Failed to deliver" (Some 503)
    else Webhook.HttpResponse 200 (JsObj [("success", JsBool true)]).

(** A subscriber that is down. *)
Definition netDown : Webhook.Network :=
  λ _ _, Webhook.HttpFailure "Failed to deliver" None.

Definition scenarioEvent (eventType : string) : Events.CreateEventInput := {|
  Events.timestamp := "2023-01-01T00:00:00Z";
  Events.eventType := eventType;
  Events.source := "src";
  Events.data := JsObj [];
  Events.userId := None;
  Events.sessionId := None;
  Events.duration := None;
  Events.priority := 1;
  Events.status := "pending";
  Events.tags := [];
  Events.metadata := None;
|}.

Definition storedEvent (n : nat) (input : Events.CreateEventInput)
    : Events.Event := {|
  Events.fields := input;
  Events.id := "event-" +:+ pretty n;
  Events.createdAt := "2023-01-01T00:00:01Z";
  Events.updatedAt := "2023-01-01T00:00:01Z";
  Events.error := None;
  Events.severity := None;
|}.

(** A repository on which every create succeeds. *)
Definition envHealthy : Events.Env := {|
  Events.create := λ n input, Ok (storedEvent n input);
  Events.nowISO := λ _ _, "2023-01-01T00:00:02Z";
|}.

(** The same repository, except that its second create call rejects. *)
Definition envSecondFails : Events.Env := {|
  Events.create := λ n input,
    if (n =? 1)%nat then Err (JsError "fail") else Ok (storedEvent n input);
  Events.nowISO := λ _ _, "2023-01-01T00:00:02Z";
|}.

Definition scenarioWorld : Events.World := {|
  Events.hooks := scenarioHooks;
  Events.stored := [];
  Events.created := 0;
|}.

Definition scenarioBatch : list Events.CreateEventInput :=
  [scenarioEvent "a"; scenarioEvent "b"; scenarioEvent "c"].

(** A second subscriber of "event.created", and a third that is switched
    off. *)
Definition scenarioWebhook2 : Webhook.WebhookResponse := {|
  Webhook.id := "456";
  Webhook.name := "Second Webhook";
  Webhook.url := "https://example.org/hook";
  Webhook.secret := "another-secret-654321";
  Webhook.events := ["event.created"; "event.updated"];
  Webhook.headers := None;
  Webhook.enabled := true;
  Webhook.retryCount := 3;
|}.

Definition scenarioWebhook3 : Webhook.WebhookResponse := {|
  Webhook.id := "789";
  Webhook.name := "Disabled Webhook";
  Webhook.url := "https://example.net/off";
  Webhook.secret := "disabled-secret-000000";
  Webhook.events := ["event.created"];
  Webhook.headers := None;
  Webhook.enabled := false;
  Webhook.retryCount := 3;
|}.

Definition scenarioThreeHooks : Webhook.World := {|
  Webhook.webhooks := {[ "123" := scenarioWebhook;
                         "456" := scenarioWebhook2;
                         "789" := scenarioWebhook3 ]};
  Webhook.deliveries := [];
  Webhook.sent := [];
  Webhook.slept := [];
  Webhook.uuids := 0;
|}.

(** A call that no other call of its method overlaps. *)
Definition loneCall : Performance.Call :=
  {| Performance.startedAt := 1500; Performance.overlap := [] |}.

(** A call during which another call of the method, started before it,
    comes to its end. *)
Definition overlappedCall : Performance.Call :=
  {| Performance.startedAt := 1500;
     Performance.overlap := [Performance.Ended] |}.

(** A repository on which every create rejects. *)
Definition envAllFail : Events.Env := {|
  Events.create := λ _ _, Err (JsError "connection lost");
  Events.nowISO := λ _ _, "2023-01-01T00:00:02Z";
|}.

(** A repository that holds the event already: the unique key rejects. *)
Definition envDuplicate : Events.Env := {|
  Events.create := λ _ _,
    Err (PrismaError "P2002" "Unique constraint failed");
  Events.nowISO := λ _ _, "2023-01-01T00:00:02Z";
|}.

(** A subscriber table with no rows. *)
Definition scenarioNoHooks : Webhook.World := {|
  Webhook.webhooks := ∅;
  Webhook.deliveries := [];
  Webhook.sent := [];
  Webhook.slept := [];
  Webhook.uuids := 0;
|}.


Definition scenarioListQuery : WebhookManagement.ListWebhooksQuery := {|
  WebhookManagement.page := 1;
  WebhookManagement.pageSize := 10;
  WebhookManagement.q_enabled := Some true;
|}.

(** One row of the rate-limit table, its window closing at 100 ms. *)
Definition scenarioTable : RateLimit.Table :=
  {[ ("client", "/events") := {| RateLimit.count := 5;
                                 RateLimit.resetAt := 100 |} ]}.

Definition scenarioOptions : RateLimitPlugin.Options := {|
  RateLimitPlugin.statusCode := None;
  RateLimitPlugin.windowMs := Some 60000;
  RateLimitPlugin.max := Some 100;
  RateLimitPlugin.message := None;
|}.

(** * Properties *)

(** ** Rate limiter *)

Section RateLimitProperties.
Import RateLimit.

Lemma getOrCreateRateLimit_fresh t key endpoint now resetAt' :
  t !! (key, endpoint) = None →
  getOrCreateRateLimit t key endpoint now resetAt'
  = (<[(key, endpoint) := {| count := 1; resetAt := resetAt' |}]> t,
     {| count := 1; resetAt := resetAt' |}).
Proof. intros H. unfold getOrCreateRateLimit. by rewrite H. Qed.

Lemma getOrCreateRateLimit_expired t key endpoint now resetAt' r :
  t !! (key, endpoint) = Some r → resetAt r < now →
  getOrCreateRateLimit t key endpoint now resetAt'
  = (<[(key, endpoint) := {| count := 1; resetAt := resetAt' |}]> t,
     {| count := 1; resetAt := resetAt' |}).
Proof.
  intros H Hlt. unfold getOrCreateRateLimit. rewrite H.
  by destruct (Z.ltb_spec (resetAt r) now); [|lia].
Qed.

Lemma getOrCreateRateLimit_open t key endpoint now resetAt' r :
  t !! (key, endpoint) = Some r → now <= resetAt r →
  getOrCreateRateLimit t key endpoint now resetAt'
  = (<[(key, endpoint) := {| count := count r + 1; resetAt := resetAt r |}]> t,
     {| count := count r + 1; resetAt := resetAt r |}).
Proof.
  intros H Hle. unfold getOrCreateRateLimit. rewrite H.
  by destruct (Z.ltb_spec (resetAt r) now); [lia|].
Qed.

(** A configuration that passed [validateAndMergeConfig] with a whole
    number for its maximum allows at least one request per window. *)
Lemma validateAndMergeConfig_max config merged (m : Z) :
  validateAndMergeConfig config = Ok merged →
  m_max merged = Some (Finite (inject_Z m)) → 1 <= m.
Proof.
  unfold validateAndMergeConfig.
  destruct (nonPositive (read (windowMs' config))); [done|].
  destruct (nonPositive (read (max' config))) eqn:Hmax; [done|].
  intros [= <-]. simpl.
  destruct (max' config) as [|[n|]]; simpl in *; intros [= E].
  - simpl in E. lia.
  - subst n. simpl in Hmax.
    destruct (Qle_bool (inject_Z m) 0) eqn:Hle; [done|].
    destruct (Z.le_gt_cases m 0) as [Hm|Hm]; [|lia].
    rewrite Zle_Qle in Hm. apply Qle_bool_iff in Hm.
    change (Qle_bool (inject_Z m) 0 = true) in Hm. congruence.
Qed.

Lemma remaining_nonneg cfg r resetAt' :
  0 <= remaining (limitInfo (calculateLimitInfo cfg r resetAt')).
Proof. simpl. lia. Qed.

(** Within an open window whose row counts [c] requests, the i-th further
    request (from 0) is judged on the count [c + i + 1]. *)
Lemma requests_open_window cfg key endpoint times :
  ∀ t r, t !! (key, endpoint) = Some r →
    Forall (λ now, now <= resetAt r) times →
    ∀ i v, (requests cfg t key endpoint times).2 !! i = Some v →
      isLimited v = (max cfg <? count r + Z.of_nat i + 1)
      ∧ remaining (limitInfo v)
        = Z.max 0 (max cfg - (count r + Z.of_nat i + 1)).
Proof.
  induction times as [|now rest IH]; intros t r Hr Hall i v Hv.
  - done.
  - inversion Hall as [|? ? Hnow Hrest]; subst.
    simpl in Hv. unfold checkRateLimit in Hv.
    rewrite (getOrCreateRateLimit_open _ _ _ _ _ r Hr Hnow) in Hv.
    destruct (requests cfg _ key endpoint rest) as [t2 vs] eqn:Hreq.
    destruct i as [|i]; simpl in Hv.
    + inversion Hv; subst; simpl.
      rewrite Z.add_0_r. done.
    + specialize (IH (<[(key, endpoint) :=
                          {| count := count r + 1; resetAt := resetAt r |}]> t)
                    {| count := count r + 1; resetAt := resetAt r |}).
      rewrite Hreq in IH. simpl in IH.
      destruct (IH (lookup_insert_eq _ _ _) Hrest i v Hv) as [H1 H2].
      rewrite H1, H2.
      replace (count r + 1 + Z.of_nat i + 1)
        with (count r + Z.of_nat (S i) + 1) by lia.
      done.
Qed.

(** C1, as the code has it.  For every valid configuration ([max >= 1]),
    table, key, endpoint and current time, [checkRateLimit] follows the
    fixed-window algorithm: rows of other keys are untouched; if the row is
    absent or its window has passed ([windowResetAt < now]) the row becomes
    count 1 with [windowResetAt = now + windowMs] and the request is allowed
    with [remaining = max - 1]; otherwise (the window is still open,
    [now <= windowResetAt]) the count is incremented, the window end is
    kept, and the request is allowed iff the incremented count is at most
    [max], the rejected request being counted too; [remaining] is
    [max(0, max - count)] and is never negative. *)
Theorem checkRateLimit_fixed_window (cfg : RateLimitConfig) (t : Table)
    (key endpoint : string) (now : Z) :
  1 <= max cfg →
  let result := checkRateLimit cfg t key endpoint now in
  let t' := result.1 in
  let v := result.2 in
  (∀ k, k ≠ (key, endpoint) → t' !! k = t !! k)
  ∧ ((t !! (key, endpoint) = None
      ∨ ∃ r, t !! (key, endpoint) = Some r ∧ resetAt r < now) →
     t' !! (key, endpoint)
       = Some {| count := 1; resetAt := now + windowMs cfg |}
     ∧ allowed v = true
     ∧ remaining (limitInfo v) = max cfg - 1
     ∧ reset (limitInfo v) = (now + windowMs cfg) / 1000)
  ∧ (∀ r, t !! (key, endpoint) = Some r → now <= resetAt r →
     t' !! (key, endpoint)
       = Some {| count := count r + 1; resetAt := resetAt r |}
     ∧ (allowed v = true ↔ count r + 1 <= max cfg)
     ∧ remaining (limitInfo v) = Z.max 0 (max cfg - (count r + 1))
     ∧ reset (limitInfo v) = resetAt r / 1000)
  ∧ limit (limitInfo v) = max cfg
  ∧ 0 <= remaining (limitInfo v).
Proof.
  intros Hmax result t' v.
  split; [|split; [|split; [|split]]].
  - intros k Hk. unfold t', result, checkRateLimit, getOrCreateRateLimit.
    destruct (t !! (key, endpoint)) as [r|]; simpl;
      [destruct (resetAt r <? now); simpl|]; by rewrite lookup_insert_ne.
  - intros Hstart.
    assert (E : getOrCreateRateLimit t key endpoint now (now + windowMs cfg)
                = (<[(key, endpoint) := {| count := 1; resetAt := now + windowMs cfg |}]> t,
                   {| count := 1; resetAt := now + windowMs cfg |})).
    { destruct Hstart as [Hnone|(r & Hr & Hlt)].
      - by apply getOrCreateRateLimit_fresh.
      - by eapply getOrCreateRateLimit_expired. }
    unfold v, t', result, checkRateLimit. rewrite E. simpl.
    split; [apply lookup_insert_eq|]. unfold allowed. simpl.
    split; [|split; [lia|done]].
    destruct (Z.ltb_spec (max cfg) 1); [lia|done].
  - intros r Hr Hopen.
    unfold v, t', result, checkRateLimit.
    rewrite (getOrCreateRateLimit_open _ _ _ _ _ r Hr Hopen). simpl.
    split; [apply lookup_insert_eq|]. unfold allowed. simpl.
    split; [|done].
    destruct (Z.ltb_spec (max cfg) (count r + 1)); simpl; split; (done || lia).
  - unfold v, result, checkRateLimit.
    by destruct (getOrCreateRateLimit _ _ _ _ _).
  - unfold v, result, checkRateLimit.
    destruct (getOrCreateRateLimit _ _ _ _ _). apply remaining_nonneg.
Qed.

(** The 101st request of a window that is still open, under the default
    limit of 100: it is counted and reported with nothing remaining. *)
Lemma checkRateLimit_fixed_window_witness :
  let t : Table := {[ ("user123", "api:events") := {| count := 100; resetAt := 60000 |} ]} in
  1 <= max DEFAULT_CONFIG
  ∧ (checkRateLimit DEFAULT_CONFIG t "user123" "api:events" 59999).1
      !! ("user123", "api:events")
    = Some {| count := 101; resetAt := 60000 |}
  ∧ remaining (limitInfo (checkRateLimit DEFAULT_CONFIG t "user123" "api:events" 59999).2) = 0.
Proof.
  intros t.
  assert (Hmax : 1 <= max DEFAULT_CONFIG) by (simpl; lia).
  split; [exact Hmax|].
  destruct (checkRateLimit_fixed_window DEFAULT_CONFIG t "user123" "api:events"
              59999 Hmax) as (_ & _ & Hopen & _).
  destruct (Hopen {| count := 100; resetAt := 60000 |}) as (Hrow & _ & Hrem & _).
  - reflexivity.
  - simpl. lia.
  - split; [exact Hrow|]. rewrite Hrem. reflexivity.
Defined.

(** C1 as the specification words it resets the window as soon as
    [now >= windowResetAt].  At [now = windowResetAt] the code still counts
    the request in the old window: the row is incremented, not reset. *)
Lemma checkRateLimit_boundary_counterexample :
  let t : Table := {[ ("user123", "api:events") := {| count := 5; resetAt := 60000 |} ]} in
  let now := 60000 in
  (∃ r, t !! ("user123", "api:events") = Some r ∧ now >= resetAt r)
  ∧ (checkRateLimit DEFAULT_CONFIG t "user123" "api:events" now).1
      !! ("user123", "api:events")
    = Some {| count := 6; resetAt := 60000 |}
  ∧ (checkRateLimit DEFAULT_CONFIG t "user123" "api:events" now).1
      !! ("user123", "api:events")
    ≠ Some {| count := 1; resetAt := now + windowMs DEFAULT_CONFIG |}.
Proof.
  intros t now. split; [|split].
  - exists {| count := 5; resetAt := 60000 |}. split; [reflexivity|]. simpl. lia.
  - reflexivity.
  - intros H. vm_compute in H. discriminate H.
Qed.

(** Within one window that starts with a fresh row, the n-th request is
    rejected exactly when [n > max], and reports [max(0, max - n)]
    remaining: after [max] allowed requests the next one is rejected with 0
    remaining. *)
Lemma requests_one_window (cfg : RateLimitConfig) (t : Table)
    (key endpoint : string) (now : Z) (rest : list Z) (i : nat) (v : Verdict) :
  t !! (key, endpoint) = None →
  Forall (λ x, x <= now + windowMs cfg) rest →
  (requests cfg t key endpoint (now :: rest)).2 !! i = Some v →
  isLimited v = (max cfg <? Z.of_nat i + 1)
  ∧ remaining (limitInfo v) = Z.max 0 (max cfg - (Z.of_nat i + 1)).
Proof.
  intros Hnone Hall Hv. simpl in Hv. unfold checkRateLimit in Hv.
  rewrite (getOrCreateRateLimit_fresh _ _ _ _ _ Hnone) in Hv.
  destruct (requests cfg _ key endpoint rest) as [t2 vs] eqn:Hreq.
  destruct i as [|i]; simpl in Hv.
  - inversion Hv; subst. done.
  - pose proof (requests_open_window cfg key endpoint rest
                  (<[(key, endpoint) := {| count := 1; resetAt := now + windowMs cfg |}]> t)
                  {| count := 1; resetAt := now + windowMs cfg |}
                  (lookup_insert_eq _ _ _) Hall i v) as H.
    rewrite Hreq in H. destruct (H Hv) as [H1 H2]. simpl in H1, H2.
    rewrite H1, H2.
    replace (1 + Z.of_nat i + 1) with (Z.of_nat (S i) + 1) by lia. done.
Qed.

End RateLimitProperties.

(** ** Aggregation planner *)

Section TimeSeriesProperties.
Import TimeSeries.

Lemma getConfig_supported (i : TimeInterval) :
  ∃ config, getConfig (toString i) = Ok config ∧ 0 < maxTimeRange config.
Proof. destruct i; eexists; (split; [vm_compute; reflexivity|done]). Qed.

Lemma tiles_le (bs : list Span) : ∀ lo hi, tiles bs lo hi → lo <= hi.
Proof.
  induction bs as [|b rest IH]; simpl; intros lo hi H.
  - lia.
  - destruct H as (Hs & Hlt & Hrest). apply IH in Hrest. lia.
Qed.

Lemma tiles_app (bs : list Span) : ∀ lo mid hi b,
  tiles bs lo mid → s_start b = mid → mid < s_end b → s_end b = hi →
  tiles (bs ++ [b]) lo hi.
Proof.
  induction bs as [|c rest IH]; simpl; intros lo mid hi b H Hs Hlt He.
  - subst. done.
  - destruct H as (H1 & H2 & H3). eauto.
Qed.

Lemma tiles_cover (bs : list Span) : ∀ lo hi, tiles bs lo hi →
  ∀ t, lo <= t < hi ↔ ∃ b, b ∈ bs ∧ inBucket t b.
Proof.
  induction bs as [|b rest IH]; simpl; intros lo hi H t.
  - split; [lia|]. intros (b & Hb & _). by apply not_elem_of_nil in Hb.
  - destruct H as (Hs & Hlt & Hrest).
    pose proof (tiles_le _ _ _ Hrest) as Hle.
    specialize (IH _ _ Hrest t). split.
    + intros Ht. destruct (Z.lt_ge_cases t (s_end b)) as [Hin|Hout].
      * exists b. split; [apply list_elem_of_here|]. unfold inBucket. lia.
      * destruct IH as [IH _]. destruct IH as (c & Hc & Hin); [lia|].
        exists c. split; [by apply list_elem_of_further|done].
    + intros (c & Hc & Hin). apply elem_of_cons in Hc as [->|Hc].
      * unfold inBucket in Hin. lia.
      * destruct IH as [_ IH]. specialize (IH (ex_intro _ c (conj Hc Hin))). lia.
Qed.

Lemma tiles_lookup (bs : list Span) : ∀ lo hi i b, tiles bs lo hi →
  bs !! i = Some b →
  lo <= s_start b ∧ s_start b < s_end b ∧ s_end b <= hi
  ∧ tiles (drop (S i) bs) (s_end b) hi.
Proof.
  induction bs as [|c rest IH]; intros lo hi i b H Hi; [done|].
  destruct H as (Hs & Hlt & Hrest). destruct i as [|i]; simpl in Hi.
  - inversion Hi; subst c. pose proof (tiles_le _ _ _ Hrest).
    simpl. rewrite drop_0. repeat split; (lia || done).
  - destruct (IH _ _ _ _ Hrest Hi) as (H1 & H2 & H3 & H4).
    simpl. repeat split; (lia || done).
Qed.

Lemma tiles_adjacent (bs : list Span) lo hi i b b' :
  tiles bs lo hi → bs !! i = Some b → bs !! S i = Some b' →
  s_end b = s_start b'.
Proof.
  intros H Hi Hi'. destruct (tiles_lookup _ _ _ _ _ H Hi) as (_ & _ & _ & Hd).
  assert (Hhd : drop (S i) bs !! 0%nat = Some b').
  { rewrite lookup_drop. by rewrite Nat.add_0_r. }
  destruct (drop (S i) bs) as [|c rest]; [done|].
  simpl in Hhd. inversion Hhd; subst c. by destruct Hd as (-> & _).
Qed.

Lemma tiles_ordered (bs : list Span) lo hi i j b b' :
  tiles bs lo hi → bs !! i = Some b → bs !! j = Some b' → (i < j)%nat →
  s_end b <= s_start b'.
Proof.
  intros H Hi Hj Hlt. destruct (tiles_lookup _ _ _ _ _ H Hi) as (_ & _ & _ & Hd).
  assert (Hj' : drop (S i) bs !! (j - S i)%nat = Some b').
  { rewrite lookup_drop. by replace (S i + (j - S i))%nat with j by lia. }
  by destruct (tiles_lookup _ _ _ _ _ Hd Hj') as (? & _).
Qed.

Lemma tiles_ends (bs : list Span) lo hi :
  tiles bs lo hi → lo < hi →
  (∃ b, head bs = Some b ∧ s_start b = lo)
  ∧ (∃ b, last bs = Some b ∧ s_end b = hi).
Proof.
  intros H Hlt. split.
  - destruct bs as [|b rest]; simpl in *; [lia|]. exists b. by destruct H.
  - revert lo H Hlt. induction bs as [|b rest IH]; simpl; intros lo H Hlt; [lia|].
    destruct H as (Hs & Hb & Hrest). destruct rest as [|c rest'].
    + simpl in Hrest. exists b. done.
    + destruct (IH (s_end b) Hrest) as (d & Hd & He).
      { simpl in Hrest. destruct Hrest as (? & ? & Hr). apply tiles_le in Hr. lia. }
      exists d. done.
Qed.

Lemma bucketWidth_ge_HOUR startTime endTime : HOUR <= bucketWidth startTime endTime.
Proof.
  unfold bucketWidth. destruct (suggestInterval _ _); unfold DAY, HOUR; lia.
Qed.

Lemma TimeClip_Some time v : TimeClip time = Some v → v = time.
Proof. unfold TimeClip. destruct (_ <=? _); by inversion 1. Qed.

Lemma TimeClip_valid time : - MAX_TIME <= time <= MAX_TIME → TimeClip time = Some time.
Proof.
  intros H. unfold TimeClip. destruct (Z.leb_spec (Z.abs time) MAX_TIME); [done|lia].
Qed.

(** In a zone without clock changes a step is the bucket width, as long as
    it stays inside the range of the Date type. *)
Lemma nextBoundary_fixedOffset zone startTime endTime t :
  fixedOffset zone →
  nextBoundary zone startTime endTime t
  = TimeClip (t + bucketWidth startTime endTime).
Proof.
  intros (offset & Hzone).
  unfold nextBoundary, bucketWidth, setHours_next, setDate_next, UTC, LocalTime.
  destruct (suggestInterval startTime endTime);
    destruct (Hzone t) as [-> _];
    match goal with
    | |- context [LocalTZA_local zone ?x] => destruct (Hzone x) as [_ ->]
    end; f_equal; lia.
Qed.

Lemma advancing_fixedOffset zone startTime endTime :
  fixedOffset zone → - MAX_TIME <= startTime → endTime + DAY <= MAX_TIME →
  advancing zone startTime endTime.
Proof.
  intros Hzone Hlo Hhi t Ht.
  pose proof (bucketWidth_ge_HOUR startTime endTime) as Hw.
  assert (bucketWidth startTime endTime <= DAY)
    by (unfold bucketWidth, DAY, HOUR; destruct (suggestInterval _ _); lia).
  assert (0 < HOUR) by (unfold HOUR; lia).
  exists (t + bucketWidth startTime endTime).
  rewrite nextBoundary_fixedOffset by done.
  split; [apply TimeClip_valid|]; lia.
Qed.

Lemma generateBuckets_loop_step zone fuel startTime endTime currentTime v
    buckets :
  currentTime < endTime →
  nextBoundary zone startTime endTime currentTime = Some v →
  generateBuckets_loop zone (S fuel) startTime endTime (Some currentTime)
    buckets
  = generateBuckets_loop zone fuel startTime endTime (Some (Z.min endTime v))
      (buckets ++ [bucket {| s_start := currentTime;
                             s_end := Z.min endTime v |}]).
Proof.
  intros Hlt Hnext. simpl. destruct (Z.ltb_spec currentTime endTime); [|lia].
  rewrite Hnext. unfold bucket. simpl.
  destruct (Z.ltb_spec endTime v);
    (rewrite Z.min_l by lia) || (rewrite Z.min_r by lia); reflexivity.
Qed.

Lemma generateBuckets_loop_exit zone fuel startTime endTime buckets :
  generateBuckets_loop zone fuel startTime endTime (Some endTime) buckets
  = Some buckets.
Proof. destruct fuel; simpl; by rewrite Z.ltb_irrefl. Qed.

(** With enough fuel the loop exits, and what it appends tiles the rest of
    the range. *)
Lemma generateBuckets_loop_tiles zone startTime endTime :
  advancing zone startTime endTime →
  ∀ fuel currentTime buckets,
  startTime <= currentTime <= endTime →
  endTime - currentTime <= Z.of_nat fuel * HOUR →
  ∃ bs : list Span,
    generateBuckets_loop zone fuel startTime endTime (Some currentTime) buckets
    = Some (buckets ++ (bucket <$> bs))
        ∧ tiles bs currentTime endTime.
Proof.
  intros Hzone.
  assert (0 < HOUR) by (unfold HOUR; lia).
  induction fuel as [|fuel IH]; intros cur acc Hle Hfuel.
  - exists []. assert (cur = endTime) as -> by lia.
    rewrite generateBuckets_loop_exit. simpl. by rewrite app_nil_r.
  - destruct (Z.eq_dec cur endTime) as [->|Hne].
    + exists []. rewrite generateBuckets_loop_exit. simpl.
      by rewrite app_nil_r.
    + destruct (Hzone cur) as (v & Hnext & Hv); [lia|].
      rewrite (generateBuckets_loop_step _ _ _ _ _ v) by (lia || done).
      set (next := Z.min endTime v).
      destruct (IH next (acc ++ [bucket {| s_start := cur; s_end := next |}]))
        as (bs & Hrun & Htiles); [unfold next; lia|unfold next; lia|].
      exists ({| s_start := cur; s_end := next |} :: bs).
      rewrite Hrun, <- app_assoc. simpl.
      repeat split; [unfold next; lia|done].
Qed.

(** C8, within the range of the Date type.  For valid Dates [start < end],
    on a host where every bucket boundary computed inside the range is a
    valid Date an hour or more later (in UTC: whenever [end] is a day or
    more before the last Date), [generateBuckets start end] returns
    buckets between valid Dates that tile [start, end): the first starts
    at [start], each next one starts where the previous one ended, the
    last ends at [end] (it is clipped to [end], never beyond it), none is
    empty and no two overlap, so a time lies in [start, end) exactly when
    it lies in one of the buckets; a range of at most one hour yields the
    single clipped bucket [start, end). *)
Theorem generateBuckets_tiles_range (zone : TimeZone) (startTime endTime : Z) :
  startTime < endTime →
  advancing zone startTime endTime →
  ∃ bs : list Span,
    generateBuckets zone (Some startTime) (Some endTime) = Some (bucket <$> bs)
    ∧ (∃ b, head bs = Some b ∧ s_start b = startTime)
    ∧ (∃ b, last bs = Some b ∧ s_end b = endTime)
    ∧ (∀ i b b', bs !! i = Some b → bs !! S i = Some b' →
         s_end b = s_start b')
    ∧ (∀ i b, bs !! i = Some b →
         startTime <= s_start b ∧ s_start b < s_end b ∧ s_end b <= endTime)
    ∧ (∀ i j b b', bs !! i = Some b → bs !! j = Some b' → (i < j)%nat →
         s_end b <= s_start b')
    ∧ (∀ t, startTime <= t < endTime ↔ ∃ b, b ∈ bs ∧ inBucket t b)
    ∧ (endTime - startTime <= HOUR →
         bs = [{| s_start := startTime; s_end := endTime |}]).
Proof.
  intros Hlt Hzone.
  assert (HH : 0 < HOUR) by (unfold HOUR; lia).
  destruct (generateBuckets_loop_tiles zone startTime endTime Hzone
              (S (Z.to_nat ((endTime - startTime) / HOUR))) startTime [])
    as (bs & Hrun & Htiles); [lia| |].
  { rewrite Nat2Z.inj_succ, Z2Nat.id by (apply Z.div_pos; lia).
    pose proof (Z.mul_succ_div_gt (endTime - startTime) HOUR HH). lia. }
  exists bs.
  destruct (tiles_ends _ _ _ Htiles Hlt) as [Hhead Hlast].
  split; [exact Hrun|]. split; [exact Hhead|]. split; [exact Hlast|].
  split; [intros i b b'; by apply tiles_adjacent with startTime endTime|].
  split.
  { intros i b Hi.
    destruct (tiles_lookup _ _ _ _ _ Htiles Hi) as (? & ? & ? & _). done. }
  split; [intros i j b b'; by apply tiles_ordered with startTime endTime|].
  split; [by apply tiles_cover|].
  intros Hsmall.
  destruct bs as [|b rest]; [simpl in Htiles; lia|].
  destruct Htiles as (Hs & Hb & Hrest).
  destruct (Hzone startTime) as (v & Hnext & Hv); [lia|].
  rewrite (generateBuckets_loop_step _ _ _ _ _ v) in Hrun by (lia || done).
  rewrite Z.min_l, generateBuckets_loop_exit in Hrun by lia.
  destruct rest as [|c rest']; simpl in Hrun.
  - destruct b as [s e]. simpl in *. by subst.
  - discriminate Hrun.
Qed.

(** Three and a half hours in UTC: three full buckets and a clipped one. *)
Lemma generateBuckets_tiles_range_witness :
  let spans := [ {| s_start := 0; s_end := HOUR |};
                 {| s_start := HOUR; s_end := 2 * HOUR |};
                 {| s_start := 2 * HOUR; s_end := 3 * HOUR |};
                 {| s_start := 3 * HOUR; s_end := 3 * HOUR + HOUR / 2 |} ] in
  0 < 3 * HOUR + HOUR / 2
  ∧ advancing utcZone 0 (3 * HOUR + HOUR / 2)
  ∧ generateBuckets utcZone (Some 0) (Some (3 * HOUR + HOUR / 2))
    = Some (bucket <$> spans)
  ∧ ∃ b, b ∈ spans ∧ inBucket (3 * HOUR) b.
Proof.
  intros spans.
  assert (Hlt : 0 < 3 * HOUR + HOUR / 2) by (vm_compute; reflexivity).
  assert (Hzone : advancing utcZone 0 (3 * HOUR + HOUR / 2)).
  { apply advancing_fixedOffset; [by exists 0| |]; vm_compute; discriminate. }
  split; [exact Hlt|]. split; [exact Hzone|].
  destruct (generateBuckets_tiles_range utcZone 0 (3 * HOUR + HOUR / 2)
              Hlt Hzone)
    as (bs & Hrun & _ & _ & _ & _ & _ & Hcover & _).
  assert (Hbs : generateBuckets utcZone (Some 0) (Some (3 * HOUR + HOUR / 2))
                = Some (bucket <$> spans))
    by (vm_compute; reflexivity).
  split; [exact Hbs|].
  rewrite Hbs in Hrun. injection Hrun as Hrun.
  assert (E : bs = spans).
  { revert Hrun. unfold spans. clear.
    destruct bs as [|[s0 e0] [|[s1 e1] [|[s2 e2] [|[s3 e3] [|? ?]]]]];
      try discriminate 1.
    unfold bucket. simpl. intros H. injection H as <- <- <- <- <- <- <- <-.
    reflexivity. }
  rewrite E in Hcover.
  apply (proj1 (Hcover (3 * HOUR))). vm_compute. split; [discriminate|reflexivity].
Defined.

(** C8 as the specification words it, for any pair of Dates.  In UTC, for
    the range of the last second of the Date type, the hour added to the
    start is past the last Date: the one bucket returned ends at Invalid
    Date, not at [end], so the buckets are not the range. *)
Lemma generateBuckets_last_hour_counterexample :
  let startTime := MAX_TIME - 1000 in
  let endTime := MAX_TIME in
  TimeClip startTime = Some startTime ∧ TimeClip endTime = Some endTime
  ∧ startTime < endTime
  ∧ generateBuckets utcZone (Some startTime) (Some endTime)
    = Some [{| b_start := Some startTime; b_end := None |}]
  ∧ ¬ ∃ bs : list Span,
        generateBuckets utcZone (Some startTime) (Some endTime)
        = Some (bucket <$> bs).
Proof.
  intros startTime endTime.
  assert (Hrun : generateBuckets utcZone (Some startTime) (Some endTime)
                 = Some [{| b_start := Some startTime; b_end := None |}])
    by (vm_compute; reflexivity).
  split; [vm_compute; reflexivity|]. split; [vm_compute; reflexivity|].
  split; [vm_compute; reflexivity|]. split; [exact Hrun|].
  intros (bs & Hbs). rewrite Hrun in Hbs. injection Hbs as Hbs.
  destruct bs as [|b [|? ?]]; discriminate Hbs.
Qed.

(** C7.  For every supported interval and every start/end pair,
    [aggregate] (through [validateTimeRangeForInterval]) rejects with an
    [AppError] of type VALIDATION when [end <= start], with the message of
    that first check; it rejects with an [AppError] of type VALIDATION when
    [end - start] exceeds the interval's [maxTimeRange]; and it resolves the
    view name (and [getPostgresInterval] the Postgres interval) of the
    interval's configuration exactly when both checks pass. *)
Theorem aggregate_validates_time_range (query : AggregationQuery) :
  ∃ config,
    getConfig (toString (interval query)) = Ok config
    ∧ (endTime query <= startTime query →
         aggregate query
         = Err (AppError VALIDATION "End time must be after start time" 400))
    ∧ (startTime query < endTime query →
       maxTimeRange config < endTime query - startTime query →
         ∃ e, aggregate query = Err e ∧ isValidationError e = true
              ∧ validateTimeRangeForInterval (interval query)
                  (startTime query) (endTime query) = Err e)
    ∧ (startTime query < endTime query →
       endTime query - startTime query <= maxTimeRange config →
         validateTimeRangeForInterval (interval query)
           (startTime query) (endTime query) = Ok tt
         ∧ aggregate query
           = Ok {| agg_interval := interval query;
                   agg_viewName := viewName config;
                   agg_data := [] |}
         ∧ getViewName (interval query) = Ok (viewName config)
         ∧ getPostgresInterval (interval query) = Ok (pgInterval config))
    ∧ (∀ a, aggregate query = Ok a →
         startTime query < endTime query
         ∧ endTime query - startTime query <= maxTimeRange config).
Proof.
  destruct (getConfig_supported (interval query)) as (config & Hcfg & Hpos).
  exists config. split; [exact Hcfg|].
  unfold aggregate, validateTimeRangeForInterval, getViewName,
    getPostgresInterval.
  rewrite Hcfg.
  destruct (Z.leb_spec (endTime query - startTime query) 0) as [Hle|Hgt];
    [|destruct (Z.ltb_spec (maxTimeRange config)
                 (endTime query - startTime query)) as [Hbig|Hok]].
  - repeat split; try (intros; lia); try done.
  - split; [intros; lia|]. split; [|split; [intros; lia|done]].
    intros _ _. eexists. repeat split.
  - split; [intros; lia|]. split; [intros; lia|]. split; [done|].
    intros a _. lia.
Qed.

(** A hundred days at hourly granularity exceed the ninety days allowed. *)
Lemma aggregate_validates_time_range_witness :
  let query := {| startTime := 0; endTime := 100 * DAY; interval := I1h |} in
  startTime query < endTime query
  ∧ ∃ e, aggregate query = Err e ∧ isValidationError e = true.
Proof.
  intros query.
  assert (Hlt : startTime query < endTime query) by (vm_compute; reflexivity).
  split; [exact Hlt|].
  destruct (aggregate_validates_time_range query)
    as (config & Hcfg & _ & Hbig & _).
  assert (E : config = {| viewName := "events_1h"; pgInterval := "1 hour";
                          maxTimeRange := 90 * 24 * 60 * 60 * 1000 |}).
  { vm_compute in Hcfg. by inversion Hcfg. }
  destruct (Hbig Hlt) as (e & He & Hv & _).
  { rewrite E. vm_compute. reflexivity. }
  exists e. split; [exact He|exact Hv].
Defined.

End TimeSeriesProperties.

(** ** Webhook dispatcher *)

Section WebhookProperties.
Import Webhook.
Context {platform : Platform}.

Lemma updateDeliveryStatus_present webhookId result (w : World) row :
  webhooks w !! webhookId = Some row →
  updateDeliveryStatus webhookId result w
  = ({| webhooks :=
          <[webhookId := setEnabled (success result) row]> (webhooks w);
        deliveries := deliveries w ++ [deliveryRecord webhookId result];
        sent := sent w; slept := slept w; uuids := uuids w |}, Ok tt).
Proof. intros H. unfold updateDeliveryStatus. by rewrite H. Qed.

Lemma updateDeliveryStatus_frame webhookId result (w : World) :
  sent (updateDeliveryStatus webhookId result w).1 = sent w
  ∧ uuids (updateDeliveryStatus webhookId result w).1 = uuids w
  ∧ slept (updateDeliveryStatus webhookId result w).1 = slept w.
Proof. unfold updateDeliveryStatus. by destruct (webhooks w !! webhookId). Qed.

Lemma backoff_frame cfg attempt (w : World) :
  webhooks (backoff cfg attempt w) = webhooks w
  ∧ deliveries (backoff cfg attempt w) = deliveries w
  ∧ sent (backoff cfg attempt w) = sent w
  ∧ uuids (backoff cfg attempt w) = uuids w.
Proof. unfold backoff. by destruct (attempt <? maxRetries cfg). Qed.

Lemma deliverWebhook_loop_response cfg net webhook eventType payload deliveryId
    remaining attempt lastError (w : World) status data :
  net (attemptRequest cfg webhook eventType payload deliveryId) (attempt + 1)
  = HttpResponse status data →
  deliverWebhook_loop cfg net webhook eventType payload deliveryId
    (S remaining) attempt lastError w
  = let result :=
      {| success := true; statusCode := status; response := Some data;
         error := None; deliveryId := deliveryId; attempt := attempt + 1 |} in
    let w1 := post (attemptRequest cfg webhook eventType payload deliveryId) w in
    match updateDeliveryStatus (id webhook) result w1 with
    | (w2, Ok _) => (w2, Ok result)
    | (w2, Err e) =>
        deliverWebhook_loop cfg net webhook eventType payload deliveryId
          remaining (attempt + 1) (Some e) (backoff cfg (attempt + 1) w2)
    end.
Proof. intros H. simpl. unfold attemptRequest in H. by rewrite H. Qed.

Lemma deliverWebhook_loop_failure cfg net webhook eventType payload deliveryId
    remaining attempt lastError (w : World) message status :
  net (attemptRequest cfg webhook eventType payload deliveryId) (attempt + 1)
  = HttpFailure message status →
  deliverWebhook_loop cfg net webhook eventType payload deliveryId
    (S remaining) attempt lastError w
  = deliverWebhook_loop cfg net webhook eventType payload deliveryId
      remaining (attempt + 1) (Some (AxiosError message status))
      (backoff cfg (attempt + 1)
         (post (attemptRequest cfg webhook eventType payload deliveryId) w)).
Proof. intros H. simpl. unfold attemptRequest in H. by rewrite H. Qed.

(** Whatever the subscriber and the store do, the loop sends the same
    request on every attempt, at most once per remaining iteration, and
    draws no identifier. *)
Lemma deliverWebhook_loop_sent cfg net webhook eventType payload deliveryId :
  ∀ remaining attempt lastError (w : World),
  ∃ k, (k ≤ remaining)%nat
    ∧ sent (deliverWebhook_loop cfg net webhook eventType payload deliveryId
              remaining attempt lastError w).1
      = sent w ++ replicate k
                    (attemptRequest cfg webhook eventType payload deliveryId)
    ∧ uuids (deliverWebhook_loop cfg net webhook eventType payload deliveryId
               remaining attempt lastError w).1 = uuids w
    ∧ ∀ res, (deliverWebhook_loop cfg net webhook eventType payload deliveryId
                remaining attempt lastError w).2 = Ok res →
             Webhook.deliveryId res = deliveryId.
Proof.
  induction remaining as [|remaining IH]; intros attempt lastError w.
  - exists 0%nat. simpl.
    match goal with
    | |- context [updateDeliveryStatus ?i ?r w] =>
        pose proof (updateDeliveryStatus_frame i r w) as (Hs & Hu & _);
        destruct (updateDeliveryStatus i r w) as [w2 [[]|e]]
    end; simpl in *; rewrite app_nil_r;
      (repeat split; [lia|done|done|]); intros res Hres; by inversion Hres.
  - set (req := attemptRequest cfg webhook eventType payload deliveryId).
    destruct (net req (attempt + 1)) as [status data|message status] eqn:Hnet.
    + rewrite (deliverWebhook_loop_response _ _ _ _ _ _ _ _ _ _ _ _ Hnet).
      cbv zeta. fold req.
      match goal with
      | |- context [updateDeliveryStatus ?i ?r (post req w)] =>
          pose proof (updateDeliveryStatus_frame i r (post req w)) as (Hs & Hu & _);
          destruct (updateDeliveryStatus i r (post req w)) as [w2 [[]|e]]
      end; simpl in Hs, Hu.
      * exists 1%nat. simpl. rewrite Hs, Hu.
        repeat split; [lia|]. intros res Hres. by inversion Hres.
      * destruct (IH (attempt + 1) (Some e) (backoff cfg (attempt + 1) w2))
          as (k & Hk & Hsent & Huuid & Hid).
        destruct (backoff_frame cfg (attempt + 1) w2) as (_ & _ & Hbs & Hbu).
        exists (S k). rewrite Hsent, Huuid, Hbs, Hbu, Hs, Hu, <- app_assoc.
        repeat split; [lia|exact Hid].
    + rewrite (deliverWebhook_loop_failure _ _ _ _ _ _ _ _ _ _ _ _ Hnet).
      fold req.
      destruct (IH (attempt + 1) (Some (AxiosError message status))
                  (backoff cfg (attempt + 1) (post req w)))
        as (k & Hk & Hsent & Huuid & Hid).
      destruct (backoff_frame cfg (attempt + 1) (post req w))
        as (_ & _ & Hbs & Hbu).
      exists (S k). rewrite Hsent, Huuid, Hbs, Hbu. simpl.
      rewrite <- app_assoc.
      repeat split; [lia|exact Hid].
Qed.

(** C9.  Every attempt of a delivery sends the same POST: to the
    subscriber's url, with the payload as body, a signature header equal to
    the hex HMAC-SHA256 of the JSON-serialised payload under that
    subscriber's secret, the webhook id, the event type, and a delivery id
    that is drawn once, before the first attempt, and is the same on every
    retry (and in the result). *)
Theorem deliverWebhook_signed_requests (net : Network)
    (webhook : WebhookResponse) (eventType : string) (payload : JsValue)
    (w : World) :
  let run := deliverWebhook deliveryConfig net webhook eventType payload w in
  let deliveryId := randomUUID (uuids w) in
  let signature :=
    createHmac_sha256_hex (secret webhook) (JSON_stringify payload) in
  uuids run.1 = S (uuids w)
  ∧ (∀ res, run.2 = Ok res → Webhook.deliveryId res = deliveryId)
  ∧ ∃ (k : nat) (req : HttpRequest),
      (k ≤ 3)%nat
      ∧ sent run.1 = sent w ++ replicate k req
      ∧ req_url req = url webhook
      ∧ req_body req = payload
      ∧ req_headers req !! "x-webhook-signature" = Some signature
      ∧ req_headers req !! "x-webhook-id" = Some (id webhook)
      ∧ req_headers req !! "x-delivery-id" = Some deliveryId
      ∧ req_headers req !! "x-event-type" = Some eventType.
Proof.
  intros run deliveryId signature. unfold run, deliverWebhook, drawUUID.
  match goal with
  | |- context [deliverWebhook_loop _ _ _ _ _ _ ?n ?a ?e ?w0] =>
      destruct (deliverWebhook_loop_sent deliveryConfig net webhook eventType
                  payload deliveryId n a e w0) as (k & Hk & Hsent & Huuid & Hid)
  end.
  fold deliveryId. split; [exact Huuid|]. split; [exact Hid|].
  exists k, (attemptRequest deliveryConfig webhook eventType payload deliveryId).
  split; [exact Hk|]. split; [exact Hsent|].
  unfold attemptRequest, makeRequest, generateSignature. simpl.
  repeat split; reflexivity.
Qed.

(** When the subscription row is in the table, the loop ends by persisting
    one delivery record for the terminal result. *)
Lemma deliverWebhook_loop_terminal cfg net webhook eventType payload deliveryId
    row :
  ∀ remaining attempt lastError (w : World),
  webhooks w !! id webhook = Some row →
  ∃ res (k : nat),
    let run := deliverWebhook_loop cfg net webhook eventType payload
                 deliveryId remaining attempt lastError w in
    let req := attemptRequest cfg webhook eventType payload deliveryId in
    run.2 = Ok res
    ∧ webhooks run.1
      = <[id webhook := setEnabled (success res) row]> (webhooks w)
    ∧ deliveries run.1 = deliveries w ++ [deliveryRecord (id webhook) res]
    ∧ sent run.1 = sent w ++ replicate k req
    ∧ (k ≤ remaining)%nat
    ∧ Webhook.attempt res = attempt + Z.of_nat k
    ∧ (∀ j, attempt < j < attempt + Z.of_nat k →
         ∃ message status, net req j = HttpFailure message status)
    ∧ (if success res then
         ∃ status data,
           net req (Webhook.attempt res) = HttpResponse status data
           ∧ statusCode res = status ∧ response res = Some data
           ∧ error res = None ∧ (1 ≤ k)%nat
       else
         k = remaining ∧ response res = None
         ∧ match remaining with
           | O => error res = lastError ≫= errorMessage
                  ∧ statusCode res = responseStatusOr0 lastError
           | S _ => ∃ message status,
                      net req (Webhook.attempt res) = HttpFailure message status
                      ∧ error res = Some message
                      ∧ statusCode res = default 0 status
           end).
Proof.
  induction remaining as [|remaining IH]; intros attempt lastError w Hrow.
  - eexists _, 0%nat. cbv zeta. simpl.
    rewrite (updateDeliveryStatus_present _ _ _ _ Hrow). simpl.
    rewrite app_nil_r, Z.add_0_r.
    repeat split; try done. intros j Hj. lia.
  - set (req := attemptRequest cfg webhook eventType payload deliveryId).
    destruct (net req (attempt + 1)) as [status data|message status] eqn:Hnet.
    + eexists _, 1%nat. cbv zeta.
      rewrite (deliverWebhook_loop_response _ _ _ _ _ _ _ _ _ _ _ _ Hnet).
      cbv zeta. fold req.
      rewrite (updateDeliveryStatus_present _ _ (post req w) row Hrow). simpl.
      repeat split; try done; try lia.
      exists status, data. repeat split; (done || lia).
    + destruct (IH (attempt + 1) (Some (AxiosError message status))
                  (backoff cfg (attempt + 1) (post req w)))
        as (res & k & Hres & Hhooks & Hdel & Hsent & Hk & Hatt & Hfail & Hend).
      { destruct (backoff_frame cfg (attempt + 1) (post req w)) as (-> & _).
        exact Hrow. }
      destruct (backoff_frame cfg (attempt + 1) (post req w))
        as (Hbw & Hbd & Hbs & _).
      exists res, (S k). cbv zeta.
      rewrite (deliverWebhook_loop_failure _ _ _ _ _ _ _ _ _ _ _ _ Hnet).
      fold req. rewrite Hres, Hhooks, Hdel, Hsent, Hbw, Hbd, Hbs. simpl.
      rewrite <- app_assoc.
      repeat split; try done; try lia.
      * intros j Hj. destruct (Z.eq_dec j (attempt + 1)) as [->|Hne].
        -- eauto.
        -- apply Hfail. lia.
      * destruct (success res).
        -- destruct Hend as (st & dt & H1 & H2 & H3 & H4 & H5).
           exists st, dt. repeat split; (done || lia).
        -- destruct Hend as (-> & Hnone & Hlast). repeat split; [done|].
           destruct remaining as [|remaining'].
           ++ destruct Hlast as [He Hs]. exists message, status.
              rewrite Hatt, Z.add_0_r.
              repeat split; try done; rewrite Hs; by destruct status.
           ++ exact Hlast.
Qed.

(** C5.  A delivery to a subscriber whose row is in the table ends in a
    terminal state after [n <= maxRetries] attempts: success on attempt [n]
    after [n - 1] failed ones, or failure once all [maxRetries] attempts
    have failed.  Exactly [n] requests have then been sent and exactly one
    [WebhookDelivery] record has been added.  The record carries the
    webhook id, the delivery id, the final status and the attempt count
    [n]; on success its response column is the serialised body of the last
    response and its error column is null; on failure its response column
    is empty and its error column is the message of the last failed
    attempt (null when that message is empty, or when no attempt was
    made). *)
Theorem deliverWebhook_persists_terminal_state (cfg : WebhookDeliveryConfig)
    (net : Network) (webhook : WebhookResponse) (eventType : string)
    (payload : JsValue) (w : World) (row : WebhookResponse) :
  webhooks w !! id webhook = Some row →
  0 <= maxRetries cfg →
  let run := deliverWebhook cfg net webhook eventType payload w in
  let req :=
    attemptRequest cfg webhook eventType payload (randomUUID (uuids w)) in
  ∃ res (n : nat) (d : WebhookDelivery),
    run.2 = Ok res
    ∧ deliveries run.1 = deliveries w ++ [d]
    ∧ d_webhookId d = id webhook
    ∧ d_eventId d = randomUUID (uuids w)
    ∧ d_status d = (if success res then "success" else "failed")
    ∧ d_retryCount d = Z.of_nat n
    ∧ sent run.1 = sent w ++ replicate n req
    ∧ attempt res = Z.of_nat n
    ∧ Z.of_nat n <= maxRetries cfg
    ∧ (∀ j, 0 < j < Z.of_nat n →
         ∃ message status, net req j = HttpFailure message status)
    ∧ (if success res then
         (1 ≤ n)%nat
         ∧ ∃ status data,
             net req (Z.of_nat n) = HttpResponse status data
             ∧ statusCode res = status ∧ response res = Some data
             ∧ error res = None
             ∧ d_response d = Some (JSON_stringify data)
             ∧ d_error d = None
       else
         Z.of_nat n = maxRetries cfg ∧ response res = None
         ∧ d_response d = None
         ∧ (maxRetries cfg = 0 → d_error d = None)
         ∧ (1 <= maxRetries cfg →
            ∃ message status,
              net req (maxRetries cfg) = HttpFailure message status
              ∧ error res = Some message
              ∧ d_error d
                = (if bool_decide (message = "") then None
                   else Some message))).
Proof.
  intros Hrow Hmax run req. unfold run, deliverWebhook, drawUUID.
  match goal with
  | |- context [deliverWebhook_loop _ _ _ _ _ ?d ?r ?a ?e ?w0] =>
      destruct (deliverWebhook_loop_terminal cfg net webhook eventType payload
                  d row r a e w0 Hrow)
        as (res & k & Hres & _ & Hdel & Hsent & Hk & Hatt & Hfail & Hend);
      destruct (deliverWebhook_loop_sent cfg net webhook eventType payload
                  d r a e w0) as (_ & _ & _ & _ & Hid)
  end.
  cbv zeta in Hres, Hdel, Hsent, Hfail, Hend. simpl in Hatt, Hdel, Hsent.
  specialize (Hid res Hres).
  exists res, k, (deliveryRecord (id webhook) res).
  fold req in Hsent, Hfail, Hend |- *.
  split; [exact Hres|]. split; [exact Hdel|]. split; [reflexivity|].
  split; [exact Hid|]. split; [reflexivity|]. split; [exact Hatt|].
  split; [exact Hsent|]. split; [exact Hatt|]. split; [lia|].
  split; [exact Hfail|].
  rewrite Hatt in Hend. unfold deliveryRecord. simpl.
  destruct (success res).
  - destruct Hend as (st & dt & H1 & H2 & H3 & H4 & H5).
    split; [exact H5|]. exists st, dt. rewrite H3, H4. done.
  - destruct Hend as (-> & Hnone & Hlast).
    split; [lia|]. split; [exact Hnone|]. rewrite Hnone.
    split; [reflexivity|]. split.
    + intros H0. rewrite H0 in Hlast. simpl in Hlast.
      destruct Hlast as [-> _]. reflexivity.
    + intros Hone.
      destruct (Z.to_nat (maxRetries cfg)) eqn:E; [lia|].
      destruct Hlast as (m & s & H1 & H2 & _). exists m, s.
      rewrite <- E, Z2Nat.id in H1 by lia. rewrite H2. done.
Qed.

(** C6, as the code has it.  A delivery leaves every other subscription
    row alone and leaves the id, name, url, secret, subscribed event types,
    custom headers and retry count of the subscriber's own row unchanged;
    recording the outcome sets that row's [enabled] flag to the success of
    the delivery.  A successful delivery to an enabled subscription
    therefore leaves the whole table as it was. *)
Theorem deliverWebhook_webhook_rows (cfg : WebhookDeliveryConfig)
    (net : Network) (webhook : WebhookResponse) (eventType : string)
    (payload : JsValue) (w : World) (row : WebhookResponse) :
  webhooks w !! id webhook = Some row →
  let run := deliverWebhook cfg net webhook eventType payload w in
  ∃ res row',
    run.2 = Ok res
    ∧ (∀ i, i ≠ id webhook → webhooks run.1 !! i = webhooks w !! i)
    ∧ webhooks run.1 !! id webhook = Some row'
    ∧ id row' = id row ∧ name row' = name row ∧ url row' = url row
    ∧ secret row' = secret row ∧ events row' = events row
    ∧ headers row' = headers row ∧ retryCount row' = retryCount row
    ∧ enabled row' = success res
    ∧ (success res = true → enabled row = true →
       webhooks run.1 = webhooks w).
Proof.
  intros Hrow run. unfold run, deliverWebhook, drawUUID.
  match goal with
  | |- context [deliverWebhook_loop _ _ _ _ _ ?d ?r ?a ?e ?w0] =>
      destruct (deliverWebhook_loop_terminal cfg net webhook eventType payload
                  d row r a e w0 Hrow)
        as (res & k & Hres & Hhooks & _)
  end.
  cbv zeta in Hres, Hhooks. simpl in Hhooks.
  exists res, (setEnabled (success res) row).
  split; [exact Hres|]. rewrite Hhooks.
  split; [intros i Hi; by rewrite lookup_insert_ne|].
  split; [apply lookup_insert_eq|].
  repeat split.
  intros Hs He. apply insert_id. rewrite Hrow. f_equal.
  destruct row; simpl in *. by rewrite Hs, He.
Qed.

End WebhookProperties.

(** Two failures and a success: one record with status success, the
    serialised response and retryCount 3, after exactly three requests.  A
    subscriber that is down: one record with status failed, the message of
    the last failure and retryCount 3. *)
Lemma deliverWebhook_persists_terminal_state_witness :
  let run :=
    Webhook.deliverWebhook (platform := scenarioPlatform)
      Webhook.deliveryConfig netThirdTime scenarioWebhook "event.created"
      (JsObj [("test", JsStr "data")]) scenarioHooks in
  let down :=
    Webhook.deliverWebhook (platform := scenarioPlatform)
      Webhook.deliveryConfig netDown scenarioWebhook "event.created"
      (JsObj [("test", JsStr "data")]) scenarioHooks in
  Webhook.webhooks scenarioHooks !! "123" = Some scenarioWebhook
  ∧ 0 <= Webhook.maxRetries Webhook.deliveryConfig
  ∧ (∃ d, Webhook.deliveries run.1 = [d]
          ∧ Webhook.d_status d = "success"
          ∧ Webhook.d_response d = Some "{}"
          ∧ Webhook.d_error d = None
          ∧ Webhook.d_retryCount d = 3
          ∧ length (Webhook.sent run.1) = 3%nat)
  ∧ (∃ d, Webhook.deliveries down.1 = [d]
          ∧ Webhook.d_status d = "failed"
          ∧ Webhook.d_response d = None
          ∧ Webhook.d_error d = Some "Failed to deliver"
          ∧ Webhook.d_retryCount d = 3).
Proof.
  intros run down.
  assert (Hrow : Webhook.webhooks scenarioHooks !! Webhook.id scenarioWebhook
                 = Some scenarioWebhook) by reflexivity.
  assert (Hmax : 0 <= Webhook.maxRetries Webhook.deliveryConfig)
    by (simpl; lia).
  split; [exact Hrow|]. split; [exact Hmax|]. split.
  - destruct (deliverWebhook_persists_terminal_state
                (platform := scenarioPlatform)
                Webhook.deliveryConfig netThirdTime scenarioWebhook
                "event.created" (JsObj [("test", JsStr "data")]) scenarioHooks
                scenarioWebhook Hrow Hmax)
      as (res & n & d & _ & Hdel & _ & _ & Hst & Hrc & Hsent & _ & Hn & Hfail
          & Hend).
    fold run in Hdel, Hsent. simpl in Hn.
    assert (n = 3%nat) as ->.
    { destruct (Webhook.success res).
      - destruct Hend as (H1 & st & dt & Hnet & _).
        unfold netThirdTime in Hnet. cbv beta in Hnet.
        destruct (Z.ltb_spec (Z.of_nat n) 3); [discriminate Hnet|lia].
      - destruct Hend as (H3 & _). simpl in H3. lia. }
    destruct (Webhook.success res) eqn:Hs.
    + destruct Hend as (_ & st & dt & Hnet & _ & _ & _ & Hresp & Herr).
      injection Hnet as _ <-.
      exists d. split; [exact Hdel|]. split; [exact Hst|].
      split; [exact Hresp|]. split; [exact Herr|]. split; [exact Hrc|].
      rewrite Hsent. reflexivity.
    + destruct Hend as (_ & _ & _ & _ & Hlast).
      destruct Hlast as (m & s & Hnet & _); [simpl; lia|].
      discriminate Hnet.
  - destruct (deliverWebhook_persists_terminal_state
                (platform := scenarioPlatform)
                Webhook.deliveryConfig netDown scenarioWebhook
                "event.created" (JsObj [("test", JsStr "data")]) scenarioHooks
                scenarioWebhook Hrow Hmax)
      as (res & n & d & _ & Hdel & _ & _ & Hst & Hrc & _ & _ & _ & _ & Hend).
    fold down in Hdel.
    destruct (Webhook.success res) eqn:Hs.
    + destruct Hend as (_ & st & dt & Hnet & _). discriminate Hnet.
    + destruct Hend as (Hn & _ & Hresp & _ & Hlast).
      destruct Hlast as (m & s & Hnet & _ & Herr); [simpl; lia|].
      injection Hnet as <- _.
      exists d. split; [exact Hdel|]. split; [exact Hst|].
      split; [exact Hresp|]. split; [exact Herr|].
      rewrite Hrc, Hn. reflexivity.
Defined.

(** The three attempts of the scenario above carry the signature made with
    the subscriber's secret and the one delivery id drawn for them. *)
Lemma deliverWebhook_signed_requests_witness :
  let run :=
    Webhook.deliverWebhook (platform := scenarioPlatform)
      Webhook.deliveryConfig netThirdTime scenarioWebhook "event.created"
      (JsObj [("test", JsStr "data")]) scenarioHooks in
  ∃ req, Webhook.sent run.1 = [req; req; req]
         ∧ Webhook.req_headers req !! "x-webhook-signature"
           = Some "webhook-secret-123456:{}"
         ∧ Webhook.req_headers req !! "x-delivery-id" = Some "delivery-0".
Proof.
  intros run.
  destruct (deliverWebhook_signed_requests (platform := scenarioPlatform)
              netThirdTime scenarioWebhook "event.created"
              (JsObj [("test", JsStr "data")]) scenarioHooks)
    as (_ & _ & k & req & _ & Hsent & _ & _ & Hsig & _ & Hid & _).
  fold run in Hsent. exists req.
  split; [|split; [exact Hsig|exact Hid]].
  assert (Hlen : length (Webhook.sent run.1) = 3%nat) by reflexivity.
  rewrite Hsent in Hlen. simpl in Hlen. rewrite length_replicate in Hlen.
  rewrite Hsent, Hlen. reflexivity.
Defined.

(** C6 as the specification words it: the subscription row is left
    unchanged.  A delivery to a subscriber that is down turns the enabled
    flag of its row off. *)
Lemma deliverWebhook_disables_counterexample :
  let run :=
    Webhook.deliverWebhook (platform := scenarioPlatform)
      Webhook.deliveryConfig netDown scenarioWebhook "event.created"
      (JsObj [("test", JsStr "data")]) scenarioHooks in
  Webhook.enabled <$> (Webhook.webhooks scenarioHooks !! "123") = Some true
  ∧ Webhook.enabled <$> (Webhook.webhooks run.1 !! "123") = Some false
  ∧ Webhook.webhooks run.1 !! "123" ≠ Webhook.webhooks scenarioHooks !! "123".
Proof.
  intros run. split; [reflexivity|]. split; [reflexivity|].
  intros H. vm_compute in H. discriminate H.
Qed.

(** The same failed delivery, read through the theorem: the row keeps its
    url and secret and takes the delivery's success as its enabled flag. *)
Lemma deliverWebhook_webhook_rows_witness :
  let run :=
    Webhook.deliverWebhook (platform := scenarioPlatform)
      Webhook.deliveryConfig netDown scenarioWebhook "event.created"
      (JsObj [("test", JsStr "data")]) scenarioHooks in
  Webhook.webhooks scenarioHooks !! "123" = Some scenarioWebhook
  ∧ ∃ row', Webhook.webhooks run.1 !! "123" = Some row'
            ∧ Webhook.url row' = "https://example.com/webhook"
            ∧ Webhook.secret row' = "webhook-secret-123456".
Proof.
  intros run.
  assert (Hrow : Webhook.webhooks scenarioHooks !! Webhook.id scenarioWebhook
                 = Some scenarioWebhook) by reflexivity.
  split; [exact Hrow|].
  destruct (deliverWebhook_webhook_rows (platform := scenarioPlatform)
              Webhook.deliveryConfig netDown scenarioWebhook
              "event.created" (JsObj [("test", JsStr "data")]) scenarioHooks
              scenarioWebhook Hrow)
    as (res & row' & _ & _ & Hrow' & _ & _ & Hurl & Hsecret & _).
  exists row'. split; [exact Hrow'|]. split; [exact Hurl|exact Hsecret].
Defined.

(** ** Performance monitor *)

Section PerformanceProperties.
Import Performance.

Lemma endTimer_Ok operationId (timers : Timers) startTime :
  timers !! operationId = Some startTime → ¬ (startTime == 0)%Q →
  endTimer operationId timers = Ok (delete operationId timers).
Proof.
  intros Hs Hnz. unfold endTimer. rewrite Hs.
  destruct (Qeq_bool startTime 0) eqn:E; [|done].
  by apply Qeq_bool_iff in E.
Qed.

Lemma endTimer_after_Ended operationId (timers : Timers) :
  endTimer operationId (others operationId [Ended] timers)
  = Err (JsError ("No timer found for operation: " +:+ operationId)).
Proof.
  simpl. destruct (endTimer operationId timers) as [timers'|e] eqn:E.
  - unfold endTimer in *.
    destruct (timers !! operationId) as [s|]; [|done].
    destruct (Qeq_bool s 0); [done|]. injection E as <-.
    by rewrite lookup_delete_eq.
  - rewrite E. unfold endTimer in E.
    destruct (timers !! operationId) as [s|]; [|done].
    by destruct (Qeq_bool s 0).
Qed.

Lemma others_app operationId ops ops' (timers : Timers) :
  others operationId (ops ++ ops') timers
  = others operationId ops' (others operationId ops timers).
Proof. unfold others. by rewrite foldl_app. Qed.

Lemma others_started operationId ops : ∀ timers : Timers,
  Forall (λ op, ∃ now, op = Started now ∧ ¬ (now == 0)%Q) ops →
  (∃ s, timers !! operationId = Some s ∧ ¬ (s == 0)%Q) →
  (∃ s, others operationId ops timers !! operationId = Some s
        ∧ ¬ (s == 0)%Q)
  ∧ ∀ k, k ≠ operationId →
      others operationId ops timers !! k = timers !! k.
Proof.
  induction ops as [|op rest IH]; intros timers Hops Hs; [done|].
  inversion Hops as [|? ? (now & -> & Hnow) Hrest]; subst. simpl.
  destruct (IH (startTimer operationId now timers) Hrest) as [H1 H2].
  { exists now. unfold startTimer. by rewrite lookup_insert_eq. }
  split; [exact H1|]. intros k Hk. rewrite H2 by done.
  unfold startTimer. by rewrite lookup_insert_ne.
Qed.

(** A call that keeps its timer returns what its original method returns;
    the monitors of the other methods are left as the original method
    left them. *)
Lemma MonitorPerformance_keeps {W A : Type} operationId call
    (originalMethod : Timers → W → Timers * W * Result A) timers w :
  keepsTimer call →
  (∀ t, (originalMethod t w).1.1 !! operationId = t !! operationId) →
  let inner := originalMethod (startTimer operationId (startedAt call) timers)
                 w in
  ∃ timers',
    MonitorPerformance operationId call originalMethod timers w
    = (timers', inner.1.2, inner.2)
    ∧ ∀ k, k ≠ operationId → timers' !! k = inner.1.1 !! k.
Proof.
  intros [Hstart Hops] Hown inner. unfold MonitorPerformance.
  specialize (Hown (startTimer operationId (startedAt call) timers)).
  subst inner.
  destruct (originalMethod (startTimer operationId (startedAt call) timers) w)
    as [[t1 w1] r1]. simpl in *.
  destruct (others_started operationId (overlap call) t1 Hops)
    as [(s & Hs & Hnz) Hrest].
  { exists (startedAt call). rewrite Hown. unfold startTimer.
    by rewrite lookup_insert_eq. }
  rewrite (endTimer_Ok _ _ _ Hs Hnz). eexists. split; [done|].
  intros k Hk. rewrite lookup_delete_ne by done. by apply Hrest.
Qed.

(** A call that loses its timer rejects with the error of [endTimer],
    whatever its original method did and returned. *)
Lemma MonitorPerformance_loses {W A : Type} operationId call
    (originalMethod : Timers → W → Timers * W * Result A) timers w :
  losesTimer call →
  let inner := originalMethod (startTimer operationId (startedAt call) timers)
                 w in
  ∃ timers',
    MonitorPerformance operationId call originalMethod timers w
    = (timers', inner.1.2,
       Err (JsError ("No timer found for operation: " +:+ operationId))).
Proof.
  intros Hlast inner. unfold MonitorPerformance. subst inner.
  destruct (originalMethod (startTimer operationId (startedAt call) timers) w)
    as [[t1 w1] r1]. simpl.
  apply last_Some in Hlast as (ops & ->).
  rewrite others_app, endTimer_after_Ended. eauto.
Qed.

(** A call that runs alone does to the monitor what [Started] and [Ended]
    say: these are the operations another call sees of it. *)
Lemma MonitorPerformance_as_ops {W A : Type} operationId now
    (method : W → W * Result A) (timers : Timers) w :
  ¬ (now == 0)%Q →
  (MonitorPerformance operationId {| startedAt := now; overlap := [] |}
     (λ t w, let '(w', r) := method w in (t, w', r)) timers w).1.1
  = others operationId [Started now; Ended] timers.
Proof.
  intros Hnz. unfold MonitorPerformance. simpl.
  destruct (method w) as [w' r]. simpl.
  rewrite (endTimer_Ok operationId _ now);
    [done|unfold startTimer; by rewrite lookup_insert_eq|done].
Qed.

Lemma others_frame operationId ops k : ∀ timers : Timers,
  k ≠ operationId → others operationId ops timers !! k = timers !! k.
Proof.
  induction ops as [|op rest IH]; intros timers Hk; [done|]. simpl.
  rewrite IH by done. destruct op as [now|].
  - unfold startTimer. by rewrite lookup_insert_ne.
  - unfold endTimer. destruct (timers !! operationId) as [s|]; [|done].
    destruct (Qeq_bool s 0); [done|]. by rewrite lookup_delete_ne.
Qed.

(** A decorated method touches no timer but its own and those its original
    method touches. *)
Lemma MonitorPerformance_frame {W A : Type} operationId call
    (originalMethod : Timers → W → Timers * W * Result A) timers w k :
  k ≠ operationId →
  (∀ t, (originalMethod t w).1.1 !! k = t !! k) →
  (MonitorPerformance operationId call originalMethod timers w).1.1 !! k
  = timers !! k.
Proof.
  intros Hk Hown. unfold MonitorPerformance.
  specialize (Hown (startTimer operationId (startedAt call) timers)).
  destruct (originalMethod (startTimer operationId (startedAt call) timers) w)
    as [[t1 w1] r1]. simpl in *.
  assert (Hafter : others operationId (overlap call) t1 !! k = timers !! k).
  { rewrite others_frame, Hown by done. unfold startTimer.
    by rewrite lookup_insert_ne. }
  unfold endTimer.
  destruct (others operationId (overlap call) t1 !! operationId) as [s|];
    [destruct (Qeq_bool s 0)|]; simpl; try done.
  by rewrite lookup_delete_ne.
Qed.

(** Whatever becomes of the timer, the world is as the original method
    left it. *)
Lemma MonitorPerformance_world {W A : Type} operationId call
    (originalMethod : Timers → W → Timers * W * Result A) timers w :
  (MonitorPerformance operationId call originalMethod timers w).1.2
  = (originalMethod (startTimer operationId (startedAt call) timers) w).1.2.
Proof.
  unfold MonitorPerformance.
  destruct (originalMethod (startTimer operationId (startedAt call) timers) w)
    as [[t1 w1] r1]. simpl.
  by destruct (endTimer _ _).
Qed.

(** The two lemmas above for a method that leaves the monitors alone. *)
Lemma MonitorPerformance_plain_keeps {W A : Type} operationId call
    (method : W → W * Result A) timers w :
  keepsTimer call →
  ∃ timers',
    MonitorPerformance operationId call (plain method) timers w
    = (timers', (method w).1, (method w).2).
Proof.
  intros Hcall.
  destruct (MonitorPerformance_keeps operationId call (plain method) timers w
              Hcall) as (timers' & Hrun & _).
  { intros t. unfold plain. by destruct (method w). }
  exists timers'. rewrite Hrun. unfold plain. by destruct (method w).
Qed.

Lemma MonitorPerformance_plain_world {W A : Type} operationId call
    (method : W → W * Result A) timers w :
  (MonitorPerformance operationId call (plain method) timers w).1.2
  = (method w).1.
Proof.
  rewrite MonitorPerformance_world. unfold plain. by destruct (method w).
Qed.

(** A decorated method returns what its original method returns, or it
    rejects with the error of [endTimer]. *)
Lemma MonitorPerformance_cases {W A : Type} operationId call
    (originalMethod : Timers → W → Timers * W * Result A) timers w :
  let inner := originalMethod (startTimer operationId (startedAt call) timers)
                 w in
  ∃ timers' result,
    MonitorPerformance operationId call originalMethod timers w
    = (timers', inner.1.2, result)
    ∧ (result = inner.2
       ∨ result
         = Err (JsError ("No timer found for operation: " +:+ operationId))).
Proof.
  intros inner. unfold MonitorPerformance. subst inner.
  destruct (originalMethod (startTimer operationId (startedAt call) timers) w)
    as [[t1 w1] r1]. simpl.
  unfold endTimer.
  destruct (others operationId (overlap call) t1 !! operationId) as [s|];
    [destruct (Qeq_bool s 0)|]; eauto.
Qed.

(** X28.  Two calls of one decorated method in flight at once, the second
    started after the first, use one timer: the one that finishes first
    ends it, and the other finds none, so that its [endTimer] throws. *)
Lemma overlapping_calls_share_one_timer operationId (first second : Q)
    (timers : Timers) :
  ¬ (second == 0)%Q →
  ∃ timers',
    endTimer operationId
      (startTimer operationId second (startTimer operationId first timers))
    = Ok timers'
    ∧ endTimer operationId timers'
      = Err (JsError ("No timer found for operation: " +:+ operationId)).
Proof.
  intros Hnz. eexists. split.
  - apply (endTimer_Ok _ _ second); [|done].
    unfold startTimer. by rewrite lookup_insert_eq.
  - unfold endTimer. by rewrite lookup_delete_eq.
Qed.

End PerformanceProperties.

(** ** Batch ingestion *)

Section EventsProperties.
Import Events Performance.
Local Open Scope nat_scope.

Lemma resultsFrom_length env items : ∀ n, length (resultsFrom env n items) = length items.
Proof. induction items as [|e rest IH]; intros n; simpl; [done|by rewrite IH]. Qed.

Lemma resultsFrom_lookup env items : ∀ n k,
  resultsFrom env n items !! k = itemResult env (n + k) <$> items !! k.
Proof.
  induction items as [|e rest IH]; intros n k; [done|].
  destruct k as [|k]; simpl.
  - by rewrite Nat.add_0_r.
  - rewrite IH. by replace (S n + k) with (n + S k) by lia.
Qed.

Lemma resultsFrom_app env xs : ∀ n ys,
  resultsFrom env n (xs ++ ys)
  = resultsFrom env n xs ++ resultsFrom env (n + length xs) ys.
Proof.
  induction xs as [|x rest IH]; intros n ys; simpl.
  - by rewrite Nat.add_0_r.
  - rewrite IH. by replace (S n + length rest) with (n + S (length rest)) by lia.
Qed.

Lemma processItem_spec env event (w : World) :
  (processItem env event w).2 = itemResult env (created w) event
  ∧ created (processItem env event w).1 = S (created w)
  ∧ hooks (processItem env event w).1 = hooks w.
Proof.
  unfold processItem, itemResult.
  by destruct (create env (created w) (createArgument env (created w) event)).
Qed.

Lemma processChunk_spec env chunk : ∀ w : World,
  (promiseAllMap (processItem env) chunk w).2
  = resultsFrom env (created w) chunk
  ∧ created (promiseAllMap (processItem env) chunk w).1
    = created w + length chunk
  ∧ hooks (promiseAllMap (processItem env) chunk w).1 = hooks w.
Proof.
  induction chunk as [|event rest IH]; intros w; simpl.
  - by rewrite Nat.add_0_r.
  - destruct (processItem_spec env event w) as (Hr & Hc & Hh).
    destruct (processItem env event w) as [w1 r]. simpl in Hr, Hc, Hh.
    destruct (IH w1) as (Hr' & Hc' & Hh').
    destruct (promiseAllMap (processItem env) rest w1) as [w2 rs].
    simpl in *. rewrite Hr, Hr', Hc', Hh', Hc, Hh.
    repeat split. lia.
Qed.

Lemma processWave_spec env chunks : ∀ w : World,
  concat (promiseAllMap (promiseAllMap (processItem env)) chunks w).2
  = resultsFrom env (created w) (concat chunks)
  ∧ created (promiseAllMap (promiseAllMap (processItem env)) chunks w).1
    = created w + length (concat chunks)
  ∧ hooks (promiseAllMap (promiseAllMap (processItem env)) chunks w).1
    = hooks w.
Proof.
  induction chunks as [|chunk rest IH]; intros w; simpl.
  - by rewrite Nat.add_0_r.
  - destruct (processChunk_spec env chunk w) as (Hr & Hc & Hh).
    destruct (promiseAllMap (processItem env) chunk w) as [w1 r].
    simpl in Hr, Hc, Hh.
    destruct (IH w1) as (Hr' & Hc' & Hh').
    destruct (promiseAllMap (promiseAllMap (processItem env)) rest w1)
      as [w2 rs].
    simpl in *. rewrite Hr, Hr', Hc', Hh', Hc, Hh.
    rewrite resultsFrom_app, length_app. repeat split. lia.
Qed.

Lemma take_add_drop {A : Type} (l : list A) : ∀ i m,
  take (i + m) l = take i l ++ take m (drop i l).
Proof.
  induction l as [|x rest IH]; intros i m.
  - by rewrite !take_nil, drop_nil, take_nil.
  - destruct i as [|i]; simpl; [done|]. by rewrite IH.
Qed.

Lemma slice_step {A : Type} (l : list A) i m :
  slice i (i + m) l = take m (drop i l).
Proof. unfold slice. by replace (i + m - i) with m by lia. Qed.

(** With a positive chunk size and enough fuel the chunking loop exits, and
    the chunks, laid end to end, are the input. *)
Lemma chunk_loop_concat {A : Type} (events : list A) CHUNK_SIZE :
  1 ≤ CHUNK_SIZE →
  ∀ fuel i chunks,
    length events - i ≤ fuel →
    concat chunks = take i events →
    ∃ chunks', chunk_loop fuel events CHUNK_SIZE i chunks = Some chunks'
               ∧ concat chunks' = events.
Proof.
  intros HC. induction fuel as [|fuel IH]; intros i chunks Hfuel Hinv.
  - exists chunks. simpl.
    destruct (Nat.ltb_spec i (length events)); [lia|].
    split; [done|]. by rewrite Hinv, take_ge.
  - simpl. destruct (Nat.ltb_spec i (length events)) as [Hlt|Hge].
    + apply IH; [lia|].
      rewrite concat_app, Hinv, slice_step. simpl.
      by rewrite app_nil_r, take_add_drop.
    + exists chunks. split; [done|]. by rewrite Hinv, take_ge.
Qed.

(** With a positive wave size and enough fuel the wave loop exits with the
    results of all items in input order. *)
Lemma wave_loop_results env chunks MAX_CONCURRENT n0 :
  1 ≤ MAX_CONCURRENT →
  ∀ fuel i results (w : World),
    length chunks - i ≤ fuel →
    results = resultsFrom env n0 (concat (take i chunks)) →
    created w = n0 + length (concat (take i chunks)) →
    ∃ w', wave_loop fuel env chunks MAX_CONCURRENT i results w
          = Some (w', resultsFrom env n0 (concat chunks))
          ∧ hooks w' = hooks w
          ∧ created w' = n0 + length (concat chunks).
Proof.
  intros HM. induction fuel as [|fuel IH]; intros i results w Hfuel Hres Hcr.
  - exists w. simpl. destruct (Nat.ltb_spec i (length chunks)); [lia|].
    rewrite take_ge in Hres, Hcr by lia. by subst.
  - simpl. destruct (Nat.ltb_spec i (length chunks)) as [Hlt|Hge].
    + rewrite slice_step.
      destruct (processWave_spec env (take MAX_CONCURRENT (drop i chunks)) w)
        as (Hr & Hc & Hh).
      destruct (promiseAllMap (promiseAllMap (processItem env))
                  (take MAX_CONCURRENT (drop i chunks)) w) as [w1 rs].
      simpl in Hr, Hc, Hh.
      destruct (IH (i + MAX_CONCURRENT) (results ++ concat rs) w1)
        as (w' & Hrun & Hh' & Hc'); [lia| | |].
      * rewrite take_add_drop, concat_app, resultsFrom_app, Hres, Hr, Hcr.
        done.
      * rewrite take_add_drop, concat_app, length_app, Hc, Hcr. lia.
      * exists w'. rewrite Hrun, Hh', Hh. done.
    + exists w. rewrite take_ge in Hres, Hcr by lia. by subst.
Qed.

Lemma storedFrom_app env xs : ∀ n ys,
  storedFrom env n (xs ++ ys)
  = storedFrom env n xs ++ storedFrom env (n + length xs) ys.
Proof.
  induction xs as [|x rest IH]; intros n ys; simpl.
  - by rewrite Nat.add_0_r.
  - rewrite IH, <- app_assoc.
    by replace (S n + length rest) with (n + S (length rest)) by lia.
Qed.

Lemma storedFrom_elem env items : ∀ n ev,
  ev ∈ storedFrom env n items
  ↔ ∃ k item, items !! k = Some item
      ∧ create env (n + k) (createArgument env (n + k) item) = Ok ev.
Proof.
  induction items as [|x rest IH]; intros n ev; simpl.
  - split; [by intros ?%elem_of_nil|by intros (? & ? & ? & _)].
  - rewrite elem_of_app, IH. split.
    + intros [Hhead|(k & item & Hk & Hc)].
      * exists 0, x. rewrite Nat.add_0_r. split; [done|].
        destruct (create env n (createArgument env n x)) as [e|e].
        -- by apply list_elem_of_singleton in Hhead as ->.
        -- by apply elem_of_nil in Hhead.
      * exists (S k), item. split; [done|].
        by replace (n + S k) with (S n + k) by lia.
    + intros ([|k] & item & Hk & Hc); simpl in Hk.
      * injection Hk as ->. rewrite Nat.add_0_r in Hc. left.
        rewrite Hc. apply list_elem_of_singleton. done.
      * right. exists k, item. split; [done|].
        by replace (S n + k) with (n + S k) by lia.
Qed.

Lemma processItem_stored env event (w : World) :
  stored (processItem env event w).1
  = stored w ++ storedFrom env (created w) [event].
Proof.
  unfold processItem. simpl.
  destruct (create env (created w) (createArgument env (created w) event));
    simpl; by rewrite ?app_nil_r.
Qed.

Lemma processChunk_stored env chunk : ∀ w : World,
  stored (promiseAllMap (processItem env) chunk w).1
  = stored w ++ storedFrom env (created w) chunk.
Proof.
  induction chunk as [|event rest IH]; intros w.
  - simpl. by rewrite app_nil_r.
  - pose proof (processItem_stored env event w) as Hs.
    destruct (processItem_spec env event w) as (_ & Hc & _).
    change (event :: rest) with ([event] ++ rest).
    rewrite storedFrom_app. simpl promiseAllMap.
    destruct (processItem env event w) as [w1 r]. simpl in Hs, Hc.
    specialize (IH w1).
    destruct (promiseAllMap (processItem env) rest w1) as [w2 rs].
    simpl in *. rewrite IH, Hs, Hc. simpl.
    rewrite <- app_assoc. do 3 f_equal. lia.
Qed.

Lemma processWave_stored env chunks : ∀ w : World,
  stored (promiseAllMap (promiseAllMap (processItem env)) chunks w).1
  = stored w ++ storedFrom env (created w) (concat chunks).
Proof.
  induction chunks as [|chunk rest IH]; intros w.
  - simpl. by rewrite app_nil_r.
  - pose proof (processChunk_stored env chunk w) as Hs.
    destruct (processChunk_spec env chunk w) as (_ & Hc & _).
    simpl concat. rewrite storedFrom_app. simpl promiseAllMap.
    destruct (promiseAllMap (processItem env) chunk w) as [w1 r].
    simpl in Hs, Hc. specialize (IH w1).
    destruct (promiseAllMap (promiseAllMap (processItem env)) rest w1)
      as [w2 rs].
    simpl in *. by rewrite IH, Hs, Hc, <- app_assoc.
Qed.

(** What the wave loop has stored when it exits. *)
Lemma wave_loop_stored env chunks MAX_CONCURRENT n0 (s0 : list Event) :
  ∀ fuel i results (w w' : World) results',
    stored w = s0 ++ storedFrom env n0 (concat (take i chunks)) →
    created w = n0 + length (concat (take i chunks)) →
    wave_loop fuel env chunks MAX_CONCURRENT i results w = Some (w', results') →
    stored w' = s0 ++ storedFrom env n0 (concat chunks).
Proof.
  induction fuel as [|fuel IH]; intros i results w w' results' Hst Hcr Hrun;
    simpl in Hrun; destruct (Nat.ltb_spec i (length chunks)) as [Hlt|Hge];
    try done.
  - injection Hrun as <- _. by rewrite take_ge in Hst by lia.
  - rewrite slice_step in Hrun.
    pose proof (processWave_stored env (take MAX_CONCURRENT (drop i chunks)) w)
      as Hs.
    destruct (processWave_spec env (take MAX_CONCURRENT (drop i chunks)) w)
      as (_ & Hc & _).
    destruct (promiseAllMap (promiseAllMap (processItem env))
                (take MAX_CONCURRENT (drop i chunks)) w) as [w1 rs].
    simpl in Hs, Hc.
    apply (IH _ _ _ _ _) in Hrun; [done| |].
    + rewrite take_add_drop, concat_app, storedFrom_app, Hs, Hst, Hcr.
      by rewrite <- app_assoc.
    + rewrite take_add_drop, concat_app, length_app, Hc, Hcr. lia.
  - injection Hrun as <- _. by rewrite take_ge in Hst by lia.
Qed.

Lemma wave_loop_created env chunks MAX_CONCURRENT n0 :
  ∀ fuel i results (w w' : World) results',
    created w = n0 + length (concat (take i chunks)) →
    wave_loop fuel env chunks MAX_CONCURRENT i results w = Some (w', results') →
    created w' = n0 + length (concat chunks) ∧ hooks w' = hooks w.
Proof.
  induction fuel as [|fuel IH]; intros i results w w' results' Hcr Hrun;
    simpl in Hrun; destruct (Nat.ltb_spec i (length chunks)) as [Hlt|Hge];
    try done.
  - injection Hrun as <- _. by rewrite take_ge in Hcr by lia.
  - rewrite slice_step in Hrun.
    destruct (processWave_spec env (take MAX_CONCURRENT (drop i chunks)) w)
      as (_ & Hc & Hh).
    destruct (promiseAllMap (promiseAllMap (processItem env))
                (take MAX_CONCURRENT (drop i chunks)) w) as [w1 rs].
    simpl in Hc, Hh.
    apply (IH _ _ _ _ _) in Hrun.
    + by rewrite <- Hh.
    + rewrite take_add_drop, concat_app, length_app, Hc, Hcr. lia.
  - injection Hrun as <- _. by rewrite take_ge in Hcr by lia.
Qed.

Context {platform : Platform}.

Lemma validateBatchSize_accepts (n : nat) :
  1 ≤ n ≤ 1000 → validateBatchSize (Z.of_nat n) = Ok tt.
Proof.
  intros H. unfold validateBatchSize, MAX_BATCH_SIZE.
  destruct (Z.ltb_spec (Z.of_nat n) 1); [lia|].
  destruct (Z.ltb_spec 1000 (Z.of_nat n)); [lia|done].
Qed.

(** An accepted batch returns, and returns the results of its items in
    input order, for any positive chunk size and wave size. *)
Lemma createBatchEvents_returns env cfg net CHUNK_SIZE MAX_CONCURRENT
    (events : list CreateEventInput) (w : World) :
  1 ≤ CHUNK_SIZE → 1 ≤ MAX_CONCURRENT → 1 ≤ length events ≤ 1000 →
  ∃ w', createBatchEvents_body env cfg net CHUNK_SIZE MAX_CONCURRENT events w
        = Some (w', Ok (resultsFrom env (created w) events)).
Proof.
  intros HC HM Hlen. unfold createBatchEvents_body.
  rewrite (validateBatchSize_accepts _ Hlen).
  destruct (chunk_loop_concat events CHUNK_SIZE HC (length events) 0 [])
    as (chunks & Hchunks & Hconcat); [lia|by rewrite take_0|].
  rewrite Hchunks. simpl.
  destruct (wave_loop_results env chunks MAX_CONCURRENT (created w) HM
              (length chunks) 0 [] w) as (w1 & Hrun & _);
    [lia|by rewrite take_0|rewrite take_0; simpl; lia|].
  rewrite Hrun, Hconcat. simpl. eauto.
Qed.

(** The world an accepted batch leaves: the stored events, the number of
    create calls, and the subscriber world before the deliveries. *)
Lemma createBatchEvents_world env cfg net CHUNK_SIZE MAX_CONCURRENT
    (events : list CreateEventInput) (w w' : World) results :
  1 ≤ CHUNK_SIZE → 1 ≤ length events ≤ 1000 →
  Events.createBatchEvents_body env cfg net CHUNK_SIZE MAX_CONCURRENT events w
  = Some (w', Ok results) →
  stored w' = stored w ++ storedFrom env (created w) events
  ∧ created w' = created w + length events
  ∧ hooks w'
    = hooks (triggerAllCaught cfg net
               (filter (λ e, Is_true (notFailed e)) results) w).
Proof.
  intros HC Hlen. unfold Events.createBatchEvents_body.
  rewrite (validateBatchSize_accepts _ Hlen).
  destruct (chunk_loop_concat events CHUNK_SIZE HC (length events) 0 [])
    as (chunks & Hchunks & Hconcat); [lia|by rewrite take_0|].
  rewrite Hchunks. simpl.
  destruct (wave_loop (length chunks) env chunks MAX_CONCURRENT 0 [] w)
    as [[w1 rs]|] eqn:Hloop; [simpl|done].
  intros [= <- <-].
  pose proof (wave_loop_stored env chunks MAX_CONCURRENT (created w) (stored w)
                (length chunks) 0 [] w w1 rs) as Hst.
  rewrite take_0 in Hst. simpl in Hst. rewrite app_nil_r, Nat.add_0_r in Hst.
  specialize (Hst eq_refl eq_refl Hloop).
  destruct (wave_loop_created env chunks MAX_CONCURRENT (created w)
              (length chunks) 0 [] w w1 rs) as (Hcr & Hh);
    [rewrite take_0; simpl; lia|exact Hloop|].
  rewrite Hconcat in Hst, Hcr.
  unfold triggerAllCaught. rewrite Hh.
  destruct (promiseAllMap _ _ (hooks w)) as [h ?] eqn:Hp. simpl.
  done.
Qed.

Lemma resultsFrom_all_failed env items : ∀ n,
  (∀ k item, items !! k = Some item →
     ∃ thrown, create env (n + k) (createArgument env (n + k) item)
               = Err thrown) →
  filter (λ e, Is_true (notFailed e)) (resultsFrom env n items) = []
  ∧ storedFrom env n items = [].
Proof.
  induction items as [|x rest IH]; intros n Hfail; [done|].
  destruct (Hfail 0 x eq_refl) as (thrown & Hx).
  rewrite Nat.add_0_r in Hx.
  destruct (IH (S n)) as (Hf & Hs).
  { intros k item Hk. destruct (Hfail (S k) item Hk) as (t & Ht).
    exists t. by replace (S n + k) with (n + S k) by lia. }
  simpl. unfold itemResult. rewrite Hx, Hs. split; [|done].
  rewrite filter_cons_False; [done|].
  unfold notFailed, failedEvent. simpl. intros [].
Qed.

(** What a batch call does, by what becomes of its timer. *)
Lemma createBatchEvents_call call env cfg net CHUNK_SIZE MAX_CONCURRENT
    (events : list CreateEventInput) timers (w : World) :
  1 ≤ CHUNK_SIZE → 1 ≤ MAX_CONCURRENT → 1 ≤ length events ≤ 1000 →
  ∃ w',
    createBatchEvents_body env cfg net CHUNK_SIZE MAX_CONCURRENT events w
    = Some (w', Ok (resultsFrom env (created w) events))
    ∧ (keepsTimer call →
       ∃ timers',
         createBatchEvents call env cfg net CHUNK_SIZE MAX_CONCURRENT events
           timers w
         = Some (timers', w', Ok (resultsFrom env (created w) events)))
    ∧ (losesTimer call →
       ∃ timers',
         createBatchEvents call env cfg net CHUNK_SIZE MAX_CONCURRENT events
           timers w
         = Some (timers', w',
                 Err (JsError "No timer found for operation: EventService.createBatchEvents"))).
Proof.
  intros HC HM Hlen.
  destruct (createBatchEvents_returns env cfg net CHUNK_SIZE MAX_CONCURRENT
              events w HC HM Hlen) as (w' & Hrun).
  exists w'. split; [exact Hrun|]. unfold createBatchEvents. rewrite Hrun.
  split; intros Hcall.
  - destruct (MonitorPerformance_keeps "EventService.createBatchEvents" call
                (λ t (_ : World), (t, w', Ok (resultsFrom env (created w) events)))
                timers w Hcall) as (timers' & -> & _); [done|].
    by exists timers'.
  - destruct (MonitorPerformance_loses "EventService.createBatchEvents" call
                (λ t (_ : World), (t, w', Ok (resultsFrom env (created w) events)))
                timers w Hcall) as (timers' & ->).
    by exists timers'.
Qed.

(** The results do not depend on the chunk size or on the number of chunks
    per wave. *)
Lemma createBatchEvents_results_independent_of_chunking env cfg net
    (C C' M M' : nat) (events : list CreateEventInput) (w : World) :
  1 ≤ C → 1 ≤ C' → 1 ≤ M → 1 ≤ M' → 1 ≤ length events ≤ 1000 →
  snd <$> createBatchEvents_body env cfg net C M events w
  = snd <$> createBatchEvents_body env cfg net C' M' events w.
Proof.
  intros HC HC' HM HM' Hlen.
  destruct (createBatchEvents_returns env cfg net C M events w HC HM Hlen)
    as (w1 & ->).
  destruct (createBatchEvents_returns env cfg net C' M' events w HC' HM' Hlen)
    as (w2 & ->).
  done.
Qed.

(** Whatever the subscribers do, an accepted batch reports the same results
    and the same summary. *)
Lemma createBatchEvents_results_independent_of_delivery env cfg
    (net net' : Webhook.Network) CHUNK_SIZE MAX_CONCURRENT
    (events : list CreateEventInput) (w : World) :
  snd <$> createBatchEvents_body env cfg net CHUNK_SIZE MAX_CONCURRENT events w
  = snd <$> createBatchEvents_body env cfg net' CHUNK_SIZE MAX_CONCURRENT events w.
Proof.
  unfold createBatchEvents_body.
  destruct (validateBatchSize _); [|done].
  destruct (chunk_loop _ _ _ _ _) as [chunks|]; [simpl|done].
  by destruct (wave_loop _ _ _ _ _ _ _) as [[w1 results]|].
Qed.

(** X26.  For a call that keeps its timer: an accepted batch of N items
    returns exactly N results, the k-th being the result of the k-th input
    item, for every positive chunk size and concurrency bound. *)
Lemma createBatchEvents_in_order call env cfg net CHUNK_SIZE MAX_CONCURRENT
    (events : list CreateEventInput) timers (w : World) :
  1 ≤ CHUNK_SIZE → 1 ≤ MAX_CONCURRENT → 1 ≤ length events ≤ 1000 →
  keepsTimer call →
  ∃ timers' w' results,
    createBatchEvents call env cfg net CHUNK_SIZE MAX_CONCURRENT events
      timers w
    = Some (timers', w', Ok results)
    ∧ length results = length events
    ∧ ∀ k event, events !! k = Some event →
        results !! k = Some (itemResult env (created w + k) event).
Proof.
  intros HC HM Hlen Hcall.
  destruct (createBatchEvents_call call env cfg net CHUNK_SIZE MAX_CONCURRENT
              events timers w HC HM Hlen) as (w' & _ & Hkeeps & _).
  destruct (Hkeeps Hcall) as (timers' & Hrun).
  exists timers', w', (resultsFrom env (created w) events).
  split; [exact Hrun|]. split; [apply resultsFrom_length|].
  intros k event Hk. by rewrite resultsFrom_lookup, Hk.
Qed.

(** C3, on the code.  The method is decorated with [@MonitorPerformance],
    which keeps one timer for all calls of the method.  A call of an
    accepted batch during which another call of the method comes to its
    end finds no timer when it finishes: it makes its N create calls and
    stores what they return, and then rejects with "No timer found"
    instead of returning the N results. *)
Theorem createBatchEvents_overlapped_call_rejects (call : Call) (env : Env)
    (cfg : Webhook.WebhookDeliveryConfig) (net : Webhook.Network)
    (CHUNK_SIZE MAX_CONCURRENT : nat) (events : list CreateEventInput)
    (timers : Timers) (w : World) :
  1 ≤ CHUNK_SIZE → 1 ≤ MAX_CONCURRENT → 1 ≤ length events ≤ 1000 →
  losesTimer call →
  ∃ timers' w',
    createBatchEvents call env cfg net CHUNK_SIZE MAX_CONCURRENT events
      timers w
    = Some (timers', w',
            Err (JsError "No timer found for operation: EventService.createBatchEvents"))
    ∧ created w' = created w + length events
    ∧ ∀ k item ev, events !! k = Some item →
        create env (created w + k) (createArgument env (created w + k) item)
        = Ok ev →
        ev ∈ stored w'.
Proof.
  intros HC HM Hlen Hcall.
  destruct (createBatchEvents_call call env cfg net CHUNK_SIZE MAX_CONCURRENT
              events timers w HC HM Hlen) as (w' & Hbody & _ & Hloses).
  destruct (Hloses Hcall) as (timers' & Hrun).
  destruct (createBatchEvents_world env cfg net CHUNK_SIZE MAX_CONCURRENT
              events w w' _ HC Hlen Hbody) as (Hst & Hcr & _).
  exists timers', w'. split; [exact Hrun|]. split; [exact Hcr|].
  intros k item ev Hk Hc. rewrite Hst. apply elem_of_app. right.
  apply storedFrom_elem. eauto.
Qed.

(** C4, on the code.  When the create of item i fails in a call that loses
    its timer to an overlapping call, the other items go on as the claim
    says, and what their creates return is stored, while item i leaves no
    row; but nothing of it is reported: neither the failed placeholder for
    item i nor the outcome of any other item, since the call rejects as a
    whole with "No timer found". *)
Theorem createBatchEvents_overlapped_failure_unreported (call : Call)
    (env : Env) (cfg : Webhook.WebhookDeliveryConfig) (net : Webhook.Network)
    (CHUNK_SIZE MAX_CONCURRENT : nat) (events : list CreateEventInput)
    (timers : Timers) (w : World) (i : nat) (event : CreateEventInput)
    (thrown : Thrown) :
  1 ≤ CHUNK_SIZE → 1 ≤ MAX_CONCURRENT → 1 ≤ length events ≤ 1000 →
  events !! i = Some event →
  create env (created w + i) (createArgument env (created w + i) event)
  = Err thrown →
  losesTimer call →
  ∃ timers' w' e,
    createBatchEvents call env cfg net CHUNK_SIZE MAX_CONCURRENT events
      timers w
    = Some (timers', w', Err e)
    ∧ e = JsError "No timer found for operation: EventService.createBatchEvents"
    ∧ (∀ j item ev, j ≠ i → events !! j = Some item →
         create env (created w + j) (createArgument env (created w + j) item)
         = Ok ev →
         ev ∈ stored w')
    ∧ (∀ ev, ev ∈ stored w' →
         ev ∈ stored w
         ∨ ∃ j item, j ≠ i ∧ events !! j = Some item
             ∧ create env (created w + j)
                 (createArgument env (created w + j) item) = Ok ev).
Proof.
  intros HC HM Hlen Hi Hfail Hcall.
  destruct (createBatchEvents_call call env cfg net CHUNK_SIZE MAX_CONCURRENT
              events timers w HC HM Hlen) as (w' & Hbody & _ & Hloses).
  destruct (Hloses Hcall) as (timers' & Hrun).
  destruct (createBatchEvents_world env cfg net CHUNK_SIZE MAX_CONCURRENT
              events w w' _ HC Hlen Hbody) as (Hst & _ & _).
  eexists timers', w', _. split; [exact Hrun|]. split; [reflexivity|]. split.
  - intros j item ev _ Hj Hc. rewrite Hst. apply elem_of_app. right.
    apply storedFrom_elem. eauto.
  - intros ev Hev. rewrite Hst in Hev.
    apply elem_of_app in Hev as [Hev|Hev]; [by left|right].
    apply storedFrom_elem in Hev as (j & item & Hj & Hc).
    exists j, item. split; [|done]. intros ->.
    rewrite Hi in Hj. injection Hj as <-. congruence.
Qed.

(** X27.  For a call that keeps its timer.  Let the create of item i fail
    in one run, and let a second run differ from it only in the outcome of that
    one create call.  The batch is not aborted in either run; in the
    first, item i is reported as the input with status "failed", the error
    message, an empty id and severity "error"; and every other item has
    the same result in both runs. *)
Lemma createBatchEvents_isolates_failure call (env env' : Env)
    (cfg : Webhook.WebhookDeliveryConfig) (net : Webhook.Network)
    (CHUNK_SIZE MAX_CONCURRENT : nat) (events : list CreateEventInput)
    timers (w : World) (i : nat) (event : CreateEventInput) (thrown : Thrown) :
  1 ≤ CHUNK_SIZE → 1 ≤ MAX_CONCURRENT → 1 ≤ length events ≤ 1000 →
  keepsTimer call →
  events !! i = Some event →
  create env (created w + i) (createArgument env (created w + i) event)
  = Err thrown →
  (∀ n input, n ≠ created w + i → create env' n input = create env n input) →
  (∀ n k, nowISO env' n k = nowISO env n k) →
  ∃ timers1 w1 results timers2 w2 results',
    createBatchEvents call env cfg net CHUNK_SIZE MAX_CONCURRENT events
      timers w
    = Some (timers1, w1, Ok results)
    ∧ createBatchEvents call env' cfg net CHUNK_SIZE MAX_CONCURRENT events
        timers w
      = Some (timers2, w2, Ok results')
    ∧ length results = length events
    ∧ length results' = length events
    ∧ results !! i
      = Some {| fields := withStatus "failed" event;
                id := "";
                createdAt := nowISO env (created w + i) 1;
                updatedAt := nowISO env (created w + i) 2;
                error := Some (default "Unknown error" (errorMessage thrown));
                severity := Some "error" |}
    ∧ ∀ j, j ≠ i → results !! j = results' !! j.
Proof.
  intros HC HM Hlen Hcall Hi Hfail Hsame Hclock.
  destruct (createBatchEvents_call call env cfg net CHUNK_SIZE MAX_CONCURRENT
              events timers w HC HM Hlen) as (w1 & _ & Hkeeps & _).
  destruct (Hkeeps Hcall) as (timers1 & Hrun).
  destruct (createBatchEvents_call call env' cfg net CHUNK_SIZE MAX_CONCURRENT
              events timers w HC HM Hlen) as (w2 & _ & Hkeeps' & _).
  destruct (Hkeeps' Hcall) as (timers2 & Hrun').
  exists timers1, w1, (resultsFrom env (created w) events),
         timers2, w2, (resultsFrom env' (created w) events).
  split; [exact Hrun|]. split; [exact Hrun'|].
  split; [apply resultsFrom_length|]. split; [apply resultsFrom_length|].
  split.
  - rewrite resultsFrom_lookup, Hi. simpl. unfold itemResult.
    by rewrite Hfail.
  - intros j Hj. rewrite !resultsFrom_lookup.
    destruct (events !! j) as [ev|]; [simpl|done]. f_equal.
    unfold itemResult, createArgument, failedEvent.
    rewrite Hsame by lia. by rewrite !Hclock.
Qed.

(** The size check of the original method. *)
Lemma createBatchEvents_body_rejects_bad_size env cfg net CHUNK_SIZE
    MAX_CONCURRENT (events : list CreateEventInput) (w : World) :
  length events = 0 ∨ 1000 < length events →
  createBatchEvents_body env cfg net CHUNK_SIZE MAX_CONCURRENT events w
  = Some (w, Err (ZodError (if bool_decide (length events = 0)
                            then "too_small" else "too_big"))).
Proof.
  intros H. unfold createBatchEvents_body, validateBatchSize, MAX_BATCH_SIZE.
  destruct H as [H0|Hbig].
  - rewrite H0. simpl. done.
  - rewrite bool_decide_eq_false_2 by lia.
    destruct (Z.ltb_spec (Z.of_nat (length events)) 1); [lia|].
    destruct (Z.ltb_spec 1000 (Z.of_nat (length events))); [done|lia].
Qed.

(** C10, as the code has it.  An empty batch and a batch of more than
    1000 items are rejected wholesale, before any chunking (whatever the
    chunk and wave sizes) and before any create call: the world, and with
    it the event store, is as it was.  The error of a call that keeps its
    timer is the [ZodError] of the size schema ("too_small" for the empty
    batch, "too_big" beyond 1000), which is not an error of the
    application's VALIDATION type. *)
Theorem createBatchEvents_rejects_bad_size (call : Call) (env : Env)
    (cfg : Webhook.WebhookDeliveryConfig) (net : Webhook.Network)
    (CHUNK_SIZE MAX_CONCURRENT : nat) (events : list CreateEventInput)
    (timers : Timers) (w : World) :
  length events = 0 ∨ 1000 < length events →
  ∃ timers' e,
    createBatchEvents call env cfg net CHUNK_SIZE MAX_CONCURRENT events
      timers w
    = Some (timers', w, Err e)
    ∧ (keepsTimer call →
       e = ZodError (if bool_decide (length events = 0)
                     then "too_small" else "too_big")
       ∧ isValidationError e = false).
Proof.
  intros H. unfold createBatchEvents.
  rewrite (createBatchEvents_body_rejects_bad_size _ _ _ _ _ _ _ H).
  set (e := ZodError _).
  unfold MonitorPerformance.
  destruct (endTimer _ _) as [timers'|e'] eqn:Hend.
  - exists timers', e. split; [done|]. done.
  - eexists _, e'. split; [done|]. intros Hcall.
    destruct (MonitorPerformance_keeps "EventService.createBatchEvents" call
                (λ t (_ : World), (t, w, Err e : Result (list Event)))
                timers w Hcall) as (timers' & Hrun & _); [done|].
    unfold MonitorPerformance in Hrun. rewrite Hend in Hrun.
    simpl in Hrun. injection Hrun as _ ->. done.
Qed.

End EventsProperties.

(** Two batch calls in flight at once: the one that finishes last rejects,
    with its three events stored. *)
Lemma createBatchEvents_overlapped_call_rejects_witness :
  Performance.losesTimer overlappedCall
  ∧ ∃ timers' w',
      Events.createBatchEvents (platform := scenarioPlatform) overlappedCall
        envHealthy Webhook.deliveryConfig netThirdTime 2 1 scenarioBatch
        ∅ scenarioWorld
      = Some (timers', w',
              Err (JsError "No timer found for operation: EventService.createBatchEvents"))
      ∧ Events.created w' = 3%nat
      ∧ storedEvent 0 (scenarioEvent "a") ∈ Events.stored w'
      ∧ storedEvent 2 (scenarioEvent "c") ∈ Events.stored w'.
Proof.
  assert (HC : (1 ≤ 2)%nat) by lia.
  assert (HM : (1 ≤ 1)%nat) by lia.
  assert (Hlen : (1 ≤ length scenarioBatch ≤ 1000)%nat) by (simpl; lia).
  assert (Hcall : Performance.losesTimer overlappedCall) by reflexivity.
  split; [exact Hcall|].
  destruct (createBatchEvents_overlapped_call_rejects
              (platform := scenarioPlatform) overlappedCall envHealthy
              Webhook.deliveryConfig netThirdTime 2 1 scenarioBatch ∅
              scenarioWorld HC HM Hlen Hcall)
    as (timers' & w' & Hrun & Hcr & Hst).
  exists timers', w'. split; [exact Hrun|]. split; [exact Hcr|]. split.
  - exact (Hst 0%nat (scenarioEvent "a") _ eq_refl eq_refl).
  - exact (Hst 2%nat (scenarioEvent "c") _ eq_refl eq_refl).
Defined.

(** The same two calls when the second of the three items fails: the
    first and the third are stored, the second is not, and the call
    rejects without a word about any of them. *)
Lemma createBatchEvents_overlapped_failure_unreported_witness :
  ∃ timers' w' e,
    Events.createBatchEvents (platform := scenarioPlatform) overlappedCall
      envSecondFails Webhook.deliveryConfig netThirdTime 2 1 scenarioBatch
      ∅ scenarioWorld
    = Some (timers', w', Err e)
    ∧ e = JsError "No timer found for operation: EventService.createBatchEvents"
    ∧ storedEvent 0 (scenarioEvent "a") ∈ Events.stored w'
    ∧ storedEvent 2 (scenarioEvent "c") ∈ Events.stored w'
    ∧ storedEvent 1 (scenarioEvent "b") ∉ Events.stored w'.
Proof.
  assert (HC : (1 ≤ 2)%nat) by lia.
  assert (HM : (1 ≤ 1)%nat) by lia.
  assert (Hlen : (1 ≤ length scenarioBatch ≤ 1000)%nat) by (simpl; lia).
  assert (Hcall : Performance.losesTimer overlappedCall) by reflexivity.
  destruct (createBatchEvents_overlapped_failure_unreported
              (platform := scenarioPlatform) overlappedCall envSecondFails
              Webhook.deliveryConfig netThirdTime 2 1 scenarioBatch ∅
              scenarioWorld 1 (scenarioEvent "b") (JsError "fail")
              HC HM Hlen eq_refl eq_refl Hcall)
    as (timers' & w' & e & Hrun & He & Hin & Hout).
  exists timers', w', e. split; [exact Hrun|]. split; [exact He|].
  split; [|split].
  - apply (Hin 0%nat (scenarioEvent "a")); [lia|reflexivity|reflexivity].
  - apply (Hin 2%nat (scenarioEvent "c")); [lia|reflexivity|reflexivity].
  - intros Hb. apply Hout in Hb as [Hb|(j & item & Hj & Hitem & Hc)].
    + by apply elem_of_nil in Hb.
    + destruct j as [|[|[|j]]]; simpl in Hitem; try discriminate Hitem;
        try lia; injection Hitem as <-; discriminate Hc.
Defined.

(** A batch of 1001 items is rejected with the "too_big" issue of zod and
    nothing is stored. *)
Lemma createBatchEvents_rejects_bad_size_witness :
  let events := replicate 1001 (scenarioEvent "a") in
  (length events = 0%nat ∨ (1000 < length events)%nat)
  ∧ Performance.keepsTimer loneCall
  ∧ ∃ timers',
      Events.createBatchEvents (platform := scenarioPlatform) loneCall
        envHealthy Webhook.deliveryConfig netThirdTime 2 1 events ∅
        scenarioWorld
      = Some (timers', scenarioWorld, Err (ZodError "too_big")).
Proof.
  intros events.
  assert (H : length events = 0%nat ∨ (1000 < length events)%nat).
  { right. unfold events. rewrite length_replicate. lia. }
  assert (Hcall : Performance.keepsTimer loneCall).
  { split; [|constructor]. intros Hz. discriminate Hz. }
  split; [exact H|]. split; [exact Hcall|].
  destruct (createBatchEvents_rejects_bad_size (platform := scenarioPlatform)
              loneCall envHealthy Webhook.deliveryConfig netThirdTime 2 1
              events ∅ scenarioWorld H) as (timers' & e & Hrun & He).
  destruct (He Hcall) as [He' _]. exists timers'.
  rewrite Hrun, He'. unfold events. rewrite length_replicate. reflexivity.
Defined.

(** C10 as the specification words it: rejected with a validation error.
    The error thrown for a batch of 1001 items is a [ZodError]; it is not
    an error of the application's VALIDATION type, and a handler's [catch]
    answers it with status 500 and the INTERNAL_ERROR body. *)
Lemma createBatchEvents_not_validation_error_counterexample :
  let events := replicate 1001 (scenarioEvent "a") in
  ∃ timers' e,
    Events.createBatchEvents (platform := scenarioPlatform) loneCall
      envHealthy Webhook.deliveryConfig netThirdTime 2 1 events ∅
      scenarioWorld
    = Some (timers', scenarioWorld, Err e)
    ∧ isValidationError e = false
    ∧ (∀ message statusCode, e ≠ AppError VALIDATION message statusCode)
    ∧ EventController.errorReply e
      = Some {| EventController.status := 500;
                EventController.body :=
                  EventController.ErrorBody
                    {| EventController.er_statusCode := 500;
                       EventController.er_error := "INTERNAL_ERROR";
                       EventController.er_message :=
                         "An unexpected error occurred" |} |}.
Proof.
  intros events. eexists _, (ZodError "too_big").
  split; [vm_compute; reflexivity|]. split; [reflexivity|].
  split; [discriminate|reflexivity].
Qed.

(** C2, on the code.  A batch of one event with one enabled subscriber that
    is down: when [createBatchEvents] returns its results, the three
    delivery attempts have been made and the two back-off delays (1 s and
    5 s) have been waited for, and the delivery record is written.
    [createEvent], on the same input, returns at once with the trigger left
    running: nothing has been sent, nothing waited for. *)
Lemma createBatchEvents_awaits_delivery :
  let batch :=
    Events.createBatchEvents (platform := scenarioPlatform) loneCall
      envHealthy Webhook.deliveryConfig netDown 100 5 [scenarioEvent "a"]
      ∅ scenarioWorld in
  let single :=
    Events.createEvent loneCall envHealthy (scenarioEvent "a") ∅
      scenarioWorld in
  (∃ timers' w',
     batch = Some (timers', w', Ok [storedEvent 0 (scenarioEvent "a")])
     ∧ length (Webhook.sent (Events.hooks w')) = 3%nat
     ∧ Webhook.slept (Events.hooks w') = [1000; 5000]
     ∧ length (Webhook.deliveries (Events.hooks w')) = 1%nat)
  ∧ single.1.2 = Ok (storedEvent 0 (scenarioEvent "a"))
  ∧ Webhook.sent (Events.hooks single.1.1.2) = []
  ∧ Webhook.slept (Events.hooks single.1.1.2) = []
  ∧ length single.2 = 1%nat.
Proof.
  intros batch single. split.
  - eexists _, _. split; [vm_compute; reflexivity|]. vm_compute. done.
  - vm_compute. done.
Qed.

(** * Further properties *)

(** ** Rate limiter: windows, maintenance, the in-memory variant *)

Section RateLimitMore.
Import RateLimit.

Lemma requests_open_window_table cfg key endpoint times :
  ∀ (t : Table) r, t !! (key, endpoint) = Some r →
    Forall (λ now, now <= resetAt r) times →
    (requests cfg t key endpoint times).1 !! (key, endpoint)
    = Some {| count := count r + Z.of_nat (length times);
              resetAt := resetAt r |}
    ∧ length (requests cfg t key endpoint times).2 = length times
    ∧ ∀ i v, (requests cfg t key endpoint times).2 !! i = Some v →
        reset (limitInfo v) = resetAt r / 1000.
Proof.
  induction times as [|now rest IH]; intros t r Hr Hall.
  - simpl. rewrite Z.add_0_r. by destruct r.
  - inversion Hall as [|? ? Hnow Hrest]; subst.
    simpl. unfold checkRateLimit.
    rewrite (getOrCreateRateLimit_open _ _ _ _ _ r Hr Hnow).
    specialize (IH (<[(key, endpoint) :=
                        {| count := count r + 1; resetAt := resetAt r |}]> t)
                  {| count := count r + 1; resetAt := resetAt r |}
                  (lookup_insert_eq _ _ _) Hrest).
    destruct (requests cfg _ key endpoint rest) as [t2 vs].
    simpl in *. destruct IH as (Htab & Hlen & Hreset).
    split; [rewrite Htab; f_equal; f_equal; lia|]. split; [by rewrite Hlen|].
    intros [|i] v Hv; simpl in Hv.
    + by inversion Hv.
    + eauto.
Qed.

(** X1.  One window, from the request that opens it (the row is absent or
    its window has passed): the n-th request of the window is rejected
    exactly when [n > max], reports [max(0, max - n)] remaining and the same
    reset second as every other request of the window; when the window has
    seen N requests the row counts N, rejected ones included. *)
Theorem requests_within_one_window (cfg : RateLimitConfig) (t : Table)
    (key endpoint : string) (now : Z) (rest : list Z) :
  (t !! (key, endpoint) = None
   ∨ ∃ r, t !! (key, endpoint) = Some r ∧ resetAt r < now) →
  Forall (λ x, x <= now + windowMs cfg) rest →
  let run := requests cfg t key endpoint (now :: rest) in
  run.1 !! (key, endpoint)
  = Some {| count := Z.of_nat (S (length rest));
            resetAt := now + windowMs cfg |}
  ∧ length run.2 = S (length rest)
  ∧ ∀ i v, run.2 !! i = Some v →
      isLimited v = (max cfg <? Z.of_nat i + 1)
      ∧ remaining (limitInfo v) = Z.max 0 (max cfg - (Z.of_nat i + 1))
      ∧ reset (limitInfo v) = (now + windowMs cfg) / 1000.
Proof.
  intros Hstart Hall run. unfold run. simpl. unfold checkRateLimit.
  assert (E : getOrCreateRateLimit t key endpoint now (now + windowMs cfg)
              = (<[(key, endpoint) :=
                     {| count := 1; resetAt := now + windowMs cfg |}]> t,
                 {| count := 1; resetAt := now + windowMs cfg |})).
  { destruct Hstart as [Hnone|(r & Hr & Hlt)].
    - by apply getOrCreateRateLimit_fresh.
    - by eapply getOrCreateRateLimit_expired. }
  rewrite E.
  set (t1 := <[(key, endpoint) :=
                 {| count := 1; resetAt := now + windowMs cfg |}]> t).
  pose proof (requests_open_window_table cfg key endpoint rest t1
                {| count := 1; resetAt := now + windowMs cfg |}
                (lookup_insert_eq _ _ _) Hall) as (Htab & Hlen & Hreset).
  pose proof (requests_open_window cfg key endpoint rest t1
                {| count := 1; resetAt := now + windowMs cfg |}
                (lookup_insert_eq _ _ _) Hall) as Hverdict.
  destruct (requests cfg t1 key endpoint rest) as [t2 vs].
  simpl in *. split; [rewrite Htab; f_equal; f_equal; lia|].
  split; [by rewrite Hlen|].
  intros [|i] v Hv; simpl in Hv.
  - inversion Hv; subst. done.
  - destruct (Hverdict i v Hv) as [H1 H2].
    rewrite H1, H2, (Hreset i v Hv).
    by replace (1 + Z.of_nat i + 1) with (Z.of_nat (S i) + 1) by lia.
Qed.

Import RateLimitService.

Lemma cleanup_lookup (t : Table) now k :
  cleanup t now !! k
  = match t !! k with
    | Some r => if resetAt r <? now then None else Some r
    | None => None
    end.
Proof.
  unfold cleanup. destruct (t !! k) as [r|] eqn:Hk.
  - destruct (Z.ltb_spec (resetAt r) now).
    + apply map_lookup_filter_None. right. intros r' Hr'. simpl.
      rewrite Hk in Hr'. inversion Hr'; subst. lia.
    + apply map_lookup_filter_Some. split; [done|]. simpl. lia.
  - apply map_lookup_filter_None. by left.
Qed.

(** X2.  [cleanup] deletes exactly the rows whose window has passed, and a
    sweep never changes what a later request is told: for a request at or
    after the sweep, the verdict and the row written for its key are the
    same with and without the sweep. *)
Theorem cleanup_is_transparent (cfg : RateLimitConfig) (t : Table)
    (key endpoint : string) (sweep now : Z) :
  sweep <= now →
  (∀ k r, cleanup t sweep !! k = Some r ↔ t !! k = Some r ∧ sweep <= resetAt r)
  ∧ (checkRateLimit cfg (cleanup t sweep) key endpoint now).2
    = (checkRateLimit cfg t key endpoint now).2
  ∧ (checkRateLimit cfg (cleanup t sweep) key endpoint now).1 !! (key, endpoint)
    = (checkRateLimit cfg t key endpoint now).1 !! (key, endpoint).
Proof.
  intros Hle. split.
  - intros k r. rewrite cleanup_lookup. destruct (t !! k) as [r'|].
    + destruct (Z.ltb_spec (resetAt r') sweep); split.
      * done.
      * intros [E ?]. inversion E; subst. lia.
      * intros E. inversion E; subst. split; [done|lia].
      * by intros [E _].
    + split; [done|by intros [? _]].
  - unfold checkRateLimit, getOrCreateRateLimit.
    rewrite cleanup_lookup.
    destruct (t !! (key, endpoint)) as [r|]; simpl.
    + destruct (Z.ltb_spec (resetAt r) sweep).
      * destruct (Z.ltb_spec (resetAt r) now); [|lia]. simpl.
        by rewrite !lookup_insert_eq.
      * destruct (Z.ltb_spec (resetAt r) now); simpl;
          by rewrite !lookup_insert_eq.
    + by rewrite !lookup_insert_eq.
Qed.



Import RateLimitPlugin.

(** X4.  The in-memory plugin and the persisted service take the same
    decision: configured with the same window and the same maximum (of at
    least one request), and started from matching counters, they block the
    same request and leave matching counters behind. *)
Theorem plugin_agrees_with_service (cfg : RateLimitConfig) (options : Options)
    (t : Table) (hits : gmap string Hit) (key endpoint ip : string) (now : Z) :
  RateLimitPlugin.windowMs options = Some (RateLimit.windowMs cfg) →
  RateLimitPlugin.max options = Some (RateLimit.max cfg) →
  RateLimit.windowMs cfg ≠ 0 → 1 <= RateLimit.max cfg →
  mirrors t hits key endpoint ip →
  let service := checkRateLimit cfg t key endpoint now in
  let plugin := onRequest options hits ip now in
  mirrors service.1 plugin.1 key endpoint ip
  ∧ (isLimited service.2 = true ↔ is_Some plugin.2).
Proof.
  intros Hw Hm Hw0 Hm1 Hmirror service plugin.
  unfold service, plugin, checkRateLimit, getOrCreateRateLimit, onRequest,
    mirrors in *.
  rewrite Hw, Hm, Hmirror. unfold orNumber.
  destruct (Z.eqb_spec (RateLimit.windowMs cfg) 0); [done|].
  destruct (Z.eqb_spec (RateLimit.max cfg) 0); [lia|].
  destruct (t !! (key, endpoint)) as [r|]; simpl;
    [destruct (Z.ltb_spec (resetAt r) now); simpl|];
    rewrite !lookup_insert_eq; simpl; (split; [done|]);
    match goal with
    | |- context [?a <? ?b] => destruct (Z.ltb_spec a b)
    end;
    (split; [intros Hl; try done; try lia; eauto|intros [? Hr]; try done; lia]).
Qed.

End RateLimitMore.

(** ** Aggregation planner: suggestion, buckets, the two range checks *)

Section TimeSeriesMore.
Import TimeSeries.

(** X5.  [suggestInterval] only ever suggests "1h" or "1d": "1h" exactly
    when the two times are at most 24 hours apart, in either order, and
    "1d" otherwise; it never suggests a minute-level interval. *)
Theorem suggestInterval_hour_or_day (startTime endTime : Z) :
  (suggestInterval startTime endTime = I1h
   ∧ Z.abs (endTime - startTime) <= 24 * HOUR
   ∨ suggestInterval startTime endTime = I1d
     ∧ 24 * HOUR < Z.abs (endTime - startTime))
  ∧ suggestInterval startTime endTime = suggestInterval endTime startTime.
Proof.
  unfold suggestInterval. split.
  - destruct (Z.leb_spec (Z.abs (endTime - startTime)) (24 * HOUR));
      [by left|right].
    split; [|done].
    repeat match goal with
           | |- context [if ?c then _ else _] => destruct c
           end; done.
  - by replace (Z.abs (startTime - endTime))
      with (Z.abs (endTime - startTime)) by lia.
Qed.

(** X6.  An empty or reversed range has no buckets: [generateBuckets]
    returns the empty list when [end <= start], in every time zone. *)
Theorem generateBuckets_empty_range (zone : TimeZone) (startTime endTime : Z) :
  endTime <= startTime →
  generateBuckets zone (Some startTime) (Some endTime) = Some [].
Proof.
  intros H. unfold generateBuckets. simpl.
  by destruct (Z.ltb_spec startTime endTime); [lia|].
Qed.

Lemma generateBuckets_empty_range_witness :
  7 <= 7 ∧ generateBuckets utcZone (Some 7) (Some 7) = Some [].
Proof.
  assert (H : 7 <= 7) by lia.
  split; [exact H|]. exact (generateBuckets_empty_range utcZone 7 7 H).
Defined.

Lemma ceil_div_small (a w : Z) : 0 < a <= w → (a + w - 1) / w = 1.
Proof. intros H. symmetry. apply (Z.div_unique _ _ 1 (a - 1)); lia. Qed.

Lemma ceil_div_step (a w : Z) : 0 < w → (a + w + w - 1) / w = 1 + (a + w - 1) / w.
Proof.
  intros H. replace (a + w + w - 1) with (a + w - 1 + 1 * w) by lia.
  rewrite Z.div_add by lia. lia.
Qed.

(** In a zone without clock changes the buckets the loop appends are
    counted from the current time in steps of the bucket width. *)
Lemma generateBuckets_loop_positions zone startTime endTime :
  fixedOffset zone → - MAX_TIME <= startTime → endTime + DAY <= MAX_TIME →
  let w := bucketWidth startTime endTime in
  ∀ fuel currentTime buckets,
  startTime <= currentTime <= endTime →
  endTime - currentTime <= Z.of_nat fuel * HOUR →
  ∃ bs : list Span,
    generateBuckets_loop zone fuel startTime endTime (Some currentTime) buckets
    = Some (buckets ++ (bucket <$> bs))
    ∧ Z.of_nat (length bs) = (endTime - currentTime + w - 1) / w
    ∧ ∀ i b, bs !! i = Some b →
        s_start b = currentTime + Z.of_nat i * w
        ∧ s_end b = Z.min endTime (currentTime + (Z.of_nat i + 1) * w).
Proof.
  intros Hzone Hlo Hhi w.
  pose proof (bucketWidth_ge_HOUR startTime endTime) as Hw. fold w in Hw.
  assert (Hwd : w <= DAY)
    by (unfold w, bucketWidth, DAY, HOUR; destruct (suggestInterval _ _); lia).
  assert (HH : 0 < HOUR) by (unfold HOUR; lia).
  assert (Hzero : (endTime - endTime + w - 1) / w = 0).
  { apply Z.div_small. lia. }
  induction fuel as [|fuel IH]; intros cur acc Hle Hfuel.
  - assert (cur = endTime) as -> by lia. exists [].
    rewrite generateBuckets_loop_exit, Hzero. simpl. by rewrite app_nil_r.
  - destruct (Z.eq_dec cur endTime) as [->|Hne].
    + exists []. rewrite generateBuckets_loop_exit, Hzero. simpl.
      by rewrite app_nil_r.
    + rewrite (generateBuckets_loop_step _ _ _ _ _ (cur + w)); [|lia|].
      2:{ rewrite nextBoundary_fixedOffset by done. fold w.
          apply TimeClip_valid. lia. }
      set (next := Z.min endTime (cur + w)).
      destruct (IH next (acc ++ [bucket {| s_start := cur; s_end := next |}]))
        as (bs & Hrun & Hlen & Hpos); [unfold next; lia|unfold next; lia|].
      exists ({| s_start := cur; s_end := next |} :: bs).
      rewrite Hrun, <- app_assoc. split; [done|]. split.
      * simpl length. rewrite Nat2Z.inj_succ, Hlen. unfold next.
        destruct (Z.le_gt_cases endTime (cur + w)).
        -- rewrite Z.min_l, Hzero, ceil_div_small by lia. lia.
        -- rewrite Z.min_r by lia.
           replace (endTime - cur + w - 1)
             with (endTime - (cur + w) + w + w - 1) by lia.
           rewrite ceil_div_step by lia. lia.
      * intros [|i] b Hb; simpl in Hb.
        -- inversion Hb; subst b; simpl. unfold next. split; [lia|].
           f_equal. lia.
        -- destruct (Hpos i b Hb) as [Hs He]. rewrite Hs, He.
           unfold next in Hlen |- *.
           destruct (Z.le_gt_cases endTime (cur + w)).
           ++ rewrite (Z.min_l endTime (cur + w)) in Hlen by lia.
              rewrite Hzero in Hlen.
              destruct bs; [done|]. simpl in Hlen. lia.
           ++ rewrite (Z.min_r endTime (cur + w)) by lia.
              split; [lia|]. f_equal. lia.
Qed.

(** X7.  On a host whose time zone has no clock changes (UTC, as in the
    deployed image, or any fixed offset), for valid Dates [start < end]
    with [end] a day or more before the last Date, the buckets are counted
    from [start], not from the clock: there are
    [ceil((end - start) / width)] of them, where the width is one hour for
    ranges up to 24 hours and one day beyond, and the i-th (from 0) is
    [start + i * width, min(end, start + (i+1) * width)). *)
Theorem generateBuckets_count_and_positions (zone : TimeZone)
    (startTime endTime : Z) :
  fixedOffset zone → - MAX_TIME <= startTime → endTime + DAY <= MAX_TIME →
  startTime < endTime →
  let w := bucketWidth startTime endTime in
  ∃ bs : list Span,
    generateBuckets zone (Some startTime) (Some endTime) = Some (bucket <$> bs)
    ∧ w = (if endTime - startTime <=? 24 * HOUR then HOUR else DAY)
    ∧ Z.of_nat (length bs) = (endTime - startTime + w - 1) / w
    ∧ ∀ i b, bs !! i = Some b →
        s_start b = startTime + Z.of_nat i * w
        ∧ s_end b = Z.min endTime (startTime + (Z.of_nat i + 1) * w).
Proof.
  intros Hzone Hlo Hhi Hlt w.
  assert (HH : 0 < HOUR) by (unfold HOUR; lia).
  destruct (generateBuckets_loop_positions zone startTime endTime Hzone Hlo Hhi
              (S (Z.to_nat ((endTime - startTime) / HOUR))) startTime [])
    as (bs & Hrun & Hlen & Hpos); [lia| |].
  { rewrite Nat2Z.inj_succ, Z2Nat.id by (apply Z.div_pos; lia).
    pose proof (Z.mul_succ_div_gt (endTime - startTime) HOUR HH). lia. }
  exists bs. split; [exact Hrun|]. split; [|split; [exact Hlen|exact Hpos]].
  unfold w, bucketWidth, suggestInterval.
  rewrite Z.abs_eq by lia.
  repeat match goal with
         | |- context [if ?c then _ else _] => destruct c
         end; done.
Qed.

(** The range of the planner's own test, in UTC: one second short of a day
    gives 24 hourly buckets. *)
Lemma generateBuckets_count_and_positions_witness :
  fixedOffset utcZone
  ∧ - MAX_TIME <= 0 ∧ 24 * HOUR - 1000 + DAY <= MAX_TIME
  ∧ 0 < 24 * HOUR - 1000
  ∧ ∃ bs, generateBuckets utcZone (Some 0) (Some (24 * HOUR - 1000))
          = Some (bucket <$> bs)
          ∧ length bs = 24%nat.
Proof.
  assert (Hzone : fixedOffset utcZone) by (by exists 0).
  assert (Hlo : - MAX_TIME <= 0) by (vm_compute; discriminate).
  assert (Hhi : 24 * HOUR - 1000 + DAY <= MAX_TIME)
    by (vm_compute; discriminate).
  assert (Hlt : 0 < 24 * HOUR - 1000) by (vm_compute; reflexivity).
  split; [exact Hzone|]. split; [exact Hlo|]. split; [exact Hhi|].
  split; [exact Hlt|].
  destruct (generateBuckets_count_and_positions utcZone 0 (24 * HOUR - 1000)
              Hzone Hlo Hhi Hlt)
    as (bs & Hrun & Hw & Hlen & _).
  exists bs. split; [exact Hrun|].
  apply Nat2Z.inj. rewrite Hlen, Hw. vm_compute. reflexivity.
Defined.

(** X8.  The interval [suggestInterval] proposes for a range is one the
    planner accepts for that range, as long as the range is not empty and
    spans at most 365 days; for a longer range the proposal ("1d") is
    rejected by the validation. *)
Theorem suggestInterval_is_accepted (startTime endTime : Z) :
  startTime < endTime →
  (endTime - startTime <= 365 * DAY →
     validateTimeRangeForInterval (suggestInterval startTime endTime)
       startTime endTime = Ok tt)
  ∧ (365 * DAY < endTime - startTime →
     ∃ e, validateTimeRangeForInterval (suggestInterval startTime endTime)
            startTime endTime = Err e
          ∧ isValidationError e = true).
Proof.
  intros Hlt.
  destruct (suggestInterval_hour_or_day startTime endTime)
    as [[(-> & Hspan)|(-> & Hspan)] _];
    rewrite Z.abs_eq in Hspan by lia;
    unfold validateTimeRangeForInterval, DAY, HOUR in *;
    (replace (getConfig (toString I1h))
       with (Ok {| viewName := "events_1h"; pgInterval := "1 hour";
                   maxTimeRange := 90 * 24 * 60 * 60 * 1000 |})
       by (vm_compute; reflexivity))
    || (replace (getConfig (toString I1d))
          with (Ok {| viewName := "events_1d"; pgInterval := "1 day";
                      maxTimeRange := 365 * 24 * 60 * 60 * 1000 |})
          by (vm_compute; reflexivity));
    cbv [maxTimeRange];
    destruct (Z.leb_spec (endTime - startTime) 0); try lia;
    match goal with
    | |- context [?a <? endTime - startTime] =>
        destruct (Z.ltb_spec a (endTime - startTime))
    end; split; intros; try lia; try done; eexists; split; reflexivity.
Qed.

Lemma suggestInterval_is_accepted_witness :
  0 < 30 * DAY
  ∧ validateTimeRangeForInterval (suggestInterval 0 (30 * DAY)) 0 (30 * DAY)
    = Ok tt.
Proof.
  assert (Hlt : 0 < 30 * DAY) by (vm_compute; reflexivity).
  split; [exact Hlt|].
  apply (suggestInterval_is_accepted 0 (30 * DAY) Hlt).
  vm_compute. discriminate.
Defined.

End TimeSeriesMore.

Section AnalyticsMore.
Import TimeSeries Analytics Validation.

Lemma validateTimeRangeForInterval_accepts i startTime endTime :
  validateTimeRangeForInterval i startTime endTime = Ok tt
  ↔ 0 < endTime - startTime <= maxSpan i.
Proof.
  unfold validateTimeRangeForInterval, maxSpan.
  destruct (getConfig_supported i) as (config & -> & _).
  destruct (Z.leb_spec (endTime - startTime) 0);
    [|destruct (Z.ltb_spec (maxTimeRange config) (endTime - startTime))];
    split; try done; lia.
Qed.

Lemma maxSpan_monotone i i' : (rank i ≤ rank i')%nat → maxSpan i <= maxSpan i'.
Proof. destruct i, i'; simpl; intros H; try lia; by vm_compute. Qed.

(** X9.  A range that the planner accepts at one granularity is accepted
    at every coarser one (the allowed span grows from "1m" to "1d"). *)
Theorem coarser_interval_accepts (i i' : TimeInterval) (startTime endTime : Z) :
  (rank i ≤ rank i')%nat →
  validateTimeRangeForInterval i startTime endTime = Ok tt →
  validateTimeRangeForInterval i' startTime endTime = Ok tt.
Proof.
  intros Hrank Hok.
  apply validateTimeRangeForInterval_accepts in Hok.
  apply validateTimeRangeForInterval_accepts.
  pose proof (maxSpan_monotone i i' Hrank). lia.
Qed.

Lemma coarser_interval_accepts_witness :
  (rank I1m ≤ rank I1h)%nat
  ∧ validateTimeRangeForInterval I1m 0 (12 * HOUR) = Ok tt
  ∧ validateTimeRangeForInterval I1h 0 (12 * HOUR) = Ok tt.
Proof.
  assert (Hrank : (rank I1m ≤ rank I1h)%nat) by (simpl; lia).
  assert (Hok : validateTimeRangeForInterval I1m 0 (12 * HOUR) = Ok tt)
    by (vm_compute; reflexivity).
  split; [exact Hrank|]. split; [exact Hok|].
  exact (coarser_interval_accepts I1m I1h 0 (12 * HOUR) Hrank Hok).
Defined.

Lemma validateDateRange_accepts startTime endTime :
  validateDateRange (Some startTime) (Some endTime) = Ok tt
  ↔ startTime < endTime ∧ endTime - startTime <= 90 * DAY.
Proof.
  unfold validateDateRange, MAX_DATE_RANGE_DAYS.
  destruct (Z.ltb_spec startTime endTime); simpl;
    [destruct (Z.leb_spec (endTime - startTime) (90 * DAY)); simpl|];
    split; try done; lia.
Qed.

Lemma aggregate_accepts query :
  (∃ a, aggregate query = Ok a)
  ↔ validateTimeRangeForInterval (interval query) (startTime query)
      (endTime query) = Ok tt.
Proof.
  unfold aggregate.
  destruct (getConfig_supported (interval query)) as (config & Hc & _).
  destruct (validateTimeRangeForInterval _ _ _) as [[]|e].
  - rewrite Hc. split; [done|eauto].
  - split; [by intros (a & ?)|done].
Qed.

(** X10.  Through [EventService.aggregateEvents] a query is answered
    exactly when its range is not empty and spans at most the smaller of 90
    days and the interval's own maximum, so the 365 days of "1d" are never
    available there; an empty or reversed range is rejected by the zod
    date-range check, and the aggregator's own "End time must be after
    start time" error is never what this entry point returns. *)
Theorem aggregateEvents_effective_limits (query : AggregationQuery) :
  (endTime query <= startTime query →
     aggregateEvents query = Err (ZodError "custom"))
  ∧ ((∃ a, aggregateEvents query = Ok a)
     ↔ startTime query < endTime query
       ∧ endTime query - startTime query
         <= Z.min (90 * DAY) (maxSpan (interval query)))
  ∧ (∀ e, aggregateEvents query = Err e →
       e ≠ AppError VALIDATION "End time must be after start time" 400).
Proof.
  unfold aggregateEvents.
  pose proof (validateDateRange_accepts (startTime query) (endTime query)) as Hd.
  pose proof (validateTimeRangeForInterval_accepts (interval query)
                (startTime query) (endTime query)) as Hv.
  pose proof (aggregate_accepts query) as Hagg.
  destruct (validateDateRange (Some (startTime query)) (Some (endTime query)))
    as [[]|e] eqn:E.
  - destruct Hd as [Hd _]. specialize (Hd eq_refl). split; [lia|]. split.
    + split.
      * intros Ha. split; [lia|]. apply Hagg in Ha.
        apply Hv in Ha. lia.
      * intros [_ Hle]. apply Hagg. apply Hv. lia.
    + intros e He Habs. subst e.
      unfold aggregate, validateTimeRangeForInterval in He.
      destruct (getConfig_supported (interval query)) as (config & Hc & _).
      rewrite Hc in He.
      destruct (Z.leb_spec (endTime query - startTime query) 0); [lia|].
      destruct (Z.ltb_spec (maxTimeRange config)
                  (endTime query - startTime query)); [|done].
      by inversion He.
  - split.
    + intros _. unfold validateDateRange in E.
      destruct (negb _); [by inversion E|].
      destruct (negb _); [by inversion E|done].
    + split.
      * split; [by intros (a & Ha)|].
        intros [Hlt Hle]. destruct Hd as [_ Hd].
        discriminate Hd. split; lia.
      * intros e' He' ->. inversion He'; subst e.
        unfold validateDateRange in E.
        destruct (negb _); [by inversion E|].
        destruct (negb _); [by inversion E|done].
Qed.

(** X11.  The two [validateDateRange] helpers differ on the empty range
    and on Invalid Dates only: what validation.utils accepts, the helper of
    event.schema accepts; what the schema helper accepts and
    validation.utils rejects has [start = end] or an Invalid Date.  The
    schema helper accepts every pair with an Invalid Date, which
    validation.utils rejects as "invalid_date"; it accepts the empty range
    of a valid Date, which validation.utils rejects as "custom". *)
Theorem validateDateRange_versions (startTime endTime : option Z) :
  (validateDateRange startTime endTime = Ok tt →
     schema_validateDateRange startTime endTime = Ok tt)
  ∧ (schema_validateDateRange startTime endTime = Ok tt →
     validateDateRange startTime endTime = Ok tt
     ∨ startTime = endTime ∨ startTime = None ∨ endTime = None)
  ∧ (startTime = None ∨ endTime = None →
     schema_validateDateRange startTime endTime = Ok tt
     ∧ validateDateRange startTime endTime = Err (ZodError "invalid_date"))
  ∧ (∀ t, startTime = Some t →
     schema_validateDateRange startTime startTime = Ok tt
     ∧ validateDateRange startTime startTime = Err (ZodError "custom")).
Proof.
  destruct startTime as [s|], endTime as [e|].
  - pose proof (validateDateRange_accepts s e) as Hd.
    assert (Hs : schema_validateDateRange (Some s) (Some e) = Ok tt
                 ↔ s <= e ∧ e - s <= 90 * DAY).
    { unfold schema_validateDateRange, lessThan, difference, DAY, HOUR.
      destruct (Z.ltb_spec e s);
        [|destruct (Z.ltb_spec (90 * 24 * 60 * 60 * 1000) (e - s))];
        split; try done; lia. }
    split; [|split; [|split]].
    + intros H. apply Hs. apply Hd in H. lia.
    + intros H. apply Hs in H.
      destruct (Z.eq_dec s e) as [->|]; [by right; left|left].
      apply Hd. lia.
    + by intros [|].
    + intros t [= <-]. split.
      * unfold schema_validateDateRange, lessThan, difference.
        rewrite Z.ltb_irrefl, Z.sub_diag. done.
      * unfold validateDateRange. by rewrite Z.ltb_irrefl.
  - split; [done|]. split; [auto|]. split; [done|].
    intros t [= <-]. split.
    + unfold schema_validateDateRange, lessThan, difference.
      rewrite Z.ltb_irrefl, Z.sub_diag. done.
    + unfold validateDateRange. by rewrite Z.ltb_irrefl.
  - split; [done|]. split; [auto|]. split; [done|]. done.
  - split; [done|]. split; [auto|]. split; [done|]. done.
Qed.

End AnalyticsMore.

(** ** Webhook dispatcher: fan-out, back-off, disabled and deleted subscribers *)

Section WebhookMore.
Import Webhook WebhookManagement Performance.
Context {platform : Platform}.

Lemma findByEventType_elem eventType activeOnly (w : World) h :
  h ∈ findByEventType eventType activeOnly w
  ↔ (∃ k, webhooks w !! k = Some h)
    ∧ (activeOnly = true → enabled h = true)
    ∧ eventType ∈ events h.
Proof.
  unfold findByEventType. rewrite list_elem_of_filter, list_elem_of_fmap.
  split.
  - intros (HP & [k h'] & -> & Hin). apply elem_of_map_to_list in Hin.
    apply Is_true_true in HP. apply andb_true_iff in HP as [H1 H2].
    apply bool_decide_eq_true in H2. simpl in *.
    split; [eauto|]. split; [|done].
    intros ->. by destruct (enabled h').
  - intros ((k & Hk) & Hen & Hev). split.
    + apply Is_true_true, andb_true_iff. split.
      * destruct activeOnly; [by rewrite Hen|done].
      * by apply bool_decide_eq_true.
    + exists (k, h). split; [done|]. by apply elem_of_map_to_list.
Qed.

(** A delivery to a subscriber whose row is in the table. *)
Lemma deliverWebhook_present cfg net webhook eventType payload (w : World) row :
  webhooks w !! id webhook = Some row →
  ∃ res (k : nat),
    let run := deliverWebhook cfg net webhook eventType payload w in
    run.2 = Ok res
    ∧ webhooks run.1
      = <[id webhook := setEnabled (success res) row]> (webhooks w)
    ∧ deliveries run.1 = deliveries w ++ [deliveryRecord (id webhook) res]
    ∧ sent run.1
      = sent w ++ replicate k (attemptRequest cfg webhook eventType payload
                                 (randomUUID (uuids w)))
    ∧ uuids run.1 = S (uuids w)
    ∧ (1 <= maxRetries cfg → (1 ≤ k)%nat).
Proof.
  intros Hrow. unfold deliverWebhook, drawUUID.
  match goal with
  | |- context [deliverWebhook_loop _ _ _ _ _ ?d ?r ?a ?e ?w0] =>
      destruct (deliverWebhook_loop_terminal cfg net webhook eventType payload
                  d row r a e w0 Hrow)
        as (res & k & Hres & Hhooks & Hdel & Hsent & _ & _ & _ & Hend);
      destruct (deliverWebhook_loop_sent cfg net webhook eventType payload
                  d r a e w0) as (_ & _ & _ & Huuid & _)
  end.
  exists res, k. cbv zeta in *. simpl in *.
  repeat split; try done.
  intros Hone. destruct (success res).
  - by destruct Hend as (? & ? & _ & _ & _ & _ & ?).
  - destruct Hend as (-> & _). lia.
Qed.

(** The deliveries of one trigger, to subscribers whose rows are in the
    table: one result and one record each, in the order of the list, and
    only their requests. *)
Lemma deliverAll_present cfg net eventType payload hooks :
  ∀ w : World,
  (∀ h, h ∈ hooks → is_Some (webhooks w !! id h)) →
  ∃ results records new,
    let run := deliverAll cfg net hooks eventType payload w in
    run.2 = Ok results
    ∧ length results = length hooks
    ∧ deliveries run.1 = deliveries w ++ records
    ∧ Forall2 (λ h d, d_webhookId d = id h) hooks records
    ∧ sent run.1 = sent w ++ new
    ∧ (∀ req, req ∈ new →
         ∃ h deliveryId, h ∈ hooks
           ∧ req = attemptRequest cfg h eventType payload deliveryId)
    ∧ (1 <= maxRetries cfg →
       ∀ h, h ∈ hooks →
         ∃ deliveryId,
           attemptRequest cfg h eventType payload deliveryId ∈ new)
    ∧ (∀ k, is_Some (webhooks w !! k) → is_Some (webhooks run.1 !! k)).
Proof.
  induction hooks as [|h rest IH]; intros w Hrows.
  - exists [], [], []. simpl. rewrite !app_nil_r.
    repeat split; try done.
    + intros req Hreq. by apply not_elem_of_nil in Hreq.
    + intros _ h Hh. by apply not_elem_of_nil in Hh.
  - destruct (Hrows h (list_elem_of_here _ _)) as [row Hrow].
    destruct (deliverWebhook_present cfg net h eventType payload w row Hrow)
      as (res & k & Hres & Hhooks & Hdel & Hsent & _ & Hk1).
    cbv zeta in *. simpl.
    destruct (deliverWebhook cfg net h eventType payload w) as [w1 r1].
    simpl in *. subst r1.
    assert (Hkeep : ∀ k', is_Some (webhooks w !! k') →
                          is_Some (webhooks w1 !! k')).
    { intros k' Hk'. rewrite Hhooks.
      destruct (decide (id h = k')) as [->|Hne].
      - rewrite lookup_insert_eq. eauto.
      - by rewrite lookup_insert_ne. }
    destruct (IH w1)
      as (results & records & new & Hrs & Hlen & Hdl & Hrec & Hsn & Hreq
          & Hall & Hk).
    { intros h' Hh'. apply Hkeep, Hrows. by apply list_elem_of_further. }
    destruct (deliverAll cfg net rest eventType payload w1) as [w2 r2].
    simpl in *. subst r2.
    exists (res :: results), (deliveryRecord (id h) res :: records),
      (replicate k (attemptRequest cfg h eventType payload
                      (randomUUID (uuids w))) ++ new).
    split; [done|]. split; [simpl; by rewrite Hlen|].
    split; [by rewrite Hdl, Hdel, <- app_assoc|].
    split; [by constructor|].
    split; [by rewrite Hsn, Hsent, <- app_assoc|].
    split; [|split].
    + intros req Hin. apply elem_of_app in Hin as [Hin|Hin].
      * apply elem_of_replicate in Hin as [-> _].
        exists h, (randomUUID (uuids w)). split; [apply list_elem_of_here|done].
      * destruct (Hreq req Hin) as (h' & d & Hh' & ->).
        exists h', d. split; [by apply list_elem_of_further|done].
    + intros Hone h' Hh'. apply elem_of_cons in Hh' as [->|Hh'].
      * exists (randomUUID (uuids w)). apply elem_of_app. left.
        apply elem_of_replicate. split; [done|]. specialize (Hk1 Hone). lia.
      * destruct (Hall Hone h' Hh') as (d & Hd). exists d.
        apply elem_of_app. by right.
    + intros k' Hk'. by apply Hk, Hkeep.
Qed.

(** In a table whose rows are stored under their ids, the subscribers of
    an event type have different ids. *)
Lemma findByEventType_NoDup eventType activeOnly (w : World) :
  (∀ k row, webhooks w !! k = Some row → id row = k) →
  NoDup (id <$> findByEventType eventType activeOnly w).
Proof.
  intros Hwf. unfold findByEventType.
  eapply sublist_NoDup; [|apply fmap_sublist, sublist_filter].
  rewrite <- list_fmap_compose.
  assert (E : (id ∘ snd) <$> map_to_list (webhooks w)
              = fst <$> map_to_list (webhooks w)).
  { apply list_fmap_ext. intros i [k row] Hi. simpl.
    apply Hwf. apply elem_of_map_to_list.
    by apply list_elem_of_lookup_2 in Hi. }
  rewrite E. apply NoDup_fst_map_to_list.
Qed.

(** X12.  [triggerWebhooks] reaches exactly the enabled subscribers of the
    event type.  In a table whose rows are stored under their ids the call
    resolves with one result per enabled webhook that lists the event
    type; the subscribers have different ids, and the delivery records
    added are one for each of them, under its id; each of them is sent a
    request, to its url and with its id, and every request sent goes to
    one of them: a disabled webhook, and one that does not list the event
    type, gets neither a request nor a record. *)
Theorem triggerWebhooks_reaches_enabled_subscribers (net : Network)
    (eventType : string) (payload : JsValue) (w : World) :
  (∀ k row, webhooks w !! k = Some row → id row = k) →
  let run := triggerWebhooks deliveryConfig net eventType payload w in
  let subscribers := findByEventType eventType true w in
  (∀ h, h ∈ subscribers
        ↔ webhooks w !! id h = Some h ∧ enabled h = true
          ∧ eventType ∈ events h)
  ∧ NoDup (id <$> subscribers)
  ∧ ∃ results records new,
      run.2 = Ok results
      ∧ length results = length subscribers
      ∧ deliveries run.1 = deliveries w ++ records
      ∧ Forall2 (λ h d, d_webhookId d = id h) subscribers records
      ∧ sent run.1 = sent w ++ new
      ∧ (∀ h, h ∈ subscribers →
           ∃ req, req ∈ new ∧ req_url req = url h
                  ∧ req_headers req !! "x-webhook-id" = Some (id h))
      ∧ ∀ req, req ∈ new →
          ∃ h, h ∈ subscribers ∧ req_url req = url h
               ∧ req_headers req !! "x-webhook-id" = Some (id h).
Proof.
  intros Hwf run subscribers.
  assert (Hsub : ∀ h, h ∈ subscribers
                 ↔ webhooks w !! id h = Some h ∧ enabled h = true
                   ∧ eventType ∈ events h).
  { intros h. unfold subscribers. rewrite findByEventType_elem. split.
    - intros ((k & Hk) & Hen & Hev). rewrite (Hwf k h Hk). auto.
    - intros (Hk & Hen & Hev). eauto. }
  split; [exact Hsub|].
  split; [by apply findByEventType_NoDup|].
  destruct (deliverAll_present deliveryConfig net eventType payload
              subscribers w)
    as (results & records & new & Hres & Hlen & Hdel & Hrec & Hsent & Hreq
        & Hall & _).
  { intros h Hh. apply Hsub in Hh as (Hk & _). eauto. }
  exists results, records, new. unfold run, triggerWebhooks.
  fold subscribers. cbv zeta in *.
  split; [exact Hres|]. split; [exact Hlen|]. split; [exact Hdel|].
  split; [exact Hrec|]. split; [exact Hsent|]. split.
  - intros h Hh. destruct (Hall ltac:(simpl; lia) h Hh) as (d & Hd).
    eexists. split; [exact Hd|]. split; reflexivity.
  - intros req Hin. destruct (Hreq req Hin) as (h & d & Hh & ->).
    exists h. split; [exact Hh|]. split; reflexivity.
Qed.

Lemma backoff_slept cfg attempt (w : World) :
  slept (backoff cfg attempt w)
  = slept w ++ (if attempt <? maxRetries cfg
                then [default 0 (retryDelays cfg !! Z.to_nat (attempt - 1))]
                else []).
Proof.
  unfold backoff. destruct (attempt <? maxRetries cfg); simpl; [done|].
  by rewrite app_nil_r.
Qed.

(** The delays the loop waits for are the entries of the schedule from the
    current attempt on, one fewer than the attempts it makes. *)
Lemma deliverWebhook_loop_slept cfg net webhook eventType payload deliveryId row :
  (Z.to_nat (maxRetries cfg) - 1 ≤ length (retryDelays cfg))%nat →
  ∀ remaining attempt lastError (w : World),
  webhooks w !! id webhook = Some row →
  0 <= attempt →
  attempt + Z.of_nat remaining = maxRetries cfg →
  ∃ res (k : nat),
    let run := deliverWebhook_loop cfg net webhook eventType payload
                 deliveryId remaining attempt lastError w in
    run.2 = Ok res
    ∧ Webhook.attempt res = attempt + Z.of_nat k
    ∧ (1 ≤ remaining → 1 ≤ k)%nat
    ∧ (k ≤ remaining)%nat
    ∧ slept run.1
      = slept w ++ take (k - 1) (drop (Z.to_nat attempt) (retryDelays cfg)).
Proof.
  intros Hdelays.
  induction remaining as [|remaining IH]; intros attempt lastError w Hrow Ha Hsum.
  - exists {| success := false; statusCode := responseStatusOr0 lastError;
              response := None; error := lastError ≫= errorMessage;
              deliveryId := deliveryId; Webhook.attempt := attempt |}, 0%nat.
    cbv zeta. simpl.
    rewrite (updateDeliveryStatus_present _ _ _ _ Hrow). simpl.
    rewrite app_nil_r, Z.add_0_r. repeat split; (done || lia).
  - set (req := attemptRequest cfg webhook eventType payload deliveryId).
    destruct (net req (attempt + 1)) as [status data|message status] eqn:Hnet.
    + eexists _, 1%nat. cbv zeta.
      rewrite (deliverWebhook_loop_response _ _ _ _ _ _ _ _ _ _ _ _ Hnet).
      cbv zeta. fold req.
      rewrite (updateDeliveryStatus_present _ _ (post req w) row Hrow). simpl.
      rewrite app_nil_r. repeat split; (done || lia).
    + destruct (IH (attempt + 1) (Some (AxiosError message status))
                  (backoff cfg (attempt + 1) (post req w)))
        as (res & k & Hres & Hatt & Hk & Hkle & Hslept); [|lia|lia|].
      { destruct (backoff_frame cfg (attempt + 1) (post req w)) as (-> & _).
        exact Hrow. }
      exists res, (S k). cbv zeta in *.
      rewrite (deliverWebhook_loop_failure _ _ _ _ _ _ _ _ _ _ _ _ Hnet).
      fold req. rewrite Hres, Hslept, backoff_slept. simpl slept.
      split; [done|]. split; [lia|]. split; [lia|]. split; [lia|].
      rewrite <- app_assoc. f_equal.
      replace (S k - 1)%nat with k by lia.
      replace (Z.to_nat (attempt + 1 - 1)) with (Z.to_nat attempt) by lia.
      replace (Z.to_nat (attempt + 1)) with (S (Z.to_nat attempt)) by lia.
      destruct (Z.ltb_spec (attempt + 1) (maxRetries cfg)) as [Hmore|Hlast].
      * assert (Hin : (Z.to_nat attempt < length (retryDelays cfg))%nat) by lia.
        apply lookup_lt_is_Some in Hin as [d Hd]. rewrite Hd. simpl.
        rewrite (drop_S _ _ _ Hd).
        destruct k as [|k]; [lia|]. simpl. by rewrite Nat.sub_0_r.
      * assert (remaining = 0%nat) as -> by lia.
        assert (k = 0%nat) as -> by lia.
        done.
Qed.

(** X13.  The delays between the attempts of a delivery are the entries of
    the fixed schedule [1000; 5000; 15000] ms in order, one before each
    retry and none after the last attempt: a delivery that ends after [n]
    attempts has waited for the first [n - 1] of them, so the third entry
    (15 s) is never waited for. *)
Theorem deliverWebhook_backoff_schedule (net : Network)
    (webhook : WebhookResponse) (eventType : string) (payload : JsValue)
    (w : World) (row : WebhookResponse) :
  webhooks w !! id webhook = Some row →
  let run := deliverWebhook deliveryConfig net webhook eventType payload w in
  ∃ res (n : nat),
    run.2 = Ok res
    ∧ attempt res = Z.of_nat n
    ∧ (1 ≤ n ≤ 3)%nat
    ∧ slept run.1 = slept w ++ take (n - 1) [1000; 5000]
    ∧ 15000 ∉ drop (length (slept w)) (slept run.1).
Proof.
  intros Hrow run. unfold run, deliverWebhook, drawUUID.
  match goal with
  | |- context [deliverWebhook_loop _ _ _ _ _ ?d ?r ?a ?e ?w0] =>
      destruct (deliverWebhook_loop_slept deliveryConfig net webhook eventType
                  payload d row (ltac:(simpl; lia)) r a e w0 Hrow)
        as (res & k & Hres & Hatt & Hk & _ & Hslept); [lia|simpl; lia|];
      destruct (deliverWebhook_loop_terminal deliveryConfig net webhook
                  eventType payload d row r a e w0 Hrow)
        as (res' & k' & Hres' & _ & _ & _ & Hk' & Hatt' & _)
  end.
  cbv zeta in *. rewrite Hres in Hres'. inversion Hres'; subst res'.
  match goal with
  | |- context [deliverWebhook_loop ?c ?n ?h ?t ?p ?d ?r ?a ?e ?w0] =>
      set (result := deliverWebhook_loop c n h t p d r a e w0) in *;
      clearbody result
  end.
  simpl in Hatt, Hk, Hslept, Hk', Hatt'.
  assert (k = k') as <- by lia.
  exists res, k. split; [exact Hres|]. split; [lia|].
  assert (Hrange : (1 ≤ k ≤ 3)%nat) by lia.
  split; [exact Hrange|].
  assert (Htake : take (k - 1) [1000; 5000; 15000] = take (k - 1) [1000; 5000]).
  { destruct k as [|[|[|[|k]]]]; simpl; try done; lia. }
  rewrite Hslept, Htake. split; [done|].
  rewrite drop_app_length.
  destruct k as [|[|[|[|k]]]]; simpl; try lia;
    intros Hin; repeat (apply elem_of_cons in Hin as [Hin|Hin]; [done|]);
    by apply not_elem_of_nil in Hin.
Qed.

(** X14.  When the subscription row is gone (the webhook was deleted while
    the trigger was running), recording a successful POST fails inside the
    [try] and is handled as a failed attempt: whatever the subscriber
    answers, it receives [maxRetries] POSTs, no delivery record is written,
    the table is untouched, and the delivery rejects with the Prisma
    error. *)
Theorem deliverWebhook_missing_row (cfg : WebhookDeliveryConfig)
    (net : Network) (webhook : WebhookResponse) (eventType : string)
    (payload : JsValue) (w : World) :
  webhooks w !! id webhook = None →
  let run := deliverWebhook cfg net webhook eventType payload w in
  (∃ message, run.2 = Err (PrismaError "P2025" message))
  ∧ deliveries run.1 = deliveries w
  ∧ webhooks run.1 = webhooks w
  ∧ sent run.1
    = sent w ++ replicate (Z.to_nat (maxRetries cfg))
                  (attemptRequest cfg webhook eventType payload
                     (randomUUID (uuids w))).
Proof.
  intros Hnone run. unfold run, deliverWebhook, drawUUID.
  set (d := randomUUID (uuids w)).
  set (req := attemptRequest cfg webhook eventType payload d).
  assert (Hupd : ∀ result (w0 : World), webhooks w0 !! id webhook = None →
            updateDeliveryStatus (id webhook) result w0
            = (w0, Err (PrismaError "P2025" "Record to update not found."))).
  { intros result w0 H0. unfold updateDeliveryStatus. by rewrite H0. }
  assert (Hloop : ∀ remaining attempt lastError (w0 : World),
            webhooks w0 !! id webhook = None →
            let r := deliverWebhook_loop cfg net webhook eventType payload d
                       remaining attempt lastError w0 in
            r.2 = Err (PrismaError "P2025" "Record to update not found.")
            ∧ deliveries r.1 = deliveries w0
            ∧ webhooks r.1 = webhooks w0
            ∧ sent r.1 = sent w0 ++ replicate remaining req).
  { induction remaining as [|remaining IH]; intros attempt lastError w0 H0.
    - cbv zeta. simpl. rewrite Hupd by done. simpl.
      by rewrite app_nil_r.
    - assert (Hnext : ∀ e,
                let r := deliverWebhook_loop cfg net webhook eventType payload
                           d remaining (attempt + 1) (Some e)
                           (backoff cfg (attempt + 1) (post req w0)) in
                r.2 = Err (PrismaError "P2025" "Record to update not found.")
                ∧ deliveries r.1 = deliveries w0
                ∧ webhooks r.1 = webhooks w0
                ∧ sent r.1 = sent w0 ++ replicate (S remaining) req).
      { intros e.
        destruct (backoff_frame cfg (attempt + 1) (post req w0))
          as (Hbw & Hbd & Hbs & _).
        destruct (IH (attempt + 1) (Some e)
                    (backoff cfg (attempt + 1) (post req w0)))
          as (H1 & H2 & H3 & H4); [by rewrite Hbw|].
        cbv zeta. rewrite H1, H2, H3, H4, Hbw, Hbd, Hbs. simpl.
        by rewrite <- app_assoc. }
      destruct (net req (attempt + 1)) as [status data|message status] eqn:Hnet.
      + cbv zeta.
        rewrite (deliverWebhook_loop_response _ _ _ _ _ _ _ _ _ _ _ _ Hnet).
        cbv zeta. fold req. rewrite Hupd by done. apply Hnext.
      + cbv zeta.
        rewrite (deliverWebhook_loop_failure _ _ _ _ _ _ _ _ _ _ _ _ Hnet).
        fold req. apply Hnext. }
  match goal with
  | |- context [deliverWebhook_loop _ _ _ _ _ _ ?r ?a ?e ?w0] =>
      destruct (Hloop r a e w0 Hnone) as (H1 & H2 & H3 & H4)
  end.
  cbv zeta in *. rewrite H1, H2, H3, H4. split; [eauto|done].
Qed.

(** X15.  A subscriber whose delivery ended in failure is switched off:
    no later trigger, for any event type, finds it, until an update sets
    [enabled] again; then it is found for the event types it lists, with
    its url and secret as before. *)
Theorem failed_delivery_disables_subscriber (cfg : WebhookDeliveryConfig)
    (net : Network) (webhook : WebhookResponse) (eventType : string)
    (payload : JsValue) (w : World) (row : WebhookResponse)
    (res : WebhookDeliveryResult) (call : Call) (timers : Timers) :
  (∀ k r, webhooks w !! k = Some r → id r = k) →
  webhooks w !! id webhook = Some row →
  let run := deliverWebhook cfg net webhook eventType payload w in
  run.2 = Ok res → success res = false →
  (∀ et h, h ∈ findByEventType et true run.1 → id h ≠ id webhook)
  ∧ ∀ et, et ∈ events row →
      ∃ h, h ∈ findByEventType et true
                 (updateWebhook call (id webhook) enableOnly timers run.1).1.2
           ∧ id h = id webhook ∧ url h = url row ∧ secret h = secret row.
Proof.
  intros Hwf Hrow run Hres Hfail.
  destruct (deliverWebhook_present cfg net webhook eventType payload w row Hrow)
    as (res' & k & Hres' & Hhooks & _).
  cbv zeta in *. fold run in Hres', Hhooks.
  rewrite Hres in Hres'. inversion Hres'; subst res'. rewrite Hfail in Hhooks.
  pose proof (Hwf _ _ Hrow) as Hid.
  split.
  - intros et h Hin Heq. apply findByEventType_elem in Hin
      as ((key & Hkey) & Hen & _).
    rewrite Hhooks in Hkey.
    destruct (decide (id webhook = key)) as [<-|Hne].
    + rewrite lookup_insert_eq in Hkey. inversion Hkey; subst h.
      by specialize (Hen eq_refl).
    + rewrite lookup_insert_ne in Hkey by done.
      apply Hwf in Hkey. congruence.
  - intros et Het. unfold updateWebhook.
    rewrite MonitorPerformance_plain_world.
    unfold updateWebhook_body, repository_update, findById.
    rewrite Hhooks, lookup_insert_eq. simpl.
    eexists. split.
    + apply findByEventType_elem. split.
      * exists (id webhook). simpl. apply lookup_insert_eq.
      * split; [done|]. simpl. exact Het.
    + simpl. done.
Qed.

(** The lookup of a call that keeps its timer. *)
Lemma getWebhook_keeps lookup id' timers (w : World) :
  keepsTimer lookup →
  ∃ timers', getWebhook lookup id' timers w
             = (timers', w, getWebhook_body id' w).
Proof.
  intros Hcall. unfold getWebhook.
  destruct (MonitorPerformance_plain_keeps "WebhookService.getWebhook" lookup
              (λ w, (w, getWebhook_body id' w)) timers w Hcall)
    as (timers' & ->).
  by exists timers'.
Qed.



(** X18.  In a call that keeps its timer, and whose lookup does,
    [deleteWebhook] of an id that is not in the table fails with "Webhook
    with ID <id> not found" (NOT_FOUND, 404) and changes nothing.  Of an id
    that is in the table it removes that row only: the webhook is then not
    found by [getWebhook] nor by any trigger, while the delivery records
    written for it stay. *)
Theorem deleteWebhook_removes_row (call lookup after : Call)
    (id' userId : string) (timers : Timers) (w : World) :
  (∀ k r, webhooks w !! k = Some r → id r = k) →
  keepsTimer call → keepsTimer lookup → keepsTimer after →
  match webhooks w !! id' with
  | Some row =>
      ∃ timers' w',
        deleteWebhook call lookup id' userId timers w = (timers', w', Ok tt)
        ∧ (getWebhook after id' timers' w').2
          = Err (AppError NOT_FOUND
                   ("Webhook with ID " +:+ id' +:+ " not found") 404)
        ∧ (∀ k, k ≠ id' → webhooks w' !! k = webhooks w !! k)
        ∧ deliveries w' = deliveries w
        ∧ ∀ et h, h ∈ findByEventType et true w' → id h ≠ id'
  | None =>
      ∃ timers',
        deleteWebhook call lookup id' userId timers w
        = (timers', w,
           Err (AppError NOT_FOUND
                  ("Webhook with ID " +:+ id' +:+ " not found") 404))
  end.
Proof.
  intros Hwf Hcall Hlookup Hafter. unfold deleteWebhook.
  destruct (MonitorPerformance_keeps "WebhookService.deleteWebhook" call
              (deleteWebhook_body lookup id' userId) timers w Hcall)
    as (timers' & -> & _).
  { intros t. unfold deleteWebhook_body.
    pose proof (MonitorPerformance_frame "WebhookService.getWebhook" lookup
                  (plain (λ w, (w, getWebhook_body id' w))) t w
                  "WebhookService.deleteWebhook") as Hframe.
    fold (getWebhook lookup id' t w) in Hframe.
    destruct (getWebhook lookup id' t w) as [[t1 w1] [r|e]]; simpl in *.
    - destruct (repository_delete id' w1) as [w2 [?|?]]; simpl;
        by apply Hframe.
    - by apply Hframe. }
  unfold deleteWebhook_body.
  match goal with
  | |- context [getWebhook lookup id' ?t w] =>
      destruct (getWebhook_keeps lookup id' t w Hlookup) as (t1 & ->)
  end.
  unfold getWebhook_body, findById, repository_delete.
  destruct (webhooks w !! id') as [row|] eqn:Hrow; simpl; [|by eexists].
  eexists _, _. split; [reflexivity|].
  match goal with
  | |- context [getWebhook after id' ?t ?w1] =>
      destruct (getWebhook_keeps after id' t w1 Hafter) as (t2 & ->)
  end.
  unfold getWebhook_body, findById. simpl. rewrite lookup_delete_eq.
  repeat split; try done.
  - intros k Hk. by rewrite lookup_delete_ne.
  - intros et h Hin Heq. apply findByEventType_elem in Hin
      as ((key & Hkey) & _).
    simpl in Hkey. destruct (decide (id' = key)) as [<-|Hne].
    + by rewrite lookup_delete_eq in Hkey.
    + rewrite lookup_delete_ne in Hkey by done.
      apply Hwf in Hkey. congruence.
Qed.

Lemma Math_ceil_div_bounds (a b : Z) :
  0 < b → (Math_ceil_div a b - 1) * b < a <= Math_ceil_div a b * b.
Proof.
  intros Hb. unfold Math_ceil_div.
  pose proof (Z.div_mod (- a) b ltac:(lia)).
  pose proof (Z.mod_pos_bound (- a) b Hb). nia.
Qed.

(** X19.  [listWebhooks] pages the rows that match the filter: with a page
    number and a page size of at least 1, the i-th row of page [p] is row
    number [(p - 1) * pageSize + i] of the matching rows, a page holds at
    most [pageSize] rows, [totalPages] is the least number of pages that
    hold all [total] matching rows, and a page after the last is empty. *)
Theorem listWebhooks_pages (ordered : list WebhookResponse)
    (query : ListWebhooksQuery) :
  1 <= page query → 1 <= pageSize query →
  let result := listWebhooks ordered query in
  let rows := matching query ordered in
  p_total result.2 = Z.of_nat (length rows)
  ∧ (length result.1 ≤ Z.to_nat (pageSize query))%nat
  ∧ (∀ i, (i < Z.to_nat (pageSize query))%nat →
       result.1 !! i
       = rows !! (Z.to_nat ((page query - 1) * pageSize query) + i)%nat)
  ∧ (p_totalPages result.2 - 1) * pageSize query < p_total result.2
  ∧ p_total result.2 <= p_totalPages result.2 * pageSize query
  ∧ (p_totalPages result.2 < page query → result.1 = [])
  ∧ (∀ r, r ∈ rows → q_enabled query = None ∨ q_enabled query = Some (enabled r)).
Proof.
  intros Hpage Hsize result rows. unfold result, listWebhooks, findMany.
  fold rows. simpl.
  pose proof (Math_ceil_div_bounds (Z.of_nat (length rows)) (pageSize query)
                ltac:(lia)) as [Hlo Hhi].
  split; [done|]. split; [rewrite length_take; lia|].
  split.
  { intros i Hi. by rewrite lookup_take_lt, lookup_drop by done. }
  split; [exact Hlo|]. split; [exact Hhi|]. split.
  - intros Hbeyond. rewrite drop_ge; [by rewrite take_nil|]. nia.
  - intros r Hr. unfold rows, matching in Hr.
    destruct (q_enabled query) as [b|]; [right|by left].
    apply list_elem_of_filter in Hr as [<- _]. done.
Qed.

End WebhookMore.

(** ** Batch ingestion and the event controller: the store, the summary,
    the status codes *)

Section EventsMore.
Import Events EventController Performance.
Local Open Scope nat_scope.

Context {platform : Platform}.

(** What a call of the decorated [createEvent] returns, by what becomes
    of its timer. *)
Lemma createEvent_call call env input timers (w : World) :
  ∃ timers' result,
    createEvent call env input timers w
    = (timers', (createEvent_body env input w).1.1, result,
       (createEvent_body env input w).2)
    ∧ (result = (createEvent_body env input w).1.2
       ∨ result
         = Err (JsError "No timer found for operation: EventService.createEvent"))
    ∧ (keepsTimer call → result = (createEvent_body env input w).1.2).
Proof.
  unfold createEvent.
  set (original := λ (t : Timers) '((w0, _) : World * list Detached),
         let '(w1, result, detached) := createEvent_body env input w0 in
         (t, (w1, detached), result)).
  destruct (MonitorPerformance_cases "EventService.createEvent" call original
              timers (w, [])) as (timers' & result & Hrun & Hcases).
  exists timers', result. split; [|split].
  - rewrite Hrun. unfold original. simpl.
    by destruct (createEvent_body env input w) as [[w1 r1] d1].
  - destruct Hcases as [-> | ->]; [left|by right].
    unfold original. simpl.
    by destruct (createEvent_body env input w) as [[w1 r1] d1].
  - intros Hcall.
    destruct (MonitorPerformance_keeps "EventService.createEvent" call original
                timers (w, []) Hcall) as (t2 & Hrun2 & _).
    { intros t. unfold original.
      by destruct (createEvent_body env input w) as [[w1 r1] d1]. }
    rewrite Hrun in Hrun2. injection Hrun2 as _ ->.
    unfold original. simpl.
    by destruct (createEvent_body env input w) as [[w1 r1] d1].
Qed.

(** X20.  Whatever becomes of its timer, a call of an accepted batch makes
    one create call per item, and the store holds afterwards what it held
    before and the events those creates resolved with, nothing else: an
    item whose create rejected leaves no row.  A call that keeps its timer
    returns one result per item. *)
Theorem createBatchEvents_stores_resolved_creates (call : Call) (env : Env)
    (cfg : Webhook.WebhookDeliveryConfig) (net : Webhook.Network)
    (CHUNK_SIZE MAX_CONCURRENT : nat) (events : list CreateEventInput)
    (timers : Timers) (w : World) :
  1 ≤ CHUNK_SIZE → 1 ≤ MAX_CONCURRENT → 1 ≤ length events ≤ 1000 →
  ∃ timers' w' outcome,
    Events.createBatchEvents call env cfg net CHUNK_SIZE MAX_CONCURRENT
      events timers w
    = Some (timers', w', outcome)
    ∧ created w' = created w + length events
    ∧ (∀ ev, ev ∈ stored w'
        ↔ ev ∈ stored w
          ∨ ∃ k item, events !! k = Some item
              ∧ create env (created w + k)
                  (createArgument env (created w + k) item) = Ok ev)
    ∧ (keepsTimer call →
       ∃ results, outcome = Ok results ∧ length results = length events).
Proof.
  intros HC HM Hlen.
  destruct (createBatchEvents_call call env cfg net CHUNK_SIZE MAX_CONCURRENT
              events timers w HC HM Hlen) as (w' & Hbody & Hkeeps & _).
  destruct (createBatchEvents_world env cfg net CHUNK_SIZE MAX_CONCURRENT
              events w w' _ HC Hlen Hbody) as (Hst & Hcr & _).
  unfold Events.createBatchEvents in *. rewrite Hbody in *.
  destruct (MonitorPerformance_cases "EventService.createBatchEvents" call
              (λ t (_ : World), (t, w', Ok (resultsFrom env (created w) events)))
              timers w) as (timers' & outcome & Hrun & _).
  simpl in Hrun. exists timers', w', outcome.
  split; [by rewrite Hrun|]. split; [exact Hcr|]. split.
  - intros ev. by rewrite Hst, elem_of_app, storedFrom_elem.
  - intros Hcall. destruct (Hkeeps Hcall) as (t2 & Hrun2).
    rewrite Hrun in Hrun2. injection Hrun2 as _ ->.
    eexists. split; [reflexivity|]. apply resultsFrom_length.
Qed.

(** X21.  When the create of every item of an accepted batch rejects, a
    call that keeps its timer still returns: the summary counts N failures
    and no success, the store is as it was, and so is the subscriber world:
    no webhook request is sent and no delivery is recorded. *)
Theorem createBatchEvents_all_fail (call : Call) (env : Env)
    (cfg : Webhook.WebhookDeliveryConfig) (net : Webhook.Network)
    (CHUNK_SIZE MAX_CONCURRENT : nat) (events : list CreateEventInput)
    (timers : Timers) (w : World) :
  1 ≤ CHUNK_SIZE → 1 ≤ MAX_CONCURRENT → 1 ≤ length events ≤ 1000 →
  keepsTimer call →
  (∀ k item, events !! k = Some item →
     ∃ thrown, create env (created w + k)
                 (createArgument env (created w + k) item) = Err thrown) →
  ∃ timers' w' results,
    Events.createBatchEvents call env cfg net CHUNK_SIZE MAX_CONCURRENT
      events timers w
    = Some (timers', w', Ok results)
    ∧ summary results
      = {| total := length events; succeeded := 0; failed := length events |}
    ∧ stored w' = stored w
    ∧ hooks w' = hooks w.
Proof.
  intros HC HM Hlen Hcall Hfail.
  destruct (createBatchEvents_call call env cfg net CHUNK_SIZE MAX_CONCURRENT
              events timers w HC HM Hlen) as (w' & Hbody & Hkeeps & _).
  destruct (Hkeeps Hcall) as (timers' & Hrun).
  destruct (createBatchEvents_world env cfg net CHUNK_SIZE MAX_CONCURRENT
              events w w' _ HC Hlen Hbody) as (Hst & _ & Hh).
  destruct (resultsFrom_all_failed env events (created w) Hfail) as (Hf & Hs).
  exists timers', w', (resultsFrom env (created w) events).
  split; [exact Hrun|]. unfold summary.
  rewrite Hf, resultsFrom_length. simpl. rewrite Nat.sub_0_r.
  split; [done|]. split.
  - by rewrite Hst, Hs, app_nil_r.
  - rewrite Hh, Hf. done.
Qed.

(** X22.  A batch request whose body passes the schema (which admits 1 to
    1000 events), and whose call of the service keeps its timer, is
    answered 201 with one result per event and a summary whose total is N
    and whose two counts add up to N, whether or not any event was
    stored. *)
Theorem controller_batch_replies_201
    (parseBatch : JsValue → Result (list CreateEventInput)) (call : Call)
    (env : Env) (cfg : Webhook.WebhookDeliveryConfig) (net : Webhook.Network)
    (CHUNK_SIZE MAX_CONCURRENT : nat) (requestBody : JsValue)
    (events : list CreateEventInput) (timers : Timers) (w : World) :
  1 ≤ CHUNK_SIZE → 1 ≤ MAX_CONCURRENT →
  parseBatch requestBody = Ok events → 1 ≤ length events ≤ 1000 →
  keepsTimer call →
  ∃ timers' w' results s,
    EventController.createBatchEvents parseBatch call env cfg net CHUNK_SIZE
      MAX_CONCURRENT requestBody timers w
    = Some (timers', w',
            Some {| EventController.status := 201;
                    body := BatchBody results s |})
    ∧ length results = length events
    ∧ total s = length events
    ∧ succeeded s + failed s = length events.
Proof.
  intros HC HM Hparse Hlen Hcall.
  destruct (createBatchEvents_call call env cfg net CHUNK_SIZE MAX_CONCURRENT
              events timers w HC HM Hlen) as (w' & _ & Hkeeps & _).
  destruct (Hkeeps Hcall) as (timers' & Hrun).
  exists timers', w', (resultsFrom env (created w) events),
         (summary (resultsFrom env (created w) events)).
  unfold EventController.createBatchEvents. rewrite Hparse, Hrun.
  split; [done|]. rewrite resultsFrom_length. split; [done|].
  unfold summary. simpl. rewrite resultsFrom_length. split; [done|].
  pose proof (length_filter (λ e, Is_true (notFailed e))
                (resultsFrom env (created w) events)) as Hle.
  rewrite resultsFrom_length in Hle. lia.
Qed.

(** X23.  When the create of a single-event request rejects with a Prisma
    error, in a call of the service that keeps its timer, the reply carries
    the status of that error's code: 409 for P2002, 404 for P2025, 400 for
    P2003 and 500 for any other; the body repeats the status; nothing is
    stored and no webhook is triggered. *)
Theorem createSingleEvent_prisma_status
    (parseCreate : JsValue → Result CreateEventInput)
    (parseResponse : Event → Result Event) (call : Call) (env : Env)
    (requestBody : JsValue) (dto : CreateEventInput) (timers : Timers)
    (w : World) (code message : string) :
  parseCreate requestBody = Ok dto →
  create env (created w) (createArgument env (created w) dto)
  = Err (PrismaError code message) →
  keepsTimer call →
  ∃ timers' w' response,
    createSingleEvent parseCreate parseResponse call env requestBody timers w
    = (timers', w',
       Some {| EventController.status := er_statusCode response;
               body := ErrorBody response |}, [])
    ∧ er_statusCode response
      = (if bool_decide (code = "P2002") then 409
         else if bool_decide (code = "P2025") then 404
         else if bool_decide (code = "P2003") then 400
         else 500)%Z
    ∧ stored w' = stored w
    ∧ hooks w' = hooks w.
Proof.
  intros Hparse Hcreate Hcall.
  unfold createSingleEvent. rewrite Hparse.
  destruct (createEvent_call call env dto timers w)
    as (timers' & result & -> & _ & Hkeeps).
  rewrite (Hkeeps Hcall). unfold createEvent_body. rewrite Hcreate.
  unfold handlePrismaError.
  repeat case_bool_decide; cbn;
    match goal with |- context [ErrorBody ?r] => eexists _, _, r end; done.
Qed.

(** X24.  A request body that the parser rejects is answered 500 with the
    generic INTERNAL_ERROR body by both handlers, before any call of the
    service: the world and the monitors are as they were. *)
Theorem controller_parse_failure_is_500
    (parseCreate : JsValue → Result CreateEventInput)
    (parseResponse : Event → Result Event)
    (parseBatch : JsValue → Result (list CreateEventInput)) (call : Call)
    (env : Env) (cfg : Webhook.WebhookDeliveryConfig) (net : Webhook.Network)
    (CHUNK_SIZE MAX_CONCURRENT : nat) (requestBody : JsValue)
    (timers : Timers) (w : World) (code code' : string) :
  parseCreate requestBody = Err (ZodError code) →
  parseBatch requestBody = Err (ZodError code') →
  let generic :=
    Some {| EventController.status := 500;
            body := ErrorBody {| er_statusCode := 500;
                                 er_error := "INTERNAL_ERROR";
                                 er_message := "An unexpected error occurred" |}
         |} in
  createSingleEvent parseCreate parseResponse call env requestBody timers w
  = (timers, w, generic, [])
  ∧ EventController.createBatchEvents parseBatch call env cfg net CHUNK_SIZE
      MAX_CONCURRENT requestBody timers w
    = Some (timers, w, generic).
Proof.
  intros Hsingle Hbatch generic.
  unfold createSingleEvent, EventController.createBatchEvents.
  by rewrite Hsingle, Hbatch.
Qed.

(** X25.  The single-event handler validates its response after the event
    is created: when that validation fails the request is answered 500,
    yet the event is in the store and its webhook trigger has been
    started.  This holds whatever becomes of the timer of the call. *)
Theorem createSingleEvent_commits_before_response_check
    (parseCreate : JsValue → Result CreateEventInput)
    (parseResponse : Event → Result Event) (call : Call) (env : Env)
    (requestBody : JsValue) (dto : CreateEventInput) (event : Event)
    (timers : Timers) (w : World) (code : string) :
  parseCreate requestBody = Ok dto →
  create env (created w) (createArgument env (created w) dto) = Ok event →
  id event ≠ "" →
  parseResponse event = Err (ZodError code) →
  ∃ timers' w' reply,
    createSingleEvent parseCreate parseResponse call env requestBody timers w
    = (timers', w', Some reply,
       [{| t_eventType := "event.created"; t_payload := eventValue event |}])
    ∧ EventController.status reply = 500%Z
    ∧ event ∈ stored w'.
Proof.
  intros Hparse Hcreate Hid Hresponse.
  unfold createSingleEvent. rewrite Hparse.
  destruct (createEvent_call call env dto timers w)
    as (timers' & result & -> & Hcases & _).
  unfold createEvent_body in *.
  rewrite Hcreate, bool_decide_eq_false_2 in * by done. simpl in *.
  assert (Hin : event ∈ stored w ++ [event]).
  { apply elem_of_app. right. apply list_elem_of_singleton. done. }
  destruct Hcases as [->| ->].
  - rewrite Hresponse. simpl. eexists _, _, _. split; [done|]. done.
  - simpl. eexists _, _, _. split; [done|]. done.
Qed.

End EventsMore.

(** * Scenarios for the further properties *)

(** The scenario table stores its one row under the row's id. *)
Lemma scenarioHooks_keys (k : string) (row : Webhook.WebhookResponse) :
  Webhook.webhooks scenarioHooks !! k = Some row → Webhook.id row = k.
Proof.
  unfold scenarioHooks. simpl. intros H.
  apply lookup_singleton_Some in H as [<- <-]. reflexivity.
Defined.

Lemma scenarioThreeHooks_keys (k : string) (row : Webhook.WebhookResponse) :
  Webhook.webhooks scenarioThreeHooks !! k = Some row → Webhook.id row = k.
Proof.
  unfold scenarioThreeHooks. simpl. intros H.
  repeat (apply lookup_insert_Some in H as [[<- <-]|[_ H]]; [reflexivity|]).
  apply lookup_singleton_Some in H as [<- <-]. reflexivity.
Defined.

Lemma loneCall_keepsTimer : Performance.keepsTimer loneCall.
Proof. split; [|constructor]. intros Hz. discriminate Hz. Defined.

(** Three requests in a fresh window of the default configuration. *)
Lemma requests_within_one_window_witness :
  let run :=
    RateLimit.requests RateLimit.DEFAULT_CONFIG ∅ "client" "/events"
      [0; 10; 60000] in
  Forall (λ x, x <= 0 + 60000) [10; 60000]
  ∧ run.1 !! ("client", "/events")
    = Some {| RateLimit.count := 3; RateLimit.resetAt := 60000 |}
  ∧ length run.2 = 3%nat.
Proof.
  intros run.
  assert (Hall : Forall (λ x, x <= 0 + RateLimit.windowMs
                                        RateLimit.DEFAULT_CONFIG) [10; 60000])
    by (repeat constructor; simpl; lia).
  split; [exact Hall|].
  destruct (requests_within_one_window RateLimit.DEFAULT_CONFIG ∅
              "client" "/events" 0 [10; 60000]
              (or_introl (lookup_empty _)) Hall)
    as (Hrow & Hlen & _).
  split; [exact Hrow|exact Hlen].
Defined.

(** A sweep at 200 ms removes the row whose window closed at 100 ms; the
    request at 300 ms is told the same as without the sweep. *)
Lemma cleanup_is_transparent_witness :
  200 <= 300
  ∧ RateLimitService.cleanup scenarioTable 200 !! ("client", "/events") = None
  ∧ (RateLimit.checkRateLimit RateLimit.DEFAULT_CONFIG
       (RateLimitService.cleanup scenarioTable 200) "client" "/events" 300).2
    = (RateLimit.checkRateLimit RateLimit.DEFAULT_CONFIG scenarioTable
         "client" "/events" 300).2.
Proof.
  assert (Hle : 200 <= 300) by lia.
  split; [exact Hle|].
  destruct (cleanup_is_transparent RateLimit.DEFAULT_CONFIG scenarioTable
              "client" "/events" 200 300 Hle) as (Hrows & Hverdict & _).
  split; [|exact Hverdict].
  destruct (RateLimitService.cleanup scenarioTable 200
              !! ("client", "/events")) as [r|] eqn:Hr; [|reflexivity].
  apply Hrows in Hr as [Hr Hlate]. unfold scenarioTable in Hr.
  apply lookup_singleton_Some in Hr as [_ <-]. simpl in Hlate. lia.
Defined.

(** The plugin and the service, both empty, at the first request. *)
Lemma plugin_agrees_with_service_witness :
  let service :=
    RateLimit.checkRateLimit RateLimit.DEFAULT_CONFIG ∅ "1.2.3.4" "/events"
      1000 in
  let plugin := RateLimitPlugin.onRequest scenarioOptions ∅ "1.2.3.4" 1000 in
  mirrors ∅ ∅ "1.2.3.4" "/events" "1.2.3.4"
  ∧ mirrors service.1 plugin.1 "1.2.3.4" "/events" "1.2.3.4"
  ∧ (RateLimit.isLimited service.2 = true ↔ is_Some plugin.2).
Proof.
  intros service plugin.
  assert (Hm : mirrors ∅ ∅ "1.2.3.4" "/events" "1.2.3.4")
    by (unfold mirrors; rewrite !lookup_empty; reflexivity).
  assert (Hw0 : RateLimit.windowMs RateLimit.DEFAULT_CONFIG ≠ 0)
    by (simpl; lia).
  assert (Hm1 : 1 <= RateLimit.max RateLimit.DEFAULT_CONFIG) by (simpl; lia).
  split; [exact Hm|].
  exact (plugin_agrees_with_service RateLimit.DEFAULT_CONFIG scenarioOptions
           ∅ ∅ "1.2.3.4" "/events" "1.2.3.4" 1000 eq_refl eq_refl Hw0 Hm1 Hm).
Defined.

(** An Invalid Date for the start: the schema helper lets it through, the
    zod helper rejects it. *)
Lemma validateDateRange_versions_witness :
  Validation.schema_validateDateRange None (Some 0) = Ok tt
  ∧ Validation.validateDateRange None (Some 0) = Err (ZodError "invalid_date").
Proof.
  destruct (validateDateRange_versions None (Some 0)) as (_ & _ & H & _).
  apply H. by left.
Defined.

(** Two enabled subscribers of "event.created" and a disabled one: two
    results, one record for each of the two, and a request to each. *)
Lemma triggerWebhooks_reaches_enabled_subscribers_witness :
  let run :=
    Webhook.triggerWebhooks (platform := scenarioPlatform)
      Webhook.deliveryConfig netThirdTime "event.created" (JsObj [])
      scenarioThreeHooks in
  ∃ results records new,
    run.2 = Ok results
    ∧ length results = 2%nat
    ∧ Webhook.deliveries run.1 = records
    ∧ Forall2 (λ h d, Webhook.d_webhookId d = Webhook.id h)
        (Webhook.findByEventType "event.created" true scenarioThreeHooks)
        records
    ∧ length records = 2%nat
    ∧ Webhook.sent run.1 = new
    ∧ (∃ req, req ∈ new ∧ Webhook.req_url req = "https://example.com/webhook")
    ∧ (∃ req, req ∈ new ∧ Webhook.req_url req = "https://example.org/hook")
    ∧ ∀ req, req ∈ new → Webhook.req_url req ≠ "https://example.net/off".
Proof.
  intros run.
  destruct (triggerWebhooks_reaches_enabled_subscribers
              (platform := scenarioPlatform) netThirdTime "event.created"
              (JsObj []) scenarioThreeHooks scenarioThreeHooks_keys)
    as (Hsub & _ & results & records & new & Hrun & Hlen & Hdel & Hrec & Hsent
        & Hall & Honly).
  assert (Hsubs : length (Webhook.findByEventType "event.created" true
                            scenarioThreeHooks) = 2%nat)
    by (vm_compute; reflexivity).
  exists results, records, new. split; [exact Hrun|].
  split; [by rewrite Hlen|]. split; [exact Hdel|]. split; [exact Hrec|].
  split; [by rewrite <- (Forall2_length _ _ _ Hrec)|].
  split; [exact Hsent|]. split; [|split].
  - destruct (Hall scenarioWebhook) as (req & Hreq & Hurl & _).
    { apply Hsub. split; [vm_compute; reflexivity|].
      split; [reflexivity|]. apply list_elem_of_here. }
    exists req. split; [exact Hreq|exact Hurl].
  - destruct (Hall scenarioWebhook2) as (req & Hreq & Hurl & _).
    { apply Hsub. split; [vm_compute; reflexivity|].
      split; [reflexivity|]. apply list_elem_of_here. }
    exists req. split; [exact Hreq|exact Hurl].
  - intros req Hreq Hoff. destruct (Honly req Hreq) as (h & Hh & Hurl & _).
    apply Hsub in Hh as (Hrow & Hen & _).
    apply scenarioThreeHooks_keys in Hrow as Hid.
    unfold scenarioThreeHooks in Hrow. simpl in Hrow.
    repeat (apply lookup_insert_Some in Hrow as [[_ <-]|[_ Hrow]];
            [rewrite Hoff in Hurl; discriminate Hurl|]).
    apply lookup_singleton_Some in Hrow as [_ <-]. discriminate Hen.
Defined.

(** Two failures and a success: the delivery waited 1 s, then 5 s. *)
Lemma deliverWebhook_backoff_schedule_witness :
  let run :=
    Webhook.deliverWebhook (platform := scenarioPlatform)
      Webhook.deliveryConfig netThirdTime scenarioWebhook "event.created"
      (JsObj []) scenarioHooks in
  Webhook.webhooks scenarioHooks !! "123" = Some scenarioWebhook
  ∧ ∃ n, Webhook.slept run.1 = take (n - 1) [1000; 5000]
         ∧ 15000 ∉ Webhook.slept run.1.
Proof.
  intros run.
  assert (Hrow : Webhook.webhooks scenarioHooks !! Webhook.id scenarioWebhook
                 = Some scenarioWebhook) by reflexivity.
  split; [exact Hrow|].
  destruct (deliverWebhook_backoff_schedule (platform := scenarioPlatform)
              netThirdTime scenarioWebhook "event.created" (JsObj [])
              scenarioHooks scenarioWebhook Hrow)
    as (res & n & _ & _ & _ & Hslept & Hnever).
  exists n. split; [exact Hslept|exact Hnever].
Defined.

(** A delivery to a webhook whose row is gone: three requests, although
    the subscriber answers the first, and no record. *)
Lemma deliverWebhook_missing_row_witness :
  let run :=
    Webhook.deliverWebhook (platform := scenarioPlatform)
      Webhook.deliveryConfig (λ _ _, Webhook.HttpResponse 200 (JsObj []))
      scenarioWebhook "event.created" (JsObj []) scenarioNoHooks in
  Webhook.webhooks scenarioNoHooks !! "123" = None
  ∧ (∃ message, run.2 = Err (PrismaError "P2025" message))
  ∧ Webhook.deliveries run.1 = []
  ∧ length (Webhook.sent run.1) = 3%nat.
Proof.
  intros run.
  assert (Hnone : Webhook.webhooks scenarioNoHooks
                    !! Webhook.id scenarioWebhook = None)
    by apply lookup_empty.
  split; [exact Hnone|].
  destruct (deliverWebhook_missing_row (platform := scenarioPlatform)
              Webhook.deliveryConfig
              (λ _ _, Webhook.HttpResponse 200 (JsObj []))
              scenarioWebhook "event.created" (JsObj []) scenarioNoHooks Hnone)
    as (Herr & Hdel & _ & Hsent).
  split; [exact Herr|]. split; [exact Hdel|].
  fold run in Hsent. rewrite Hsent. reflexivity.
Defined.

(** The subscriber is down: after the delivery no trigger finds it; once
    enabled again it is found with its url. *)
Lemma failed_delivery_disables_subscriber_witness :
  let run :=
    Webhook.deliverWebhook (platform := scenarioPlatform)
      Webhook.deliveryConfig netDown scenarioWebhook "event.created"
      (JsObj []) scenarioHooks in
  ∃ res, run.2 = Ok res
    ∧ Webhook.success res = false
    ∧ Webhook.findByEventType "event.created" true run.1 = []
    ∧ ∃ h, h ∈ Webhook.findByEventType "event.created" true
                 (WebhookManagement.updateWebhook loneCall "123"
                    WebhookManagement.enableOnly ∅ run.1).1.2
           ∧ Webhook.url h = "https://example.com/webhook".
Proof.
  intros run.
  assert (Hrow : Webhook.webhooks scenarioHooks !! Webhook.id scenarioWebhook
                 = Some scenarioWebhook) by reflexivity.
  destruct run.2 as [res|e] eqn:Hres; [|discriminate Hres].
  assert (Hfail : Webhook.success res = false).
  { assert (E : Webhook.success <$> (match run.2 with
                                      | Ok r => Some r
                                      | Err _ => None
                                      end) = Some false) by reflexivity.
    rewrite Hres in E. simpl in E. injection E as E. exact E. }
  exists res. split; [reflexivity|]. split; [exact Hfail|].
  destruct (failed_delivery_disables_subscriber (platform := scenarioPlatform)
              Webhook.deliveryConfig netDown scenarioWebhook "event.created"
              (JsObj []) scenarioHooks scenarioWebhook res loneCall ∅
              scenarioHooks_keys Hrow Hres Hfail) as (Hoff & Hon).
  split; [reflexivity|].
  destruct (Hon "event.created") as (h & Hh & _ & Hurl & _).
  { apply list_elem_of_here. }
  exists h. split; [exact Hh|exact Hurl].
Defined.



(** Deleting the scenario's webhook: it is gone for [getWebhook]. *)
Lemma deleteWebhook_removes_row_witness :
  ∃ timers' w',
    WebhookManagement.deleteWebhook loneCall loneCall "123" "user-1" ∅
      scenarioHooks
    = (timers', w', Ok tt)
    ∧ (WebhookManagement.getWebhook loneCall "123" timers' w').2
      = Err (AppError NOT_FOUND "Webhook with ID 123 not found" 404)
    ∧ Webhook.findByEventType "event.created" true w' = [].
Proof.
  pose proof (deleteWebhook_removes_row loneCall loneCall loneCall "123"
                "user-1" ∅ scenarioHooks scenarioHooks_keys
                loneCall_keepsTimer loneCall_keepsTimer loneCall_keepsTimer)
    as H.
  assert (Hrow : Webhook.webhooks scenarioHooks !! "123"
                 = Some scenarioWebhook) by reflexivity.
  rewrite Hrow in H. destruct H as (timers' & w' & Hrun & Hget & _ & _ & Hnone).
  exists timers', w'. split; [exact Hrun|]. split; [exact Hget|].
  assert (Hw : w' = (WebhookManagement.deleteWebhook loneCall loneCall "123"
                       "user-1" ∅ scenarioHooks).1.2)
    by (rewrite Hrun; reflexivity).
  rewrite Hw. reflexivity.
Defined.

(** The first page of ten of the enabled webhooks of a one-row table. *)
Lemma listWebhooks_pages_witness :
  let result :=
    WebhookManagement.listWebhooks [scenarioWebhook] scenarioListQuery in
  1 <= WebhookManagement.page scenarioListQuery
  ∧ 1 <= WebhookManagement.pageSize scenarioListQuery
  ∧ WebhookManagement.p_total result.2 = 1
  ∧ (length result.1 ≤ 10)%nat
  ∧ result.1 !! 0%nat = Some scenarioWebhook.
Proof.
  intros result.
  assert (Hp : 1 <= WebhookManagement.page scenarioListQuery) by (simpl; lia).
  assert (Hs : 1 <= WebhookManagement.pageSize scenarioListQuery)
    by (simpl; lia).
  split; [exact Hp|]. split; [exact Hs|].
  destruct (listWebhooks_pages [scenarioWebhook] scenarioListQuery Hp Hs)
    as (Htotal & Hlen & Hrows & _).
  split; [exact Htotal|]. split; [exact Hlen|].
  unfold result. rewrite (Hrows 0%nat) by (simpl; lia). reflexivity.
Defined.

(** Three items, the second of which fails, in a call that loses its
    timer: three create calls, and the third item's event is in the
    store. *)
Lemma createBatchEvents_stores_resolved_creates_witness :
  ∃ timers' w' outcome,
    Events.createBatchEvents (platform := scenarioPlatform) overlappedCall
      envSecondFails Webhook.deliveryConfig netThirdTime 2 1 scenarioBatch
      ∅ scenarioWorld
    = Some (timers', w', outcome)
    ∧ Events.created w' = 3%nat
    ∧ storedEvent 2 (scenarioEvent "c") ∈ Events.stored w'
    ∧ storedEvent 1 (scenarioEvent "b") ∉ Events.stored w'.
Proof.
  assert (HC : (1 ≤ 2)%nat) by lia.
  assert (HM : (1 ≤ 1)%nat) by lia.
  assert (Hlen : (1 ≤ length scenarioBatch ≤ 1000)%nat) by (simpl; lia).
  destruct (createBatchEvents_stores_resolved_creates
              (platform := scenarioPlatform) overlappedCall envSecondFails
              Webhook.deliveryConfig netThirdTime 2 1 scenarioBatch ∅
              scenarioWorld HC HM Hlen)
    as (timers' & w' & outcome & Hrun & Hcr & Hst & _).
  exists timers', w', outcome. split; [exact Hrun|]. split; [exact Hcr|].
  split.
  - apply Hst. right. exists 2%nat, (scenarioEvent "c"). split; reflexivity.
  - intros Hin. apply Hst in Hin as [Hin|(k & item & Hk & Hc)].
    + by apply elem_of_nil in Hin.
    + destruct k as [|[|[|k]]]; simpl in Hk; try discriminate Hk;
        injection Hk as <-; discriminate Hc.
Defined.

(** Three items on a repository that is down. *)
Lemma createBatchEvents_all_fail_witness :
  ∃ timers' w' results,
    Events.createBatchEvents (platform := scenarioPlatform) loneCall
      envAllFail Webhook.deliveryConfig netThirdTime 2 1 scenarioBatch ∅
      scenarioWorld
    = Some (timers', w', Ok results)
    ∧ Events.summary results
      = {| Events.total := 3; Events.succeeded := 0; Events.failed := 3 |}
    ∧ Events.stored w' = []
    ∧ Events.hooks w' = scenarioHooks.
Proof.
  assert (HC : (1 ≤ 2)%nat) by lia.
  assert (HM : (1 ≤ 1)%nat) by lia.
  assert (Hlen : (1 ≤ length scenarioBatch ≤ 1000)%nat) by (simpl; lia).
  assert (Hfail : ∀ k item, scenarioBatch !! k = Some item →
            ∃ thrown,
              Events.create envAllFail (Events.created scenarioWorld + k)
                (Events.createArgument envAllFail
                   (Events.created scenarioWorld + k) item) = Err thrown)
    by (intros k item _; eexists; reflexivity).
  exact (createBatchEvents_all_fail (platform := scenarioPlatform) loneCall
           envAllFail Webhook.deliveryConfig netThirdTime 2 1 scenarioBatch ∅
           scenarioWorld HC HM Hlen loneCall_keepsTimer Hfail).
Defined.

(** The batch handler on the same repository: 201, three failures. *)
Lemma controller_batch_replies_201_witness :
  ∃ timers' w' results s,
    EventController.createBatchEvents (platform := scenarioPlatform)
      (λ _, Ok scenarioBatch) loneCall envAllFail Webhook.deliveryConfig
      netThirdTime 2 1 (JsObj []) ∅ scenarioWorld
    = Some (timers', w',
            Some {| EventController.status := 201;
                    EventController.body :=
                      EventController.BatchBody results s |})
    ∧ length results = 3%nat
    ∧ Events.total s = 3%nat
    ∧ (Events.succeeded s + Events.failed s = 3)%nat.
Proof.
  assert (HC : (1 ≤ 2)%nat) by lia.
  assert (HM : (1 ≤ 1)%nat) by lia.
  assert (Hlen : (1 ≤ length scenarioBatch ≤ 1000)%nat) by (simpl; lia).
  exact (controller_batch_replies_201 (platform := scenarioPlatform)
           (λ _, Ok scenarioBatch) loneCall envAllFail Webhook.deliveryConfig
           netThirdTime 2 1 (JsObj []) scenarioBatch ∅ scenarioWorld
           HC HM eq_refl Hlen loneCall_keepsTimer).
Defined.

(** A single event that the store holds already is answered 409. *)
Lemma createSingleEvent_prisma_status_witness :
  ∃ timers' w' response,
    EventController.createSingleEvent (λ _, Ok (scenarioEvent "a"))
      (λ event, Ok event) loneCall envDuplicate (JsObj []) ∅ scenarioWorld
    = (timers', w',
       Some {| EventController.status := 409;
               EventController.body := EventController.ErrorBody response |},
       [])
    ∧ EventController.er_statusCode response = 409
    ∧ Events.stored w' = [].
Proof.
  destruct (createSingleEvent_prisma_status (λ _, Ok (scenarioEvent "a"))
              (λ event, Ok event) loneCall envDuplicate (JsObj [])
              (scenarioEvent "a") ∅ scenarioWorld "P2002"
              "Unique constraint failed" eq_refl eq_refl loneCall_keepsTimer)
    as (timers' & w' & response & Hrun & Hstatus & Hstored & _).
  simpl in Hstatus. exists timers', w', response.
  rewrite Hstatus in Hrun. split; [exact Hrun|].
  split; [exact Hstatus|exact Hstored].
Defined.

(** A body that neither parser accepts. *)
Lemma controller_parse_failure_is_500_witness :
  ∃ reply,
    EventController.createSingleEvent
      (λ _, Err (ZodError "invalid_type")) (λ event, Ok event) loneCall
      envHealthy JsNull ∅ scenarioWorld
    = (∅, scenarioWorld, Some reply, [])
    ∧ EventController.createBatchEvents (platform := scenarioPlatform)
        (λ _, Err (ZodError "invalid_type")) loneCall envHealthy
        Webhook.deliveryConfig netThirdTime 2 1 JsNull ∅ scenarioWorld
      = Some (∅, scenarioWorld, Some reply)
    ∧ EventController.status reply = 500.
Proof.
  destruct (controller_parse_failure_is_500 (platform := scenarioPlatform)
              (λ _, Err (ZodError "invalid_type")) (λ event, Ok event)
              (λ _, Err (ZodError "invalid_type")) loneCall envHealthy
              Webhook.deliveryConfig netThirdTime 2 1 JsNull ∅ scenarioWorld
              "invalid_type" "invalid_type" eq_refl eq_refl)
    as (Hsingle & Hbatch).
  eexists. split; [exact Hsingle|]. split; [exact Hbatch|reflexivity].
Defined.

(** The repository's id "event-0" is no UUID, so the response check fails:
    500, with the event stored. *)
Lemma createSingleEvent_commits_before_response_check_witness :
  ∃ timers' w' reply detached,
    EventController.createSingleEvent (λ _, Ok (scenarioEvent "a"))
      (λ _, Err (ZodError "invalid_string")) loneCall envHealthy (JsObj [])
      ∅ scenarioWorld
    = (timers', w', Some reply, [detached])
    ∧ EventController.status reply = 500
    ∧ storedEvent 0 (scenarioEvent "a") ∈ Events.stored w'.
Proof.
  assert (Hid : Events.id (storedEvent 0 (scenarioEvent "a")) ≠ "")
    by (intros H; discriminate H).
  destruct (createSingleEvent_commits_before_response_check
              (λ _, Ok (scenarioEvent "a"))
              (λ _, Err (ZodError "invalid_string")) loneCall envHealthy
              (JsObj []) (scenarioEvent "a")
              (storedEvent 0 (scenarioEvent "a")) ∅ scenarioWorld
              "invalid_string" eq_refl eq_refl Hid eq_refl)
    as (timers' & w' & reply & Hrun & Hstatus & Hstored).
  exists timers', w', reply. eexists. split; [exact Hrun|].
  split; [exact Hstatus|exact Hstored].
Defined.

(** Three items in chunks of two, one chunk per wave, in a call that runs
    alone. *)
Lemma createBatchEvents_in_order_witness :
  (1 ≤ 2)%nat ∧ (1 ≤ 1)%nat ∧ (1 ≤ length scenarioBatch ≤ 1000)%nat
  ∧ Performance.keepsTimer loneCall
  ∧ ∃ timers' w' results,
      Events.createBatchEvents (platform := scenarioPlatform) loneCall
        envSecondFails Webhook.deliveryConfig netThirdTime 2 1 scenarioBatch
        ∅ scenarioWorld
      = Some (timers', w', Ok results)
      ∧ length results = 3%nat
      ∧ results !! 2%nat = Some (storedEvent 2 (scenarioEvent "c")).
Proof.
  assert (HC : (1 ≤ 2)%nat) by lia.
  assert (HM : (1 ≤ 1)%nat) by lia.
  assert (Hlen : (1 ≤ length scenarioBatch ≤ 1000)%nat) by (simpl; lia).
  split; [exact HC|]. split; [exact HM|]. split; [exact Hlen|].
  split; [exact loneCall_keepsTimer|].
  destruct (createBatchEvents_in_order (platform := scenarioPlatform) loneCall
              envSecondFails Webhook.deliveryConfig netThirdTime 2 1
              scenarioBatch ∅ scenarioWorld HC HM Hlen loneCall_keepsTimer)
    as (timers' & w' & results & Hrun & Hlength & Horder).
  exists timers', w', results. split; [exact Hrun|]. split; [exact Hlength|].
  exact (Horder 2%nat (scenarioEvent "c") eq_refl).
Defined.

(** The second of three items fails; the first and the third are reported
    as in the run where it does not. *)
Lemma createBatchEvents_isolates_failure_witness :
  ∃ timers1 w1 results timers2 w2 results',
    Events.createBatchEvents (platform := scenarioPlatform) loneCall
      envSecondFails Webhook.deliveryConfig netThirdTime 2 1 scenarioBatch
      ∅ scenarioWorld
    = Some (timers1, w1, Ok results)
    ∧ Events.createBatchEvents (platform := scenarioPlatform) loneCall
        envHealthy Webhook.deliveryConfig netThirdTime 2 1 scenarioBatch
        ∅ scenarioWorld
      = Some (timers2, w2, Ok results')
    ∧ (Events.status ∘ Events.fields <$> results !! 1%nat) = Some "failed"
    ∧ (Events.error <$> results !! 1%nat) = Some (Some "fail")
    ∧ results !! 0%nat = results' !! 0%nat
    ∧ results !! 2%nat = results' !! 2%nat.
Proof.
  assert (HC : (1 ≤ 2)%nat) by lia.
  assert (HM : (1 ≤ 1)%nat) by lia.
  assert (Hlen : (1 ≤ length scenarioBatch ≤ 1000)%nat) by (simpl; lia).
  assert (Hsame : ∀ n input, n ≠ (Events.created scenarioWorld + 1)%nat →
            Events.create envHealthy n input
            = Events.create envSecondFails n input).
  { intros n input Hn. simpl in *. by destruct (Nat.eqb_spec n 1). }
  destruct (createBatchEvents_isolates_failure (platform := scenarioPlatform)
              loneCall envSecondFails envHealthy Webhook.deliveryConfig
              netThirdTime 2 1 scenarioBatch ∅ scenarioWorld 1
              (scenarioEvent "b") (JsError "fail") HC HM Hlen
              loneCall_keepsTimer eq_refl eq_refl Hsame (λ _ _, eq_refl))
    as (timers1 & w1 & results & timers2 & w2 & results' & Hrun & Hrun' & _
        & _ & Hi & Hothers).
  exists timers1, w1, results, timers2, w2, results'.
  split; [exact Hrun|]. split; [exact Hrun'|].
  rewrite Hi. split; [reflexivity|]. split; [reflexivity|].
  split; apply Hothers; lia.
Defined.

(** A call started at 1000 ms and one started at 1500 ms. *)
Lemma overlapping_calls_share_one_timer_witness :
  let operationId := "EventService.createBatchEvents" in
  ∃ timers',
    Performance.endTimer operationId
      (Performance.startTimer operationId 1500
         (Performance.startTimer operationId 1000 ∅))
    = Ok timers'
    ∧ Performance.endTimer operationId timers'
      = Err (JsError "No timer found for operation: EventService.createBatchEvents").
Proof.
  intros operationId.
  assert (Hnz : ¬ (1500 == 0)%Q) by (intros Hz; discriminate Hz).
  exact (overlapping_calls_share_one_timer operationId 1000 1500 ∅ Hnz).
Defined.
